(** * bufisk: version resolution, verified download and launch of buf

    A shallow embedding of bufisk.go (package main) together with the two
    platform files bufisk_unix.go and bufisk_windows.go.

    Go strings and byte slices are byte sequences; both are modelled by
    [string] (a list of 8-bit [ascii]).  Effects (environment, file system,
    network, minisign, child process) are modelled by a state monad over an
    explicit world: an immutable [Env] of oracles that fixes what the outside
    world answers, and a mutable [State] holding the file system and the log
    of effects in the order they happen. *)

From Stdlib Require Import ZArith Lia Ascii String List Bool.
From stdpp Require Import base option list strings gmap.

Local Open Scope Z_scope.

(** ** The parts of the Go standard library the program calls *)

Module GoStrings.

(** s[0] is a prefix test on bytes; [String.prefix p s] holds when p is a
    prefix of s. *)
Definition HasPrefix (s p : string) : bool := String.prefix p s.

(** strings.HasSuffix: len(s) >= len(suffix) and the tail of s equals
    suffix. *)
Definition HasSuffix (s suffix : string) : bool :=
  String.prefix (String.rev suffix) (String.rev s).

Definition cons_head (c : ascii) (l : list string) : list string :=
  match l with
  | h :: t => String c h :: t
  | [] => [String c EmptyString]
  end.

(** strings.Split for a non-empty separator: cut at every occurrence of
    sep, scanning left to right, occurrences not overlapping.  [skip] counts
    the bytes of the current occurrence still to be dropped. *)
Fixpoint genSplit (sep : string) (skip : nat) (s : string) : list string :=
  match s with
  | EmptyString => [EmptyString]
  | String c s' =>
      match skip with
      | S k => genSplit sep k s'
      | O =>
          if String.prefix sep s
          then EmptyString :: genSplit sep (Nat.pred (String.length sep)) s'
          else cons_head c (genSplit sep O s')
      end
  end.

(** With an empty separator Go explodes the string into its UTF-8
    sequences; the program never does that, and the model explodes into
    bytes there. *)
Fixpoint explode (s : string) : list string :=
  match s with
  | EmptyString => []
  | String c s' => String c EmptyString :: explode s'
  end.

Definition Split (s sep : string) : list string :=
  match sep with
  | EmptyString => explode s
  | _ => genSplit sep O s
  end.

(** unicode.IsSpace, on the UTF-8 encoding.  Go's TrimSpace strips, from
    both ends, every rune r with unicode.IsSpace(r): the six ASCII ones,
    U+0085, U+00A0, U+1680, U+2000..U+200A, U+2028, U+2029, U+202F, U+205F
    and U+3000.  A byte that does not start one of these encodings decodes
    to a rune that is not a space (an invalid byte decodes to RuneError),
    so trimming stops there. *)
Definition asciiSpace (c : ascii) : bool :=
  match nat_of_ascii c with
  | 9%nat | 10%nat | 11%nat | 12%nat | 13%nat | 32%nat => true
  | _ => false
  end.

Definition byte (n : nat) : ascii := ascii_of_nat n.

(** The multi-byte encodings of the non-ASCII spaces, as byte lists. *)
Definition unicodeSpaces : list (list nat) :=
  [ [194; 133]; [194; 160]; [225; 154; 128];
    [226; 128; 128]; [226; 128; 129]; [226; 128; 130]; [226; 128; 131];
    [226; 128; 132]; [226; 128; 133]; [226; 128; 134]; [226; 128; 135];
    [226; 128; 136]; [226; 128; 137]; [226; 128; 138];
    [226; 128; 168]; [226; 128; 169]; [226; 128; 175];
    [226; 129; 159]; [227; 128; 128] ]%nat.

Definition isSpace2 (a b : ascii) : bool :=
  bool_decide ([nat_of_ascii a; nat_of_ascii b] ∈ unicodeSpaces).
Definition isSpace3 (a b c : ascii) : bool :=
  bool_decide ([nat_of_ascii a; nat_of_ascii b; nat_of_ascii c] ∈ unicodeSpaces).

(** TrimLeftFunc(s, unicode.IsSpace): drop leading space runes. *)
Fixpoint trimLeft (s : string) : string :=
  match s with
  | EmptyString => EmptyString
  | String a s1 =>
      if asciiSpace a then trimLeft s1
      else match s1 with
           | String b s2 =>
               if isSpace2 a b then trimLeft s2
               else match s2 with
                    | String c s3 => if isSpace3 a b c then trimLeft s3 else s
                    | EmptyString => s
                    end
           | EmptyString => s
           end
  end.

(** TrimRightFunc(s, unicode.IsSpace), on the reversed string: the last
    rune is found by walking back over continuation bytes to its lead
    byte, so a trailing space encoding is recognised from its last byte
    backwards. *)
Fixpoint trimLeftRev (s : string) : string :=
  match s with
  | EmptyString => EmptyString
  | String a s1 =>
      if asciiSpace a then trimLeftRev s1
      else match s1 with
           | String b s2 =>
               if isSpace2 b a then trimLeftRev s2
               else match s2 with
                    | String c s3 => if isSpace3 c b a then trimLeftRev s3 else s
                    | EmptyString => s
                    end
           | EmptyString => s
           end
  end.

Definition trimRight (s : string) : string :=
  String.rev (trimLeftRev (String.rev s)).

Definition TrimSpace (s : string) : string := trimRight (trimLeft s).

End GoStrings.

Module Strconv.

(** strconv.NumError.Err *)
Inductive NumError := ErrSyntax | ErrRange.

(** int is 64 bits wide on every platform buf is released for. *)
Definition intSize : Z := 64.
Definition maxUint64 : Z := 2 ^ 64 - 1.

Definition byteZ (c : ascii) : Z := Z.of_nat (nat_of_ascii c).

(** The fast path of Atoi: [ch -= '0'] on a byte wraps modulo 256, and
    [ch > 9] is a syntax error. *)
Fixpoint atoiFast (s : string) (n : Z) : NumError + Z :=
  match s with
  | EmptyString => inr n
  | String ch s' =>
      let d := (byteZ ch - 48) mod 256 in
      if 9 <? d then inl ErrSyntax else atoiFast s' (n * 10 + d)
  end.

(** The loop of ParseUint(s, 10, 64).  A byte that is not a decimal digit
    is either a letter, whose digit value is at least the base, or falls to
    the default case: a syntax error in both.  [n] is a uint64: the
    multiplication cannot wrap below the cutoff, the addition can. *)
Fixpoint parseUintLoop (s : string) (n : Z) : NumError + Z :=
  match s with
  | EmptyString => inr n
  | String c s' =>
      if (48 <=? byteZ c) && (byteZ c <=? 57) then
        let d := byteZ c - 48 in
        let cutoff := maxUint64 / 10 + 1 in
        if cutoff <=? n then inl ErrRange
        else
          let n := n * 10 in
          let n1 := (n + d) mod 2 ^ 64 in
          if (n1 <? n) || (maxUint64 <? n1) then inl ErrRange
          else parseUintLoop s' n1
      else inl ErrSyntax
  end.

Definition ParseUint (s : string) : NumError + Z :=
  match s with
  | EmptyString => inl ErrSyntax
  | _ => parseUintLoop s 0
  end.

(** ParseInt(s, 10, 0).  On a range error ParseUint returns maxVal, which
    the range check below turns into a range error again. *)
Definition ParseInt (s : string) : NumError + Z :=
  match s with
  | EmptyString => inl ErrSyntax
  | String c0 rest =>
      let neg := bool_decide (c0 = "-"%char) in
      let s1 := if bool_decide (c0 = "+"%char) || neg then rest else s in
      match ParseUint s1 with
      | inl ErrSyntax => inl ErrSyntax
      | r =>
          let un := match r with inr un => un | inl _ => maxUint64 end in
          let cutoff := 2 ^ (intSize - 1) in
          if negb neg && (cutoff <=? un) then inl ErrRange
          else if neg && (cutoff <? un) then inl ErrRange
          else inr (if neg then - un else un)
      end
  end.

Definition Atoi (s : string) : NumError + Z :=
  let sLen := Z.of_nat (String.length s) in
  if (0 <? sLen) && (sLen <? 19) then
    match s with
    | EmptyString => inl ErrSyntax
    | String c0 rest =>
        let signed := bool_decide (c0 = "-"%char) || bool_decide (c0 = "+"%char) in
        let s1 := if signed then rest else s in
        if signed && (String.length s1 <? 1)%nat then inl ErrSyntax
        else
          match atoiFast s1 0 with
          | inl e => inl e
          | inr n => inr (if bool_decide (c0 = "-"%char) then - n else n)
          end
    end
  else ParseInt s.

End Strconv.

(** ** Errors

    One constructor per error site of the program, carrying the arguments of
    its format string in the order the source passes them.  [ErrLib] stands
    for an error value made by a library (os, io, net/http, minisign). *)

Inductive error :=
| ErrLib (what : string)
| ErrNotExist (path : string)
| ErrExit (code : Z)
| ErrInvalidBufVersion (source bufVersion : string)
| ErrVersionNotSet (envKey fileName : string)
| ErrCouldNotDownloadBuf (bufVersion : string) (err : error)
| ErrRemoveSource (tempFilePath : string) (err : error)
| ErrCouldNotHash (tempFilePath : string) (err : error)
| ErrSha256Mismatch (fileName firstQuoted secondQuoted : string)
| ErrKeyIDMismatch (publicKeyID signatureKeyID : Z)
| ErrSignatureVerification
| ErrHTTPStatus (url : string) (status : Z)
| ErrInvalidSha256Line (line : string)
| ErrNotInSha256Txt (fileName sha256TxtData : string)
| ErrCacheHomeNotSet
| ErrLocalAppDataNotSet.

(** ** Platform: the per-target constants and the pure library functions *)

Inductive GOOS := Unix | Windows.

Record Platform := {
  goos : GOOS;
  (** unameS of the unix-like targets and unameM are set in per-target
      files; bufisk_windows.go fixes unameS to Windows. *)
  unixUnameS : string;
  unameM : string;
  (** os.PathSeparator, filepath.Join and filepath.Dir of the target. *)
  PathSeparator : string;
  filepath_Join : list string -> string;
  filepath_Dir : string -> string;
  (** hex.EncodeToString of the sha256 digest of a byte sequence. *)
  sha256Hex : string -> string;
  (** aead.dev/minisign *)
  PublicKey : Type;
  Signature : Type;
  PublicKey_UnmarshalText : string -> error + PublicKey;
  PublicKey_ID : PublicKey -> Z;
  Signature_UnmarshalText : string -> error + Signature;
  Signature_KeyID : Signature -> Z;
  Signature_MarshalText : Signature -> error + string;
  minisign_Verify : PublicKey -> string -> string -> bool
}.

Definition unameS (P : Platform) : string :=
  match goos P with Windows => "Windows" | Unix => unixUnameS P end.

Definition executableSuffix (P : Platform) : string :=
  match goos P with Windows => ".exe" | Unix => "" end.

(** ** The world *)

(** What can be read from a stream: [avail] arrives, then [rerr] (or the
    end of the stream when it is None). *)
Record Reader := { avail : string; rerr : option error }.

Inductive HTTPResult :=
| NewRequestErr (e : error)
| DoErr (e : error)
| Response (status : Z) (body : Reader) (closeErr : option error).

(** The operations that the outside world can make fail. *)
Inductive op :=
| OpGetwd
| OpReadFile (path : string)
| OpStat (path : string)
| OpCreateTemp
| OpOpen (path : string)
| OpCreate (path : string)
| OpClose (path : string)
| OpRemove (path : string)
| OpMkdirAll (path : string)
| OpChmod (path : string)
| OpStderr.

Record Env := {
  environ : string -> string;
  osArgs : list string;
  cwd : string;
  tempName : string;
  fault : op -> option error;
  readFault : string -> option (nat * error);
  writeFault : string -> option (nat * error);
  http : string -> HTTPResult;
  childRun : string -> list string -> option error
}.

Record File := { contents : string; perm : Z }.

(** The log: effects in the order they happen.  EvHTTPDone, EvHashFile,
    EvVerify and EvExtractHash record what a call returned: download,
    hashFile, minisign.Verify and getSha256HexForTxtData. *)
Inductive event :=
| EvGetenv (key : string)
| EvGetwd
| EvReadFile (path : string) (err : option error)
| EvStat (path : string) (err : option error)
| EvHTTPGet (url : string)
| EvHTTPDone (url : string) (ok : bool)
| EvCreateTemp (path : string)
| EvOpen (path : string)
| EvCreate (path : string)
| EvWrite (path : string) (data : string)
| EvClose (path : string)
| EvRemove (path : string)
| EvMkdirAll (path : string)
| EvChmod (path : string) (mode : Z)
| EvHashFile (path : string) (hex : string)
| EvVerify (ok : bool)
| EvExtractHash (fileName : string) (hex : option string)
| EvStderr (msg : string)
| EvExec (path : string) (args : list string).

Record State := { fs : gmap string File; log : list event }.

Definition init (files : gmap string File) : State :=
  {| fs := files; log := [] |}.

(** ** The monad: state is kept on failure, as in Go *)

Inductive Res (A : Type) :=
| Ok (a : A)
| Err (e : error)
| OutOfFuel.
Arguments Ok {A} a.
Arguments Err {A} e.
Arguments OutOfFuel {A}.

Definition M (A : Type) : Type := State -> Res A * State.

Definition ret {A} (a : A) : M A := fun st => (Ok a, st).
Definition fail {A} (e : error) : M A := fun st => (Err e, st).

Definition bind {A B} (m : M A) (k : A -> M B) : M B :=
  fun st =>
    match m st with
    | (Ok a, st') => k a st'
    | (Err e, st') => (Err e, st')
    | (OutOfFuel, st') => (OutOfFuel, st')
    end.

Notation "'let!' x ':=' m 'in' k" := (bind m (fun x => k))
  (at level 10, x pattern, m at level 100, k at level 200).
Notation "m ';;' k" := (bind m (fun _ => k))
  (at level 100, k at level 200, right associativity).

(** [x, err := f()] followed by a test of err that does not return. *)
Definition attempt {A} (m : M A) : M (error + A) :=
  fun st =>
    match m st with
    | (Ok a, st') => (Ok (inr a), st')
    | (Err e, st') => (Ok (inl e), st')
    | (OutOfFuel, st') => (OutOfFuel, st')
    end.

(** [if err != nil { return wrap(err) }] *)
Definition wrapErr {A} (wrap : error -> error) (m : M A) : M A :=
  fun st =>
    match m st with
    | (Err e, st') => (Err (wrap e), st')
    | r => r
    end.

(** [defer func() { if err := cleanup(); err != nil ... }()]: the cleanup
    runs on every return of body, and [onErr] says how its error changes the
    returned one. *)
Definition defer {A} (cleanup : M unit) (onErr : error -> Res A -> Res A)
    (body : M A) : M A :=
  fun st =>
    match body st with
    | (OutOfFuel, st1) => (OutOfFuel, st1)
    | (r, st1) =>
        match cleanup st1 with
        | (Err e, st2) => (onErr e r, st2)
        | (_, st2) => (r, st2)
        end
    end.

(** [err != nil && retErr == nil] *)
Definition ifRetErrNil {A} (wrap : error -> error) (e : error) (r : Res A) : Res A :=
  match r with
  | Ok _ => Err (wrap e)
  | _ => r
  end.

Definition liftSum {A} (r : error + A) : M A :=
  match r with inl e => fail e | inr a => ret a end.

(** What an event does to the file system.  Only five events change it;
    every change of the file system goes through [emit], so the file system
    is at all times the initial one with the log replayed on it.

    The mode recorded for a file that os.CreateTemp or os.Create makes is the
    mode the call asks for, 0600 and 0666; the umask of the process, which
    can only clear bits of it, is not part of the world.  The mode os.Chmod
    sets is exact. *)
Definition apply_event (ev : event) (files : gmap string File) : gmap string File :=
  match ev with
  | EvCreateTemp p => <[p := {| contents := ""; perm := 384 |}]> files
  | EvCreate p =>
      let mode := match files !! p with Some f => perm f | None => 438 end in
      <[p := {| contents := ""; perm := mode |}]> files
  | EvWrite p data =>
      match files !! p with
      | Some f => <[p := {| contents := contents f +:+ data; perm := perm f |}]> files
      | None => files
      end
  | EvRemove p => delete p files
  | EvChmod p mode =>
      match files !! p with
      | Some f => <[p := {| contents := contents f; perm := mode |}]> files
      | None => files
      end
  | _ => files
  end.

Definition replay (evs : list event) (files : gmap string File) : gmap string File :=
  foldl (fun f ev => apply_event ev f) files evs.

Definition emit (ev : event) : M unit :=
  fun st => (Ok tt, {| fs := apply_event ev (fs st); log := log st ++ [ev] |}).

(** Logs what a call returned. *)
Definition traced {A} (ev : Res A -> option event) (m : M A) : M A :=
  fun st =>
    match m st with
    | (r, st1) =>
        match ev r with
        | Some e => (r, {| fs := apply_event e (fs st1); log := log st1 ++ [e] |})
        | None => (r, st1)
        end
    end.

Definition getFS : M (gmap string File) := fun st => (Ok (fs st), st).

Definition takeS (n : nat) (s : string) : string := String.substring 0 n s.
(** ** The operating system, the network and the child process *)

Section Primitives.
Context (E : Env).

Definition os_Getenv (key : string) : M string :=
  emit (EvGetenv key) ;; ret (environ E key).

Definition os_Getwd : M string :=
  emit EvGetwd ;;
  match fault E OpGetwd with
  | Some e => fail e
  | None => ret (cwd E)
  end.

(** What an operation on an existing file answers: the failure the world
    injects, else the file, else that it does not exist. *)
Definition query (o : op) (files : gmap string File) (path : string) : error + File :=
  match fault E o with
  | Some e => inl e
  | None =>
      match files !! path with
      | Some f => inr f
      | None => inl (ErrNotExist path)
      end
  end.

Definition os_ReadFile (path : string) : M string :=
  let! files := getFS in
  match query (OpReadFile path) files path with
  | inl e => emit (EvReadFile path (Some e)) ;; fail e
  | inr f => emit (EvReadFile path None) ;; ret (contents f)
  end.

Definition os_Stat (path : string) : M unit :=
  let! files := getFS in
  match query (OpStat path) files path with
  | inl e => emit (EvStat path (Some e)) ;; fail e
  | inr f => emit (EvStat path None)
  end.

(** os.CreateTemp: a new file of mode 0600 under a name that is not
    taken; [tempName] is the name the system picks. *)
Definition os_CreateTemp : M string :=
  let! files := getFS in
  match fault E OpCreateTemp with
  | Some e => fail e
  | None =>
      match files !! tempName E with
      | Some _ => fail (ErrLib "file exists")
      | None => emit (EvCreateTemp (tempName E)) ;; ret (tempName E)
      end
  end.

(** os.Open: the handle is the path; the bytes are read by io.Copy. *)
Definition os_Open (path : string) : M string :=
  let! files := getFS in
  match query (OpOpen path) files path with
  | inl e => fail e
  | inr _ => emit (EvOpen path) ;; ret path
  end.

(** os.Create: O_RDWR|O_CREATE|O_TRUNC, mode 0666 for a new file; an
    existing file is truncated and keeps its mode. *)
Definition os_Create (path : string) : M string :=
  match fault E (OpCreate path) with
  | Some e => fail e
  | None => emit (EvCreate path) ;; ret path
  end.

Definition file_Close (path : string) : M unit :=
  emit (EvClose path) ;;
  match fault E (OpClose path) with
  | Some e => fail e
  | None => ret tt
  end.

(** The stream of an open file: its bytes, cut short by a read failure. *)
Definition fileReader (path : string) : M Reader :=
  let! files := getFS in
  let data := match files !! path with Some f => contents f | None => "" end in
  match readFault E path with
  | Some (n, e) => ret {| avail := takeS n data; rerr := Some e |}
  | None => ret {| avail := data; rerr := None |}
  end.

Definition appendTo (path data : string) : M unit :=
  let! files := getFS in
  match files !! path with
  | Some f => emit (EvWrite path data)
  | None => fail (ErrNotExist path)
  end.

(** io.Copy(file, reader): what the reader delivers is appended to the
    file; a write failure leaves the bytes written before it. *)
Definition io_Copy (dst : string) (r : Reader) : M unit :=
  match writeFault E dst with
  | Some (n, e) => appendTo dst (takeS n (avail r)) ;; fail e
  | None =>
      appendTo dst (avail r) ;;
      match rerr r with
      | Some e => fail e
      | None => ret tt
      end
  end.

(** io.ReadAll *)
Definition io_ReadAll (r : Reader) : M string :=
  match rerr r with
  | Some e => fail e
  | None => ret (avail r)
  end.

Definition os_Remove (path : string) : M unit :=
  let! files := getFS in
  match query (OpRemove path) files path with
  | inl e => fail e
  | inr _ => emit (EvRemove path)
  end.

(** Directories are not part of the file map: MkdirAll succeeds unless the
    world makes it fail. *)
Definition os_MkdirAll (path : string) (mode : Z) : M unit :=
  match fault E (OpMkdirAll path) with
  | Some e => fail e
  | None => emit (EvMkdirAll path)
  end.

Definition os_Chmod (path : string) (mode : Z) : M unit :=
  let! files := getFS in
  match query (OpChmod path) files path with
  | inl e => fail e
  | inr _ => emit (EvChmod path mode)
  end.

Definition stderr_Fprintf (msg : string) : M unit :=
  match fault E OpStderr with
  | Some e => fail e
  | None => emit (EvStderr msg)
  end.

(** exec.CommandContext(ctx, path, args...).Run() with the standard
    streams inherited. *)
Definition cmd_Run (path : string) (args : list string) : M unit :=
  emit (EvExec path args) ;;
  match childRun E path args with
  | Some e => fail e
  | None => ret tt
  end.

End Primitives.

(** ** bufisk.go *)

Definition cacheDirPathEnvKey : string := "BUFISK_CACHE_DIR".
Definition useBufVersionEnvKey : string := "BUF_VERSION".
Definition bufVersionFileName : string := ".bufversion".
Definition minisignPublicKey : string :=
  "RWQ/i9xseZwBVE7pEniCNjlNOeeyp4BQgdZDLQcAohxEAH5Uj5DEKjv6".

Definition newInvalidBufVersionError (bufVersion source : string) : error :=
  ErrInvalidBufVersion source bufVersion.

(** [err != nil] *)
Definition isErr {A B} (r : A + B) : bool :=
  match r with inl _ => true | inr _ => false end.

Definition atoiFails (s : string) : bool := isErr (Strconv.Atoi s).

Definition validateBufVersion (bufVersion source : string) : error + string :=
  let split := GoStrings.Split bufVersion "." in
  if negb (length split =? 3)%nat then inl (newInvalidBufVersionError bufVersion source)
  else if existsb atoiFails split then inl (newInvalidBufVersionError bufVersion source)
  else inr bufVersion.

Definition getFileURL (bufVersion fileName : string) : string :=
  "https://github.com/bufbuild/buf/releases/download/v" +:+ bufVersion +:+ "/" +:+ fileName.

Fixpoint sha256Lines (lines : list string) (fileName sha256TxtData : string)
    : error + string :=
  match lines with
  | [] => inl (ErrNotInSha256Txt fileName sha256TxtData)
  | line :: rest =>
      if GoStrings.HasSuffix line fileName then
        let split := GoStrings.Split line "  " in
        match split with
        | [h; _] => inr h
        | _ => inl (ErrInvalidSha256Line line)
        end
      else sha256Lines rest fileName sha256TxtData
  end.

Definition getSha256HexForTxtData (sha256TxtData fileName : string) : error + string :=
  sha256Lines (GoStrings.Split sha256TxtData "
") fileName sha256TxtData.

Section Bufisk.
Context (P : Platform) (E : Env).

(** bufisk_unix.go and bufisk_windows.go *)
Definition getDefaultCacheDirPath : M string :=
  match goos P with
  | Unix =>
      let! value := os_Getenv E "XDG_CACHE_HOME" in
      if negb (String.eqb value "") then ret value
      else
        let! value := os_Getenv E "HOME" in
        if negb (String.eqb value "") then ret (filepath_Join P [value; ".cache"])
        else fail ErrCacheHomeNotSet
  | Windows =>
      let! value := os_Getenv E "LOCALAPPDATA" in
      if negb (String.eqb value "") then ret value
      else fail ErrLocalAppDataNotSet
  end.

(** The for loop of getBufVersion; [fuel] bounds its iterations. *)
Fixpoint getBufVersionLoop (fuel : nat) (curDirPath : string) : M string :=
  match fuel with
  | O => fun st => (OutOfFuel, st)
  | S fuel' =>
      let filePath := filepath_Join P [curDirPath; bufVersionFileName] in
      let! r := attempt (os_ReadFile E filePath) in
      match r with
      | inr data => liftSum (validateBufVersion (GoStrings.TrimSpace data) filePath)
      | inl _ =>
          if String.eqb curDirPath (PathSeparator P)
          then fail (ErrVersionNotSet useBufVersionEnvKey bufVersionFileName)
          else getBufVersionLoop fuel' (filepath_Dir P curDirPath)
      end
  end.

Definition getBufVersion (fuel : nat) : M string :=
  let! useBufVersionEnvValue := os_Getenv E useBufVersionEnvKey in
  if negb (String.eqb useBufVersionEnvValue "")
  then liftSum (validateBufVersion useBufVersionEnvValue useBufVersionEnvKey)
  else
    let! pwd := os_Getwd E in
    getBufVersionLoop fuel pwd.

Definition isOk {A} (r : Res A) : bool :=
  match r with Ok _ => true | _ => false end.

Definition download {A} (url : string) (processResponseBody : Reader -> M A) : M A :=
  match http E url with
  | NewRequestErr e => fail e
  | DoErr e =>
      emit (EvHTTPGet url) ;;
      traced (fun r => Some (EvHTTPDone url (isOk r))) (fail e)
  | Response status body closeErr =>
      emit (EvHTTPGet url) ;;
      traced (fun r => Some (EvHTTPDone url (isOk r)))
        (defer
           (match closeErr with Some e => fail e | None => ret tt end)
           (ifRetErrNil (fun e => e))
           (if negb (status =? 200) then fail (ErrHTTPStatus url status)
            else processResponseBody body))
  end.

Definition downloadTempFile (url : string) : M string :=
  download url (fun reader =>
    let! file := os_CreateTemp E in
    defer (file_Close E file) (ifRetErrNil (fun e => e))
      (io_Copy E file reader ;;
       ret file)).

Definition downloadData (url : string) : M string :=
  download url (fun reader => io_ReadAll reader).

Definition hashFile (filePath : string) : M string :=
  traced (fun r => match r with Ok hex => Some (EvHashFile filePath hex) | _ => None end)
    (let! file := os_Open E filePath in
     defer (file_Close E file) (fun e _ => Err e)
       (let! r := fileReader E file in
        let! data := io_ReadAll r in
        ret (sha256Hex P data))).

Definition verifySha256TxtData (sha256TxtData sha256TxtMinisigData : string) : M unit :=
  let! publicKey := liftSum (PublicKey_UnmarshalText P minisignPublicKey) in
  let! signature := liftSum (Signature_UnmarshalText P sha256TxtMinisigData) in
  if negb (Signature_KeyID P signature =? PublicKey_ID P publicKey)
  then fail (ErrKeyIDMismatch (PublicKey_ID P publicKey) (Signature_KeyID P signature))
  else
    let! rawSignature := liftSum (Signature_MarshalText P signature) in
    let ok := minisign_Verify P publicKey sha256TxtData rawSignature in
    emit (EvVerify ok) ;;
    if negb ok then fail ErrSignatureVerification
    else ret tt.

Definition copyFile (fromFilePath toFilePath : string) : M unit :=
  os_MkdirAll E (filepath_Dir P toFilePath) 448 ;;
  let! inputFile := os_Open E fromFilePath in
  defer (file_Close E inputFile) (ifRetErrNil (fun e => e))
    (let! outputFile := os_Create E toFilePath in
     defer (file_Close E outputFile) (ifRetErrNil (fun e => e))
       (let! r := fileReader E inputFile in
        io_Copy E outputFile r)).

Definition downloadBufToFilePath (bufVersion bufFilePath : string) : M unit :=
  let fileName := "buf-" +:+ unameS P +:+ "-" +:+ unameM P +:+ executableSuffix P in
  let! tempFilePath :=
    wrapErr (ErrCouldNotDownloadBuf bufVersion)
      (downloadTempFile (getFileURL bufVersion fileName)) in
  defer (os_Remove E tempFilePath) (ifRetErrNil (ErrRemoveSource tempFilePath))
    (let! sha256TxtData := downloadData (getFileURL bufVersion "sha256.txt") in
     let! sha256TxtMinisigData :=
       downloadData (getFileURL bufVersion "sha256.txt.minisig") in
     verifySha256TxtData sha256TxtData sha256TxtMinisigData ;;
     let extracted := getSha256HexForTxtData sha256TxtData fileName in
     emit (EvExtractHash fileName
             (match extracted with inr h => Some h | inl _ => None end)) ;;
     let! sha256ExpectedHex := liftSum extracted in
     let! sha256Hex := wrapErr (ErrCouldNotHash tempFilePath) (hashFile tempFilePath) in
     if negb (String.eqb sha256Hex sha256ExpectedHex)
     then fail (ErrSha256Mismatch fileName sha256Hex sha256ExpectedHex)
     else
       copyFile tempFilePath bufFilePath ;;
       os_Chmod E bufFilePath 448).

Definition run (fuel : nat) : M unit :=
  let! bufVersion := getBufVersion fuel in
  let! cacheDirPath := os_Getenv E cacheDirPathEnvKey in
  let! cacheDirPath :=
    if String.eqb cacheDirPath "" then
      let! cacheDirPath := getDefaultCacheDirPath in
      ret (filepath_Join P [cacheDirPath; "bufisk"])
    else ret cacheDirPath in
  let bufFilePath :=
    filepath_Join P
      [cacheDirPath; unameS P; unameM P; "releases"; "buf"; bufVersion; "bin"; "buf"] in
  let! statted := attempt (os_Stat E bufFilePath) in
  match statted with
  | inl _ =>
      downloadBufToFilePath bufVersion bufFilePath ;;
      stderr_Fprintf E ("bufisk: downloaded buf to " +:+ bufFilePath +:+ "

")
  | inr _ => ret tt
  end ;;
  cmd_Run E bufFilePath (osArgs E).

End Bufisk.


(** errors.As(err, &exitError): the exit code of the first *exec.ExitError
    in the chain of errors wrapped with %w. *)
Fixpoint asExitError (err : error) : option Z :=
  match err with
  | ErrExit code => Some code
  | ErrCouldNotDownloadBuf _ err' | ErrRemoveSource _ err' | ErrCouldNotHash _ err' =>
      asExitError err'
  | _ => None
  end.

(** What the system reports when the process ends with os.Exit(code): the
    low eight bits of the code on unix, the code as an unsigned 32-bit
    number on windows. *)
Definition exitStatus (P : Platform) (code : Z) : Z :=
  match goos P with
  | Unix => code mod 256
  | Windows => code mod 2 ^ 32
  end.

Section Main.
Context (P : Platform) (E : Env).

(** err.Error() *)
Context (Error : error -> string).

(** main.  Its result is the exit status of the process: 0 when main
    returns, the status of os.Exit(code) otherwise, where code is
    exitError.ExitCode() ([ErrExit] carries it: the status of a child that
    exited, -1 for a child ended by a signal) or 1.  What Fprintf returns is
    dropped. *)
Definition main (fuel : nat) : M Z :=
  let! ran := attempt (run P E fuel) in
  match ran with
  | inr _ => ret 0
  | inl err =>
      match asExitError err with
      | Some code => ret (exitStatus P code)
      | None =>
          (if negb (String.eqb (Error err) "")
           then
             attempt (stderr_Fprintf E ("bufisk: " +:+ Error err +:+ "
")) ;;
             ret tt
           else ret tt) ;;
          ret (exitStatus P 1)
      end
  end.

End Main.
(** ** A concrete unix world, for running the model *)

Module UnixPath.

Fixpoint join (l : list string) : string :=
  match l with
  | [] => ""
  | [x] => x
  | x :: rest => x +:+ "/" +:+ join rest
  end.

(** The elements of a cleaned path, innermost first: empty elements and
    dots are dropped, a dot-dot removes the element before it, is dropped
    at the root and is kept at the start of a relative path. *)
Fixpoint cleanElems (rooted : bool) (acc elems : list string) : list string :=
  match elems with
  | [] => acc
  | e :: rest =>
      if String.eqb e "" || String.eqb e "." then cleanElems rooted acc rest
      else if String.eqb e ".." then
        match acc with
        | top :: acc' =>
            if String.eqb top ".." then cleanElems rooted (e :: acc) rest
            else cleanElems rooted acc' rest
        | [] =>
            if rooted then cleanElems rooted acc rest
            else cleanElems rooted [e] rest
        end
      else cleanElems rooted (e :: acc) rest
  end.

(** filepath.Clean *)
Definition Clean (path : string) : string :=
  let rooted := GoStrings.HasPrefix path "/" in
  let body := join (rev (cleanElems rooted [] (GoStrings.Split path "/"))) in
  if rooted then "/" +:+ body
  else if String.eqb body "" then "." else body.

(** filepath.Join: the non-empty elements joined by the separator, cleaned;
    no element at all gives the empty string. *)
Definition Join (elems : list string) : string :=
  match filter (fun e => e <> "") elems with
  | [] => ""
  | l => Clean (join l)
  end.

(** filepath.Dir: all but the last element of path, cleaned. *)
Definition Dir (path : string) : string :=
  match rev (GoStrings.Split path "/") with
  | _ :: (_ :: _) as front => Clean (join (rev front) +:+ "/")
  | _ => "."
  end.

End UnixPath.

Module Demo.

(** A stand-in for sha256 and for minisign: the digest of d is d prefixed
    by a mark, a signature names its key in its first byte, and key K signs
    d as K followed by d. *)
Definition linux : Platform := {|
  goos := Unix;
  unixUnameS := "Linux";
  unameM := "x86_64";
  PathSeparator := "/";
  filepath_Join := UnixPath.Join;
  filepath_Dir := UnixPath.Dir;
  sha256Hex := fun d => "#" +:+ d;
  PublicKey := ascii;
  Signature := string;
  PublicKey_UnmarshalText := fun _ => inr "K"%char;
  PublicKey_ID := Strconv.byteZ;
  Signature_UnmarshalText := fun s =>
    match s with
    | EmptyString => inl (ErrLib "minisign: invalid signature")
    | _ => inr s
    end;
  Signature_KeyID := fun s =>
    match s with String k _ => Strconv.byteZ k | EmptyString => 0 end;
  Signature_MarshalText := fun s => inr s;
  minisign_Verify := fun k d raw => String.eqb raw (String k d)
|}.

Definition artifactURL : string :=
  "https://github.com/bufbuild/buf/releases/download/v1.28.1/buf-Linux-x86_64".
Definition sha256TxtURL : string :=
  "https://github.com/bufbuild/buf/releases/download/v1.28.1/sha256.txt".
Definition minisigURL : string :=
  "https://github.com/bufbuild/buf/releases/download/v1.28.1/sha256.txt.minisig".

Definition sha256Txt : string :=
  "#other  buf-Darwin-arm64
#ELF  buf-Linux-x86_64
".

Definition ok200 (data : string) : HTTPResult :=
  Response 200 {| avail := data; rerr := None |} None.

Definition github (artifact : Reader) (sig : string) (url : string) : HTTPResult :=
  if String.eqb url artifactURL then Response 200 artifact None
  else if String.eqb url sha256TxtURL then ok200 sha256Txt
  else if String.eqb url minisigURL then ok200 sig
  else Response 404 {| avail := ""; rerr := None |} None.

Definition noFault : op -> option error := fun _ => None.

Definition world (version : string) (artifact : Reader) (sig : string)
    (faults : op -> option error) : Env := {|
  environ := fun k =>
    if String.eqb k "BUF_VERSION" then version
    else if String.eqb k "HOME" then "/home/u" else "";
  osArgs := ["lint"];
  cwd := "/w/repo";
  tempName := "/tmp/bufisk1";
  fault := faults;
  readFault := fun _ => None;
  writeFault := fun _ => None;
  http := github artifact sig;
  childRun := fun _ _ => None
|}.

Definition whole (data : string) : Reader := {| avail := data; rerr := None |}.

Definition cachePath : string :=
  "/home/u/.cache/bufisk/Linux/x86_64/releases/buf/1.28.1/bin/buf".

Definition versionFile : gmap string File :=
  {[ "/w/.bufversion" := {| contents := " 1.28.1
"; perm := 420 |} ]}.

(** A release served whole and signed with the trusted key. *)
Definition goodSig : string := String "K" sha256Txt.

Definition release : Env := world "" (whole "ELF") goodSig noFault.

(** The same with the cached binary present but not readable by stat. *)
Definition statDenied (o : op) : option error :=
  match o with
  | OpStat _ => Some (ErrLib "permission denied")
  | _ => None
  end.

(** The artifact served is not the one the manifest describes. *)
Definition tampered : Env := world "" (whole "BAD") goodSig noFault.

(** A signature made with another key: well formed, another identifier. *)
Definition foreignSig : string := String "Z" sha256Txt.

(** The body of the artifact breaks off after two bytes. *)
Definition truncated : Env :=
  world "" {| avail := "EL"; rerr := Some (ErrLib "unexpected EOF") |} goodSig noFault.

(** The downloaded artifact in its temporary file, nothing in the cache. *)
Definition downloaded : gmap string File :=
  {[ "/tmp/bufisk1" := {| contents := "ELF"; perm := 384 |} ]}.

(** The disk is full after two bytes of the copy into the cache. *)
Definition diskFull : Env := {|
  environ := environ release;
  osArgs := osArgs release;
  cwd := cwd release;
  tempName := tempName release;
  fault := noFault;
  readFault := fun _ => None;
  writeFault := fun path =>
    if String.eqb path cachePath then Some (2%nat, ErrLib "no space left on device")
    else None;
  http := http release;
  childRun := childRun release
|}.

Definition denied : Env := world "" (whole "ELF") goodSig statDenied.

Definition cached : gmap string File :=
  <[ cachePath := {| contents := "OLD"; perm := 448 |} ]> versionFile.

(** The version file of the working directory cannot be read, the one of
    its parent is malformed, the one of the root is well formed. *)
Definition readDenied (o : op) : option error :=
  match o with
  | OpReadFile "/w/repo/.bufversion" => Some (ErrLib "permission denied")
  | _ => None
  end.

Definition guarded : Env := world "" (whole "ELF") goodSig readDenied.

Definition nested : gmap string File :=
  {[ "/w/repo/.bufversion" := {| contents := "1.27.0"; perm := 0 |};
     "/w/.bufversion" := {| contents := "v1.28
"; perm := 420 |};
     "/.bufversion" := {| contents := "1.28.1"; perm := 420 |} ]}.

(** The override variable set to the bytes of the version file. *)
Definition padded : Env := world " 1.28.1
" (whole "ELF") goodSig noFault.

End Demo.


(** ** A concrete windows world, for running the model

    filepath on windows for paths written with backslashes whose volume is
    a drive letter or a network share; device paths are left out. *)
Module WindowsPath.

Fixpoint join (l : list string) : string :=
  match l with
  | [] => ""
  | [x] => x
  | x :: rest => x +:+ "\" +:+ join rest
  end.

(** The bytes of s before its first separator. *)
Fixpoint element (s : string) : string :=
  match s with
  | EmptyString => ""
  | String c s' => if Ascii.eqb c "\" then "" else String c (element s')
  end.

(** filepath.VolumeName: the drive letter and its colon, or the two
    separators, the host, a separator and the share of a path on a network
    share (the whole path when it stops before the end of the share). *)
Definition VolumeName (path : string) : string :=
  match path with
  | String d (String ":" _) => String d ":"
  | String "\" (String "\" rest) =>
      let host := element rest in
      let share :=
        element (String.substring (S (String.length host)) (String.length rest) rest) in
      String.substring 0 (2 + String.length host + 1 + String.length share) path
  | _ => ""
  end.

Definition afterVolume (path : string) : string :=
  String.substring (String.length (VolumeName path)) (String.length path) path.

(** filepath.Clean: the volume is kept, the rest is cleaned as on unix; a
    bare drive becomes the drive and a dot, a bare share stays as it is. *)
Definition Clean (path : string) : string :=
  let rest := afterVolume path in
  if String.eqb rest "" then
    if GoStrings.HasPrefix path "\\" then path else path +:+ "."
  else
    let rooted := GoStrings.HasPrefix rest "\" in
    let body := join (rev (UnixPath.cleanElems rooted [] (GoStrings.Split rest "\"))) in
    VolumeName path +:+
      (if rooted then "\" +:+ body
       else if String.eqb body "" then "." else body).

(** filepath.Join: a first element that is a bare drive is joined without
    a separator. *)
Definition Join (elems : list string) : string :=
  match filter (fun e => e <> "") elems with
  | [] => ""
  | String d (String ":" "") :: rest => Clean (String d ":" +:+ join rest)
  | l => Clean (join l)
  end.

(** filepath.Dir: the volume, then what precedes the last separator,
    cleaned; the share itself when nothing precedes it. *)
Definition Dir (path : string) : string :=
  let vol := VolumeName path in
  let dir :=
    match rev (GoStrings.Split (afterVolume path) "\") with
    | _ :: (_ :: _) as front => Clean (join (rev front) +:+ "\")
    | _ => "."
    end in
  if String.eqb dir "." && (2 <? String.length vol)%nat then vol
  else vol +:+ dir.

End WindowsPath.

Module DemoWindows.

Definition windows : Platform := {|
  goos := Windows;
  unixUnameS := "";
  unameM := "x86_64";
  PathSeparator := "\";
  filepath_Join := WindowsPath.Join;
  filepath_Dir := WindowsPath.Dir;
  sha256Hex := sha256Hex Demo.linux;
  PublicKey := PublicKey Demo.linux;
  Signature := Signature Demo.linux;
  PublicKey_UnmarshalText := PublicKey_UnmarshalText Demo.linux;
  PublicKey_ID := PublicKey_ID Demo.linux;
  Signature_UnmarshalText := Signature_UnmarshalText Demo.linux;
  Signature_KeyID := Signature_KeyID Demo.linux;
  Signature_MarshalText := Signature_MarshalText Demo.linux;
  minisign_Verify := minisign_Verify Demo.linux
|}.

(** A user directory on drive C, no override and no version file. *)
Definition desktop : Env := {|
  environ := fun k =>
    if String.eqb k "LOCALAPPDATA" then "C:\Users\u\AppData\Local" else "";
  osArgs := ["lint"];
  cwd := "C:\Users\u";
  tempName := "C:\Users\u\AppData\Local\Temp\bufisk1";
  fault := Demo.noFault;
  readFault := fun _ => None;
  writeFault := fun _ => None;
  http := fun _ => Response 404 {| avail := ""; rerr := None |} None;
  childRun := fun _ _ => None
|}.

End DemoWindows.

Module DemoFaults.

(** Reading the temporary file breaks after one byte and closing it
    fails. *)
Definition flaky : Env := {|
  environ := environ Demo.release;
  osArgs := osArgs Demo.release;
  cwd := cwd Demo.release;
  tempName := tempName Demo.release;
  fault := fun o =>
    match o with
    | OpClose "/tmp/bufisk1" => Some (ErrLib "close failed")
    | _ => None
    end;
  readFault := fun path =>
    if String.eqb path "/tmp/bufisk1" then Some (1%nat, ErrLib "input/output error")
    else None;
  writeFault := fun _ => None;
  http := http Demo.release;
  childRun := childRun Demo.release
|}.

(** buf is in the cache and exits with status 3. *)
Definition failing : Env := {|
  environ := environ Demo.release;
  osArgs := osArgs Demo.release;
  cwd := cwd Demo.release;
  tempName := tempName Demo.release;
  fault := Demo.noFault;
  readFault := fun _ => None;
  writeFault := fun _ => None;
  http := http Demo.release;
  childRun := fun _ _ => Some (ErrExit 3)
|}.

(** A rendering of errors that tells of nothing but the constructor. *)
Definition describe (err : error) : string :=
  match err with
  | ErrLib what => what
  | ErrExit _ => "exit status"
  | _ => "error"
  end.

(** The temporary file cannot be removed. *)
Definition stuck : Env :=
  Demo.world "" (Demo.whole "ELF") Demo.goodSig
    (fun o =>
       match o with
       | OpRemove "/tmp/bufisk1" => Some (ErrLib "operation not permitted")
       | _ => None
       end).

(** A version file that holds nothing but spaces. *)
Definition blank : gmap string File :=
  {[ "/w/repo/.bufversion" := {| contents := "
  "; perm := 420 |};
     "/w/.bufversion" := {| contents := "1.28.1"; perm := 420 |} ]}.

(** Standard error is closed. *)
Definition muted : Env :=
  Demo.world "" (Demo.whole "ELF") Demo.goodSig
    (fun o =>
       match o with
       | OpStderr => Some (ErrLib "write /dev/stderr: file already closed")
       | _ => None
       end).

(** buf is in the cache and is ended by a signal: ExitCode() is -1. *)
Definition killed : Env := {|
  environ := environ Demo.release;
  osArgs := osArgs Demo.release;
  cwd := cwd Demo.release;
  tempName := tempName Demo.release;
  fault := Demo.noFault;
  readFault := fun _ => None;
  writeFault := fun _ => None;
  http := http Demo.release;
  childRun := fun _ _ => Some (ErrExit (-1))
|}.

(** The directory of the cached binary cannot be searched: the existence
    check is refused, and so is the creation of the file. *)
Definition locked : Env :=
  Demo.world "" (Demo.whole "ELF") Demo.goodSig
    (fun o =>
       match o with
       | OpStat _ | OpCreate _ => Some (ErrLib "permission denied")
       | _ => None
       end).

End DemoFaults.
(** ** Reference descriptions of the accepted version strings *)

Module VersionFormat.

Definition isDigit (c : ascii) : bool :=
  (48 <=? Strconv.byteZ c) && (Strconv.byteZ c <=? 57).

Fixpoint allDigits (s : string) : bool :=
  match s with
  | EmptyString => true
  | String c s' => isDigit c && allDigits s'
  end.

(** The number written by the decimal digits of s after the digits that
    gave n. *)
Fixpoint decimalFrom (n : Z) (s : string) : Z :=
  match s with
  | EmptyString => n
  | String c s' => decimalFrom (n * 10 + (Strconv.byteZ c - 48)) s'
  end.

Definition isSign (c : ascii) : bool :=
  bool_decide (c = "+"%char) || bool_decide (c = "-"%char).

(** What strconv.Atoi accepts: an optional sign, then one or more decimal
    digits, the signed value fitting a 64-bit int. *)
Definition isGoInt (s : string) : bool :=
  match s with
  | EmptyString => false
  | String c rest =>
      let body := if isSign c then rest else s in
      negb (String.eqb body "") && allDigits body &&
      (if bool_decide (c = "-"%char)
       then decimalFrom 0 body <=? 2 ^ 63
       else decimalFrom 0 body <? 2 ^ 63)
  end.

Fixpoint noDot (s : string) : bool :=
  match s with
  | EmptyString => true
  | String c s' => negb (bool_decide (c = "."%char)) && noDot s'
  end.

Fixpoint joinDots (l : list string) : string :=
  match l with
  | [] => ""
  | [x] => x
  | x :: rest => x +:+ "." +:+ joinDots rest
  end.

(** The version strings the code accepts. *)
Definition accepted (v : string) : Prop :=
  exists a b c,
    v = joinDots [a; b; c] /\
    noDot a = true /\ noDot b = true /\ noDot c = true /\
    isGoInt a = true /\ isGoInt b = true /\ isGoInt c = true.

(** VersionSpec in the words of the specification: exactly three
    dot-separated non-empty components, each a non-negative integer in
    decimal digits, no leading v. *)
Definition component (s : string) : bool :=
  negb (String.eqb s "") && allDigits s.

Definition VersionSpec (v : string) : Prop :=
  exists a b c,
    v = joinDots [a; b; c] /\
    component a = true /\ component b = true /\ component c = true.

End VersionFormat.

(** ** A program logic over the log

    [hoare m Q]: from every state, m appends some events to the log, the
    file system afterwards is the one before with these events replayed, and
    Q relates the file system before, the result and the events. *)

Definition Post (A : Type) : Type := gmap string File -> Res A -> list event -> Prop.

Definition hoare {A} (m : M A) (Q : Post A) : Prop :=
  forall st,
    exists evs,
      log (m st).2 = log st ++ evs /\
      fs (m st).2 = replay evs (fs st) /\
      Q (fs st) (m st).1 evs.

(** Posts of the combinators, from the posts of their parts. *)
Definition seqQ {A B} (Q1 : Post A) (Q2 : A -> Post B) : Post B :=
  fun f r evs =>
    (exists a e1 e2, evs = e1 ++ e2 /\ Q1 f (Ok a) e1 /\ Q2 a (replay e1 f) r e2) \/
    (exists e, r = Err e /\ Q1 f (Err e) evs) \/
    (r = OutOfFuel /\ Q1 f OutOfFuel evs).

Definition attemptQ {A} (Q : Post A) : Post (error + A) :=
  fun f r evs =>
    (exists a, r = Ok (inr a) /\ Q f (Ok a) evs) \/
    (exists e, r = Ok (inl e) /\ Q f (Err e) evs) \/
    (r = OutOfFuel /\ Q f OutOfFuel evs).

Definition wrapQ {A} (wrap : error -> error) (Q : Post A) : Post A :=
  fun f r evs =>
    (exists a, r = Ok a /\ Q f (Ok a) evs) \/
    (exists e, r = Err (wrap e) /\ Q f (Err e) evs) \/
    (r = OutOfFuel /\ Q f OutOfFuel evs).

Definition deferQ {A} (Qc : Post unit) (onErr : error -> Res A -> Res A)
    (Qb : Post A) : Post A :=
  fun f r evs =>
    (r = OutOfFuel /\ Qb f OutOfFuel evs) \/
    (exists r0 rc e1 e2,
        evs = e1 ++ e2 /\ r0 <> OutOfFuel /\
        Qb f r0 e1 /\ Qc (replay e1 f) rc e2 /\
        r = match rc with Err e => onErr e r0 | _ => r0 end).

Definition tracedQ {A} (ev : Res A -> option event) (Q : Post A) : Post A :=
  fun f r evs =>
    exists e0, Q f r e0 /\ evs = e0 ++ match ev r with Some e => [e] | None => [] end.

Definition ifQ {A} (b : bool) (Q1 Q2 : Post A) : Post A :=
  fun f r evs => if b then Q1 f r evs else Q2 f r evs.

Definition sumQ {A B C} (x : A + B) (Q1 : A -> Post C) (Q2 : B -> Post C) : Post C :=
  fun f r evs => match x with inl a => Q1 a f r evs | inr b => Q2 b f r evs end.

(** The post of a step that cannot fail. *)
Definition returns {A} (a : A) (evs0 : list event) : Post A :=
  fun _ r evs => r = Ok a /\ evs = evs0.

Definition fails {A} (e : error) (evs0 : list event) : Post A :=
  fun _ r evs => r = Err e /\ evs = evs0.

(** The post of a system call that either succeeds with one effect or
    fails without any. *)
Definition attempted {A} (a : A) (evs0 : list event) : Post A :=
  fun _ r evs => (r = Ok a /\ evs = evs0) \/ (exists e, r = Err e /\ evs = []).

Definition isPrefixOf (d s : string) : Prop := exists rest, s = d +:+ rest.

(** ** Classes of events *)

(** The events of version resolution and cache location. *)
Definition isResolve (ev : event) : bool :=
  match ev with
  | EvGetenv _ | EvGetwd | EvReadFile _ _ => true
  | _ => false
  end.

(** The events that mark the steps of the pipeline: a request sent and the
    return of its download, the signature check, the installation into the
    cache and the launch. *)
Definition isStage (ev : event) : bool :=
  match ev with
  | EvHTTPGet _ | EvHTTPDone _ _ | EvVerify _
  | EvMkdirAll _ | EvCreate _ | EvChmod _ _ | EvExec _ _ => true
  | _ => false
  end.

(** ** What each function of the program does to the log *)

Section Posts.
Context (P : Platform) (E : Env).

(** download: nothing is sent when the request cannot be built; otherwise
    the request, what the callback does, and the return. *)
Definition downloadQ {A} (url : string) (Qk : Reader -> Post A) : Post A :=
  fun f r evs =>
    match http E url with
    | NewRequestErr e => r = Err e /\ evs = []
    | DoErr e => r = Err e /\ evs = [EvHTTPGet url; EvHTTPDone url false]
    | Response status body closeErr =>
        exists r0 mid,
          evs = EvHTTPGet url :: mid ++ [EvHTTPDone url (isOk r)] /\
          (if status =? 200 then Qk body f r0 mid
           else r0 = Err (ErrHTTPStatus url status) /\ mid = []) /\
          r = match closeErr with
              | Some e => ifRetErrNil (fun e => e) e r0
              | None => r0
              end
    end.

(** os.Remove fails only when the world makes it fail or the file is not
    there. *)
Definition removeQ (path : string) : Post unit :=
  fun f r evs =>
    (r = Ok tt /\ evs = [EvRemove path]) \/
    (exists e, r = Err e /\ evs = [] /\ query E (OpRemove path) f path = inl e).

Definition downloadDataQ (url : string) : Post string :=
  fun f r evs =>
    (exists data,
        r = Ok data /\ evs = [EvHTTPGet url; EvHTTPDone url true] /\
        http E url = Response 200 {| avail := data; rerr := None |} None) \/
    (exists e,
        r = Err e /\
        ((evs = [] /\ http E url = NewRequestErr e) \/
         evs = [EvHTTPGet url; EvHTTPDone url false])).

Definition downloadTempFileQ (url : string) : Post string :=
  fun f r evs =>
    let t := tempName E in
    (exists data,
        r = Ok t /\ f !! t = None /\
        evs = [EvHTTPGet url; EvCreateTemp t; EvWrite t data; EvClose t;
               EvHTTPDone url true] /\
        http E url = Response 200 {| avail := data; rerr := None |} None) \/
    (exists e,
        r = Err e /\
        ((evs = [] /\ http E url = NewRequestErr e) \/
         evs = [EvHTTPGet url; EvHTTPDone url false] \/
         (f !! t = None /\
          exists d, evs = [EvHTTPGet url; EvCreateTemp t; EvWrite t d; EvClose t;
                           EvHTTPDone url false]))).

Definition hashFileQ (filePath : string) : Post string :=
  fun f r evs =>
    (exists x,
        f !! filePath = Some x /\ r = Ok (sha256Hex P (contents x)) /\
        evs = [EvOpen filePath; EvClose filePath;
               EvHashFile filePath (sha256Hex P (contents x))]) \/
    (exists e, r = Err e /\ (evs = [] \/ evs = [EvOpen filePath; EvClose filePath])).

Definition verifyQ : Post unit :=
  fun f r evs =>
    (r = Ok tt /\ evs = [EvVerify true]) \/
    (exists e, r = Err e /\ (evs = [] \/ evs = [EvVerify false])).

Definition copyFileQ (fromFilePath toFilePath : string) : Post unit :=
  fun f r evs =>
    let d := filepath_Dir P toFilePath in
    let full data :=
      [EvMkdirAll d; EvOpen fromFilePath; EvCreate toFilePath;
       EvWrite toFilePath data; EvClose toFilePath; EvClose fromFilePath] in
    (exists x,
        f !! fromFilePath = Some x /\ r = Ok tt /\
        exists data, evs = full data /\
          (fromFilePath <> toFilePath -> data = contents x)) \/
    (exists e,
        r = Err e /\
        (evs = [] \/ evs = [EvMkdirAll d] \/
         evs = [EvMkdirAll d; EvOpen fromFilePath; EvClose fromFilePath] \/
         exists x data,
           f !! fromFilePath = Some x /\ evs = full data /\
           (fromFilePath <> toFilePath -> isPrefixOf data (contents x)))).

(** Version resolution and cache location only read. *)
Definition resolveOnly {A} : Post A :=
  fun _ _ evs => Forall (fun ev => isResolve ev = true) evs.

Definition fileNameOf : string :=
  "buf-" +:+ unameS P +:+ "-" +:+ unameM P +:+ executableSuffix P.

(** downloadBufToFilePath, step by step: the post of each step in the
    order of the source, the removal of the temporary file deferred around
    all steps after the download of the artifact. *)
Definition pipelineQ (bufVersion bufFilePath : string) : Post unit :=
  let fileName := fileNameOf in
  seqQ
    (wrapQ (ErrCouldNotDownloadBuf bufVersion)
       (downloadTempFileQ (getFileURL bufVersion fileName)))
    (fun tempFilePath =>
       deferQ (removeQ tempFilePath)
         (ifRetErrNil (ErrRemoveSource tempFilePath))
         (seqQ (downloadDataQ (getFileURL bufVersion "sha256.txt"))
            (fun sha256TxtData =>
               seqQ (downloadDataQ (getFileURL bufVersion "sha256.txt.minisig"))
                 (fun _ =>
                    seqQ verifyQ
                      (fun _ =>
                         let extracted := getSha256HexForTxtData sha256TxtData fileName in
                         seqQ
                           (returns tt
                              [EvExtractHash fileName
                                 (match extracted with
                                  | inr h => Some h
                                  | inl _ => None
                                  end)])
                           (fun _ =>
                              seqQ
                                (fun _ r evs =>
                                   evs = [] /\
                                   r = match extracted with
                                       | inl e => Err e
                                       | inr a => Ok a
                                       end)
                                (fun sha256ExpectedHex =>
                                   seqQ
                                     (wrapQ (ErrCouldNotHash tempFilePath)
                                        (hashFileQ tempFilePath))
                                     (fun sha256Hex =>
                                        ifQ (negb (String.eqb sha256Hex sha256ExpectedHex))
                                          (fails
                                             (ErrSha256Mismatch fileName sha256Hex
                                                sha256ExpectedHex) [])
                                          (seqQ (copyFileQ tempFilePath bufFilePath)
                                             (fun _ f r evs =>
                                                (r = Ok tt /\
                                                 evs = [EvChmod bufFilePath 448] /\
                                                 is_Some (f !! bufFilePath)) \/
                                                (exists e, r = Err e /\ evs = []))))))))))).

Definition childResult (bufFilePath : string) : Res unit :=
  match childRun E bufFilePath (osArgs E) with
  | Some e => Err e
  | None => Ok tt
  end.

(** run: version resolution and cache location, the existence check, and
    then either the launch alone or the pipeline, the notice on standard
    error and the launch. *)
Definition runQ : Post unit :=
  fun f r evs =>
    (exists pre,
        evs = pre /\ Forall (fun ev => isResolve ev = true) pre /\
        (r = OutOfFuel \/ exists e, r = Err e)) \/
    (exists pre (p : string),
        evs = pre ++ [EvStat p None; EvExec p (osArgs E)] /\
        Forall (fun ev => isResolve ev = true) pre /\
        r = childResult p) \/
    (exists pre (v p : string) e rdl devs tail,
        evs = pre ++ EvStat p (Some e) :: devs ++ tail /\
        Forall (fun ev => isResolve ev = true) pre /\
        pipelineQ v p f rdl devs /\
        ((rdl = Ok tt /\
          ((tail = [EvStderr ("bufisk: downloaded buf to " +:+ p +:+ "

"); EvExec p (osArgs E)] /\ r = childResult p) \/
           (tail = [] /\ exists e', r = Err e'))) \/
         (tail = [] /\ rdl = r /\ r <> Ok tt))).

End Posts.

(** ** The order of the pipeline *)

Definition stages (l : list event) : list event := List.filter isStage l.

Section PipelineOrder.
Context (P : Platform) (E : Env).

(** The steps of a cache miss in the order the code takes them: the
    artifact is downloaded, then the manifest and its signature, then the
    signature is verified, then the artifact is installed in the cache,
    then buf is launched. *)
Definition pipeline (bufVersion bufFilePath : string) : list event :=
  let a := getFileURL bufVersion (fileNameOf P) in
  let m := getFileURL bufVersion "sha256.txt" in
  let s := getFileURL bufVersion "sha256.txt.minisig" in
  [ EvHTTPGet a; EvHTTPDone a true;
    EvHTTPGet m; EvHTTPDone m true;
    EvHTTPGet s; EvHTTPDone s true;
    EvVerify true;
    EvMkdirAll (filepath_Dir P bufFilePath); EvCreate bufFilePath;
    EvChmod bufFilePath 448;
    EvExec bufFilePath (osArgs E) ].

End PipelineOrder.

(** The failing twin of a step that reports its success. *)
Definition failure_of (ev : event) : option event :=
  match ev with
  | EvHTTPDone u true => Some (EvHTTPDone u false)
  | EvVerify true => Some (EvVerify false)
  | _ => None
  end.

(** The runs that follow a pipeline: its first n steps, all successful,
    possibly followed by the failure of step n + 1. *)
Definition outcomesAt (canon : list event) (n : nat) : list (list event) :=
  take n canon ::
  match canon !! n with
  | Some ev =>
      match failure_of ev with
      | Some ev' => [take n canon ++ [ev']]
      | None => []
      end
  | None => []
  end.

Definition outcomes (canon : list event) : list (list event) :=
  flat_map (outcomesAt canon) (seq 0 (S (length canon))).

Definition followsPipeline (canon l : list event) : Prop := In l (outcomes canon).

(** Position of the first occurrence of an event satisfying a test. *)
Fixpoint firstIndex (test : event -> bool) (l : list event) : option nat :=
  match l with
  | [] => None
  | ev :: rest => if test ev then Some 0%nat else S <$> firstIndex test rest
  end.

Definition isGetOf (url : string) (ev : event) : bool :=
  match ev with EvHTTPGet u => String.eqb u url | _ => false end.

Definition isVerify (ev : event) : bool :=
  match ev with EvVerify _ => true | _ => false end.

Definition isHTTPGet (ev : event) : bool :=
  match ev with EvHTTPGet _ => true | _ => false end.

Definition isStatMiss (ev : event) : bool :=
  match ev with EvStat _ (Some _) => true | _ => false end.

Definition isStatHit (ev : event) : bool :=
  match ev with EvStat _ None => true | _ => false end.

(** Events that write to the final cache path. *)
Definition isInstall (ev : event) : bool :=
  match ev with
  | EvMkdirAll _ | EvCreate _ | EvChmod _ _ => true
  | _ => false
  end.

(** The events of downloadBufToFilePath: everything but version resolution,
    the existence check, the notice on standard error and the launch. *)
Definition isPipelineEvent (ev : event) : bool :=
  match ev with
  | EvGetenv _ | EvGetwd | EvReadFile _ _ | EvStat _ _ | EvStderr _ | EvExec _ _ => false
  | _ => true
  end.

(** Whether the first event passing test a comes before the first one
    passing test b. *)
Definition precedes (a b : event -> bool) (l : list event) : bool :=
  match firstIndex a l, firstIndex b l with
  | Some i, Some j => (i <? j)%nat
  | _, _ => false
  end.

Definition isExtract (ev : event) : bool :=
  match ev with EvExtractHash _ _ => true | _ => false end.

Definition isVerifyOk (ev : event) : bool :=
  match ev with EvVerify true => true | _ => false end.

Definition isRemove (ev : event) : bool :=
  match ev with EvRemove _ => true | _ => false end.

Definition isCreateTempOf (path : string) (ev : event) : bool :=
  match ev with EvCreateTemp p => String.eqb p path | _ => false end.

(** The path whose file an event changes. *)
Definition written (ev : event) : option string :=
  match ev with
  | EvCreateTemp p | EvCreate p | EvWrite p _ | EvRemove p | EvChmod p _ => Some p
  | _ => None
  end.


(** ** Version resolution *)

(** The directory j levels above dir, and the version file looked for
    there. *)
Definition ancestor (P : Platform) (dir : string) (j : nat) : string :=
  Nat.iter j (filepath_Dir P) dir.

Definition versionFileAt (P : Platform) (dir : string) (j : nat) : string :=
  filepath_Join P [ancestor P dir j; bufVersionFileName].

(** The paths read, in order. *)
Definition readsOf (evs : list event) : list string :=
  omap (fun ev => match ev with EvReadFile p _ => Some p | _ => None end) evs.

(** The version file k levels above the working directory is the first one
    that can be read: every read below it fails, with whatever error, in a
    directory that is not the root. *)
Definition firstReadAt (P : Platform) (E : Env) (files : gmap string File)
    (k : nat) (x : File) : Prop :=
  (forall j, (j < k)%nat ->
     isErr (query E (OpReadFile (versionFileAt P (cwd E) j)) files
              (versionFileAt P (cwd E) j)) = true /\
     ancestor P (cwd E) j <> PathSeparator P) /\
  query E (OpReadFile (versionFileAt P (cwd E) k)) files
    (versionFileAt P (cwd E) k) = inr x.

(** The encodings of the runes of Unicode's White_Space property, and the
    strings made of them. *)
Definition spaceRunes : list string :=
  map (fun l => string_of_list_ascii (map ascii_of_nat l))
    ([[9]; [10]; [11]; [12]; [13]; [32]; [194; 133]; [194; 160]; [225; 154; 128];
      [226; 128; 128]; [226; 128; 129]; [226; 128; 130]; [226; 128; 131];
      [226; 128; 132]; [226; 128; 133]; [226; 128; 134]; [226; 128; 135];
      [226; 128; 136]; [226; 128; 137]; [226; 128; 138];
      [226; 128; 168]; [226; 128; 169]; [226; 128; 175];
      [226; 129; 159]; [227; 128; 128]]%nat).

Inductive whitespace : string -> Prop :=
| whitespace_nil : whitespace ""
| whitespace_cons (r s : string) :
    In r spaceRunes -> whitespace s -> whitespace (r +:+ s).

(** ** Verification *)

(** What verifySha256TxtData checks of a manifest and its signature: the
    embedded public key and the signature parse, the signature names the
    key, and minisign accepts the signature over the manifest. *)
Definition verifies (P : Platform) (sha256TxtData sha256TxtMinisigData : string) : Prop :=
  exists publicKey signature rawSignature,
    PublicKey_UnmarshalText P minisignPublicKey = inr publicKey /\
    Signature_UnmarshalText P sha256TxtMinisigData = inr signature /\
    Signature_KeyID P signature = PublicKey_ID P publicKey /\
    Signature_MarshalText P signature = inr rawSignature /\
    minisign_Verify P publicKey sha256TxtData rawSignature = true.

(** ** Version strings, byte by byte *)

Fixpoint allBytes (p : ascii -> bool) (s : string) : bool :=
  match s with
  | EmptyString => true
  | String c s' => p c && allBytes p s'
  end.

Definition versionByte (c : ascii) : bool :=
  VersionFormat.isDigit c || VersionFormat.isSign c || bool_decide (c = "."%char).

(** ** Manifests

    A manifest as sha256sum writes it: for each file a line made of the
    digest, two spaces and the name. *)
Definition manifestLine (entry : string * string) : string :=
  entry.1 +:+ "  " +:+ entry.2.

Fixpoint renderManifest (entries : list (string * string)) : string :=
  match entries with
  | [] => ""
  | entry :: rest => manifestLine entry +:+ "
" +:+ renderManifest rest
  end.

(** Neither a space nor a line feed. *)
Definition plainByte (c : ascii) : bool :=
  negb (bool_decide (c = " "%char)) && negb (bool_decide (c = "010"%char)).

Definition plainEntry (entry : string * string) : Prop :=
  allBytes plainByte entry.1 = true /\ allBytes plainByte entry.2 = true.

Definition endsWith (s suffix : string) : Prop := exists front, s = front +:+ suffix.

(** ** Location of the cache *)

(** The cache directory, from the environment alone. *)
Definition cacheDirPathOf (P : Platform) (E : Env) : error + string :=
  if negb (String.eqb (environ E cacheDirPathEnvKey) "")
  then inr (environ E cacheDirPathEnvKey)
  else
    match goos P with
    | Unix =>
        if negb (String.eqb (environ E "XDG_CACHE_HOME") "")
        then inr (filepath_Join P [environ E "XDG_CACHE_HOME"; "bufisk"])
        else if negb (String.eqb (environ E "HOME") "")
        then inr (filepath_Join P [filepath_Join P [environ E "HOME"; ".cache"]; "bufisk"])
        else inl ErrCacheHomeNotSet
    | Windows =>
        if negb (String.eqb (environ E "LOCALAPPDATA") "")
        then inr (filepath_Join P [environ E "LOCALAPPDATA"; "bufisk"])
        else inl ErrLocalAppDataNotSet
    end.

Definition bufFilePathOf (P : Platform) (cacheDirPath bufVersion : string) : string :=
  filepath_Join P
    [cacheDirPath; unameS P; unameM P; "releases"; "buf"; bufVersion; "bin"; "buf"].
(** * Properties *)

Section StringFacts.

Lemma append_cons (c : ascii) (a b : string) :
  String c a +:+ b = String c (a +:+ b).
Proof. reflexivity. Qed.

Lemma append_nil_l (b : string) : "" +:+ b = b.
Proof. reflexivity. Qed.

Lemma append_nil_r (s : string) : s +:+ "" = s.
Proof. induction s; rewrite ?append_cons; [reflexivity|congruence]. Qed.

Lemma append_assoc (a b c : string) : (a +:+ b) +:+ c = a +:+ (b +:+ c).
Proof. induction a; rewrite ?append_cons, ?append_nil_l; congruence. Qed.

Lemma length_append (a b : string) :
  String.length (a +:+ b) = (String.length a + String.length b)%nat.
Proof. induction a; rewrite ?append_cons, ?append_nil_l; simpl; congruence. Qed.

Lemma eqb_false_iff (a b : string) : String.eqb a b = false <-> a <> b.
Proof.
  destruct (String.eqb_spec a b); split; intros; congruence.
Qed.

Lemma byteZ_range (c : ascii) : 0 <= Strconv.byteZ c < 256.
Proof.
  unfold Strconv.byteZ. pose proof (nat_ascii_bounded c). lia.
Qed.

End StringFacts.

Module AtoiFacts.
Import Strconv VersionFormat.

Lemma fast_digit (c : ascii) :
  (9 <? (byteZ c - 48) mod 256) = negb (isDigit c).
Proof.
  unfold isDigit. pose proof (byteZ_range c) as Hc.
  destruct (Z_lt_le_dec (byteZ c) 48) as [Hlt|Hge].
  - replace ((byteZ c - 48) mod 256) with (byteZ c + 208)
      by (apply Z.mod_unique with (q := -1); lia).
    destruct (48 <=? byteZ c) eqn:E1; [lia|]. simpl. lia.
  - rewrite Z.mod_small by lia.
    destruct (48 <=? byteZ c) eqn:E1; [|lia].
    destruct (byteZ c <=? 57) eqn:E2; simpl; lia.
Qed.

Lemma atoiFast_spec (s : string) (n : Z) :
  atoiFast s n = if allDigits s then inr (decimalFrom n s) else inl ErrSyntax.
Proof.
  revert n. induction s as [|c s IH]; intros n; simpl; [reflexivity|].
  rewrite fast_digit.
  destruct (isDigit c) eqn:Hd; simpl; [|reflexivity].
  rewrite IH.
  replace ((byteZ c - 48) mod 256) with (byteZ c - 48); [reflexivity|].
  unfold isDigit in Hd. rewrite Z.mod_small; lia.
Qed.

Lemma decimalFrom_mono (s : string) (n m : Z) :
  n <= m -> decimalFrom n s <= decimalFrom m s.
Proof.
  revert n m. induction s as [|c s IH]; intros n m H; simpl; [lia|].
  apply IH. lia.
Qed.

Lemma decimalFrom_ge (s : string) (n : Z) :
  allDigits s = true -> 0 <= n -> n <= decimalFrom n s.
Proof.
  revert n. induction s as [|c s IH]; intros n Hd Hn; simpl in *; [lia|].
  apply andb_true_iff in Hd as [Hc Hs]. unfold isDigit in Hc.
  etransitivity; [|apply IH; [assumption|lia]]. lia.
Qed.

Lemma decimalFrom_lt (s : string) (n : Z) :
  allDigits s = true -> 0 <= n ->
  decimalFrom n s < (n + 1) * 10 ^ Z.of_nat (String.length s).
Proof.
  revert n. induction s as [|c s IH]; intros n Hd Hn.
  - simpl. lia.
  - cbn [decimalFrom String.length]. simpl in Hd.
    apply andb_true_iff in Hd as [Hc Hs]. unfold isDigit in Hc.
    rewrite Nat2Z.inj_succ, Z.pow_succ_r by lia.
    eapply Z.lt_le_trans; [apply IH; [assumption|lia]|].
    assert (0 < 10 ^ Z.of_nat (String.length s)) by (apply Z.pow_pos_nonneg; lia).
    nia.
Qed.

(** The overflow checks of ParseUint are exact: the loop returns the
    value when it fits 64 bits and a range error when it does not. *)
Lemma parseUintLoop_spec (s : string) (n : Z) :
  0 <= n < 2 ^ 64 ->
  (allDigits s = true ->
   parseUintLoop s n =
     if decimalFrom n s <? 2 ^ 64 then inr (decimalFrom n s) else inl ErrRange) /\
  (allDigits s = false -> exists e, parseUintLoop s n = inl e).
Proof.
  revert n. induction s as [|c s IH]; intros n Hn.
  - simpl. split; [intros _|discriminate].
    destruct (n <? 2 ^ 64) eqn:E; [reflexivity|lia].
  - cbn [parseUintLoop allDigits decimalFrom].
    fold (isDigit c). destruct (isDigit c) eqn:Hc; simpl andb; cbv zeta.
    2:{ split; [discriminate|intros _; eauto]. }
    assert (Hd : 0 <= byteZ c - 48 <= 9) by (unfold isDigit in Hc; lia).
    change (maxUint64 / 10 + 1) with 1844674407370955162.
    change maxUint64 with 18446744073709551615.
    change (2 ^ 64) with 18446744073709551616 in *.
    destruct (1844674407370955162 <=? n) eqn:Hcut.
    { split; intros Hs; [|eauto].
      pose proof (decimalFrom_ge s (n * 10 + (byteZ c - 48)) Hs ltac:(lia)).
      destruct (decimalFrom _ s <? _) eqn:E; [lia|reflexivity]. }
    destruct (Z_lt_le_dec (n * 10 + (byteZ c - 48)) 18446744073709551616) as [Hfit|Hover].
    + rewrite Z.mod_small by lia.
      destruct (n * 10 + (byteZ c - 48) <? n * 10) eqn:E1; [lia|].
      destruct (18446744073709551615 <? n * 10 + (byteZ c - 48)) eqn:E2; [lia|].
      simpl orb. apply IH. lia.
    + replace ((n * 10 + (byteZ c - 48)) mod 18446744073709551616)
        with (n * 10 + (byteZ c - 48) - 18446744073709551616)
        by (apply Z.mod_unique with (q := 1); lia).
      destruct (_ <? n * 10) eqn:E1; [|lia]. simpl orb.
      split; intros Hs; [|eauto].
      pose proof (decimalFrom_ge s (n * 10 + (byteZ c - 48)) Hs ltac:(lia)).
      destruct (decimalFrom _ s <? _) eqn:E; [lia|reflexivity].
Qed.

Lemma ParseUint_spec (body : string) :
  (body = "" -> ParseUint body = inl ErrSyntax) /\
  (body <> "" -> allDigits body = true ->
   ParseUint body =
     if decimalFrom 0 body <? 2 ^ 64 then inr (decimalFrom 0 body) else inl ErrRange) /\
  (body <> "" -> allDigits body = false -> exists e, ParseUint body = inl e).
Proof.
  assert (Hn0 : 0 <= 0 < 2 ^ 64) by lia.
  destruct (parseUintLoop_spec body 0 Hn0) as [Hdig Hnot].
  split; [intros ->; reflexivity|].
  split; intros Hne Hd; (destruct body; [congruence|]); unfold ParseUint; auto.
Qed.

Lemma ParseInt_spec (s : string) : isErr (ParseInt s) = negb (isGoInt s).
Proof.
  destruct s as [|c rest]; [reflexivity|].
  unfold ParseInt, isGoInt, isSign.
  change (2 ^ (intSize - 1)) with 9223372036854775808.
  change (2 ^ 63) with 9223372036854775808.
  change maxUint64 with 18446744073709551615.
  set (neg := bool_decide (c = "-"%char)).
  set (pos := bool_decide (c = "+"%char)).
  set (body := if pos || neg then rest else String c rest).
  destruct (ParseUint_spec body) as (Hemp & Hdig & Hnot).
  change (2 ^ 64) with 18446744073709551616 in Hdig.
  destruct (String.eqb_spec body "") as [Hb|Hb]; simpl negb; simpl andb.
  { rewrite (Hemp Hb). reflexivity. }
  destruct (allDigits body) eqn:Hd; simpl andb.
  - rewrite (Hdig Hb eq_refl).
    destruct (decimalFrom 0 body <? 18446744073709551616) eqn:Hv.
    + destruct neg; simpl negb; simpl andb.
      * destruct (9223372036854775808 <? decimalFrom 0 body) eqn:E1;
        destruct (decimalFrom 0 body <=? 9223372036854775808) eqn:E2;
          simpl; try reflexivity; lia.
      * destruct (9223372036854775808 <=? decimalFrom 0 body) eqn:E1;
        destruct (decimalFrom 0 body <? 9223372036854775808) eqn:E2;
          simpl; try reflexivity; lia.
    + destruct neg; simpl.
      * destruct (decimalFrom 0 body <=? 9223372036854775808) eqn:E2;
          simpl; try reflexivity; lia.
      * destruct (decimalFrom 0 body <? 9223372036854775808) eqn:E2;
          simpl; try reflexivity; lia.
  - destruct (Hnot Hb eq_refl) as [e ->].
    destruct e; [reflexivity|]. destruct neg; reflexivity.
Qed.

(** strconv.Atoi succeeds exactly on the signed decimal numerals that fit
    a 64-bit int: the fast path and the slow path agree with [isGoInt]. *)
Lemma Atoi_spec (s : string) : isErr (Atoi s) = negb (isGoInt s).
Proof.
  unfold Atoi.
  destruct ((0 <? Z.of_nat (String.length s)) && (Z.of_nat (String.length s) <? 19))
    eqn:Hfast; [|apply ParseInt_spec].
  apply andb_true_iff in Hfast as [Hpos Hlen].
  destruct s as [|c rest]; [reflexivity|].
  unfold isGoInt, isSign.
  change (2 ^ 63) with 9223372036854775808.
  set (neg := bool_decide (c = "-"%char)).
  set (pos := bool_decide (c = "+"%char)).
  rewrite (orb_comm neg pos).
  set (body := if pos || neg then rest else String c rest).
  assert (Hbl : (String.length body <= 18)%nat).
  { subst body. apply Z.ltb_lt in Hlen.
    change (String.length (String c rest)) with (S (String.length rest)) in Hlen.
    destruct (pos || neg); cbn [String.length]; lia. }
  assert (Hbe : pos || neg = false -> String.eqb body "" = false).
  { intros E. subst body. rewrite E. reflexivity. }
  rewrite atoiFast_spec.
  destruct (String.eqb_spec body "") as [Hb|Hb]; simpl negb; simpl andb.
  { destruct (pos || neg); [|specialize (Hbe eq_refl); congruence].
    rewrite Hb. reflexivity. }
  assert (Hl1 : (String.length body <? 1)%nat = false).
  { destruct body; [congruence|reflexivity]. }
  rewrite Hl1, andb_false_r.
  destruct (allDigits body) eqn:Hd; [|reflexivity]. simpl andb.
  pose proof (decimalFrom_lt body 0 Hd ltac:(lia)) as Hlt.
  pose proof (decimalFrom_ge body 0 Hd ltac:(lia)) as Hge.
  assert (10 ^ Z.of_nat (String.length body) <= 10 ^ 18)
    by (apply Z.pow_le_mono_r; lia).
  change (10 ^ 18) with 1000000000000000000 in *.
  destruct neg; simpl.
  - destruct (decimalFrom 0 body <=? 9223372036854775808) eqn:E; [reflexivity|lia].
  - destruct (decimalFrom 0 body <? 9223372036854775808) eqn:E; [reflexivity|lia].
Qed.

End AtoiFacts.

Module SplitFacts.
Import GoStrings VersionFormat.

Lemma genSplit_dot (c : ascii) (s : string) :
  genSplit "." 0 (String c s) =
    if bool_decide (c = "."%char) then "" :: genSplit "." 0 s
    else cons_head c (genSplit "." 0 s).
Proof.
  cbn [genSplit String.prefix String.length Nat.pred].
  destruct (ascii_dec "." c) as [<-|Hne].
  - rewrite bool_decide_eq_true_2 by reflexivity. destruct s; reflexivity.
  - rewrite bool_decide_eq_false_2 by congruence. reflexivity.
Qed.

Lemma genSplit_not_nil (sep : string) (k : nat) (s : string) : genSplit sep k s <> [].
Proof.
  revert k. induction s as [|c s IH]; intros k; cbn [genSplit]; [congruence|].
  destruct k; [|apply IH].
  destruct (String.prefix sep (String c s)); [congruence|].
  specialize (IH 0%nat). destruct (genSplit sep 0 s); [congruence|].
  cbn [cons_head]. congruence.
Qed.

(** Joining the pieces with the separator gives the string back, and no
    piece contains the separator. *)
Lemma join_split (s : string) :
  joinDots (genSplit "." 0 s) = s /\
  Forall (fun x => noDot x = true) (genSplit "." 0 s).
Proof.
  induction s as [|c s [IHj IHn]].
  - simpl. split; [reflexivity|]. repeat constructor.
  - rewrite genSplit_dot.
    pose proof (genSplit_not_nil "." 0 s) as Hnn.
    destruct (genSplit "." 0 s) as [|h t] eqn:Es; [congruence|].
    case_bool_decide as Hc.
    + subst c. split.
      * change (joinDots ("" :: h :: t)) with ("" +:+ "." +:+ joinDots (h :: t)).
        rewrite IHj. reflexivity.
      * constructor; [reflexivity|assumption].
    + cbn [cons_head]. split.
      * rewrite <- IHj. destruct t; reflexivity.
      * inversion IHn; subst. constructor; [|assumption].
        cbn [noDot]. rewrite bool_decide_eq_false_2 by assumption. assumption.
Qed.

Lemma split_join (l : list string) :
  l <> [] -> Forall (fun x => noDot x = true) l ->
  genSplit "." 0 (joinDots l) = l.
Proof.
  induction l as [|x rest IH]; [congruence|]. intros _ Hall.
  inversion Hall as [|? ? Hx Hrest]; subst.
  assert (Htail : forall y, noDot y = true ->
            genSplit "." 0 (y +:+ "." +:+ joinDots rest) = y :: genSplit "." 0 (joinDots rest)).
  { induction y as [|c y IHy]; intros Hy.
    - rewrite append_nil_l.
      change ("." +:+ joinDots rest) with (String "." (joinDots rest)).
      rewrite genSplit_dot. reflexivity.
    - cbn [noDot] in Hy. apply andb_true_iff in Hy as [Hc Hy].
      rewrite append_cons, genSplit_dot.
      destruct (bool_decide (c = "."%char)); [discriminate|].
      rewrite (IHy Hy). reflexivity. }
  destruct rest as [|x2 rest2].
  - cbn [joinDots]. clear -Hx. induction x as [|c x IHx]; [reflexivity|].
    cbn [noDot] in Hx. apply andb_true_iff in Hx as [Hc Hx].
    rewrite genSplit_dot. destruct (bool_decide (c = "."%char)); [discriminate|].
    rewrite (IHx Hx). reflexivity.
  - change (joinDots (x :: x2 :: rest2)) with (x +:+ "." +:+ joinDots (x2 :: rest2)).
    rewrite (Htail x Hx), IH; [reflexivity|discriminate|assumption].
Qed.

Lemma allDigits_noDot (s : string) : allDigits s = true -> noDot s = true.
Proof.
  induction s as [|c s IH]; [reflexivity|]. cbn [allDigits noDot].
  intros [Hc Hs]%andb_true_iff. rewrite (IH Hs), andb_true_r.
  case_bool_decide as E; [|reflexivity]. subst c. discriminate.
Qed.

End SplitFacts.

Section ValidateFacts.
Import GoStrings VersionFormat.

Lemma validate_inr (v src r : string) :
  validateBufVersion v src = inr r -> r = v /\ accepted v.
Proof.
  unfold validateBufVersion, Split.
  destruct (SplitFacts.join_split v) as [Hj Hn].
  destruct (genSplit "." 0 v) as [|a [|b [|c [|d l]]]]; try discriminate.
  cbn [length Nat.eqb negb existsb]. rewrite orb_false_r.
  destruct (atoiFails a || (atoiFails b || atoiFails c)) eqn:Hat; [discriminate|].
  intros [= <-]. split; [reflexivity|].
  apply orb_false_iff in Hat as [Ha [Hb Hc]%orb_false_iff].
  unfold atoiFails in *. rewrite AtoiFacts.Atoi_spec in Ha, Hb, Hc.
  apply negb_false_iff in Ha, Hb, Hc.
  inversion Hn as [|? ? Hna Hn1]; subst. inversion Hn1 as [|? ? Hnb Hn2]; subst.
  inversion Hn2 as [|? ? Hnc _]; subst.
  exists a, b, c. auto 10.
Qed.

Lemma validate_accepted (v src : string) :
  accepted v -> validateBufVersion v src = inr v.
Proof.
  intros (a & b & c & -> & Hna & Hnb & Hnc & Ha & Hb & Hc).
  unfold validateBufVersion, Split.
  rewrite SplitFacts.split_join; [|discriminate|repeat constructor; assumption].
  cbn [length Nat.eqb negb existsb]. unfold atoiFails.
  rewrite !AtoiFacts.Atoi_spec, Ha, Hb, Hc. reflexivity.
Qed.

Lemma validate_inl (v src : string) (e : error) :
  validateBufVersion v src = inl e -> e = ErrInvalidBufVersion src v.
Proof.
  unfold validateBufVersion, newInvalidBufVersionError.
  destruct (negb _); [congruence|]. destruct (existsb _ _); congruence.
Qed.

End ValidateFacts.

(** C4 (as amended).  validateBufVersion accepts exactly the strings made of
    three dot-separated components each of which strconv.Atoi accepts, that
    is an optional plus or minus sign followed by one or more decimal digits
    whose signed value fits a 64-bit int, and returns the string unchanged;
    every other string is rejected with the invalid-version error that names
    the source and the string. *)
Theorem C4_validateBufVersion_accepts_exactly (v src : string) :
  (VersionFormat.accepted v /\ validateBufVersion v src = inr v) \/
  (~ VersionFormat.accepted v /\
   validateBufVersion v src = inl (ErrInvalidBufVersion src v)).
Proof.
  destruct (validateBufVersion v src) as [e|r] eqn:Hv.
  - right. split.
    + intros Hacc. rewrite (validate_accepted v src Hacc) in Hv. discriminate.
    + f_equal. eapply validate_inl; eassumption.
  - left. destruct (validate_inr v src r Hv) as [-> Hacc]. auto.
Qed.

(** C4, the claim as stated fails: a negative component is accepted.  The
    string -1.2.3 is not a VersionSpec, and the override variable set to it
    is returned as the version. *)
Lemma C4_negative_component_accepted :
  ~ VersionFormat.VersionSpec "-1.2.3" /\
  validateBufVersion "-1.2.3" useBufVersionEnvKey = inr "-1.2.3".
Proof.
  split; [|vm_compute; reflexivity].
  intros (a & b & c & Hj & Ha & Hb & Hc).
  unfold VersionFormat.component in *.
  apply andb_true_iff in Ha as [_ Ha], Hb as [_ Hb], Hc as [_ Hc].
  pose proof (SplitFacts.split_join [a; b; c] ltac:(discriminate)) as Hs.
  rewrite <- Hj in Hs.
  specialize (Hs ltac:(repeat constructor; apply SplitFacts.allDigits_noDot; assumption)).
  vm_compute in Hs. injection Hs as <- _ _. discriminate.
Qed.

Section Logic.

Lemma replay_app (e1 e2 : list event) (f : gmap string File) :
  replay (e1 ++ e2) f = replay e2 (replay e1 f).
Proof. unfold replay. apply foldl_app. Qed.

Lemma hoare_conseq {A} (m : M A) (Q Q' : Post A) :
  hoare m Q -> (forall f r evs, Q f r evs -> Q' f r evs) -> hoare m Q'.
Proof.
  intros H HQ st. destruct (H st) as (evs & Hl & Hf & Hq). eauto.
Qed.

Lemma hoare_ret {A} (a : A) : hoare (ret a) (returns a []).
Proof.
  intros st. exists []. cbn. rewrite app_nil_r. repeat split.
Qed.

Lemma hoare_fail {A} (e : error) : hoare (@fail A e) (fails e []).
Proof.
  intros st. exists []. cbn. rewrite app_nil_r. repeat split.
Qed.

Lemma hoare_emit (ev : event) : hoare (emit ev) (returns tt [ev]).
Proof. intros st. exists [ev]. cbn. repeat split. Qed.

Lemma hoare_getFS : hoare getFS (fun f r evs => r = Ok f /\ evs = []).
Proof. intros st. exists []. cbn. rewrite app_nil_r. repeat split. Qed.

Lemma hoare_liftSum {A} (x : error + A) :
  hoare (liftSum x)
    (fun _ r evs => evs = [] /\ r = match x with inl e => Err e | inr a => Ok a end).
Proof.
  intros st. exists []. destruct x; cbn; rewrite app_nil_r; repeat split.
Qed.

Lemma hoare_bind {A B} (m : M A) (k : A -> M B) (Q1 : Post A) (Q2 : A -> Post B) :
  hoare m Q1 -> (forall a, hoare (k a) (Q2 a)) -> hoare (bind m k) (seqQ Q1 Q2).
Proof.
  intros Hm Hk st. unfold bind, seqQ.
  destruct (Hm st) as (e1 & Hl1 & Hf1 & Hq1).
  destruct (m st) as [[a|e|] st1]; cbn in *.
  - destruct (Hk a st1) as (e2 & Hl2 & Hf2 & Hq2).
    exists (e1 ++ e2). rewrite Hl2, Hl1, Hf2, Hf1, replay_app, app_assoc.
    repeat split. left. exists a, e1, e2. rewrite <- Hf1. auto.
  - exists e1. eauto 10.
  - exists e1. eauto 10.
Qed.

Lemma hoare_attempt {A} (m : M A) (Q : Post A) :
  hoare m Q -> hoare (attempt m) (attemptQ Q).
Proof.
  intros Hm st. unfold attempt, attemptQ.
  destruct (Hm st) as (e1 & Hl1 & Hf1 & Hq1).
  destruct (m st) as [[a|e|] st1]; cbn in *; exists e1; eauto 10.
Qed.

Lemma hoare_wrapErr {A} (wrap : error -> error) (m : M A) (Q : Post A) :
  hoare m Q -> hoare (wrapErr wrap m) (wrapQ wrap Q).
Proof.
  intros Hm st. unfold wrapErr, wrapQ.
  destruct (Hm st) as (e1 & Hl1 & Hf1 & Hq1).
  destruct (m st) as [[a|e|] st1]; cbn in *; exists e1; eauto 10.
Qed.

Lemma hoare_defer {A} (c : M unit) (onErr : error -> Res A -> Res A) (b : M A)
    (Qc : Post unit) (Qb : Post A) :
  hoare c Qc -> hoare b Qb -> hoare (defer c onErr b) (deferQ Qc onErr Qb).
Proof.
  intros Hc Hb st. unfold defer, deferQ.
  destruct (Hb st) as (e1 & Hl1 & Hf1 & Hq1).
  destruct (b st) as [r0 st1] eqn:Eb; cbn in *.
  destruct (Hc st1) as (e2 & Hl2 & Hf2 & Hq2).
  rewrite Hf1 in Hq2.
  destruct r0 as [a|e|]; [| |exists e1; cbn; auto].
  all: destruct (c st1) as [[u|e'|] st2]; cbn in *;
    exists (e1 ++ e2); rewrite Hl2, Hl1, Hf2, Hf1, replay_app, app_assoc;
    repeat split; right.
  1: exists (Ok a), (Ok u), e1, e2.
  2: exists (Ok a), (Err e'), e1, e2.
  3: exists (Ok a), OutOfFuel, e1, e2.
  4: exists (Err e), (Ok u), e1, e2.
  5: exists (Err e), (Err e'), e1, e2.
  6: exists (Err e), OutOfFuel, e1, e2.
  all: repeat split; auto; discriminate.
Qed.

Lemma hoare_traced {A} (ev : Res A -> option event) (m : M A) (Q : Post A) :
  hoare m Q -> hoare (traced ev m) (tracedQ ev Q).
Proof.
  intros Hm st. unfold traced, tracedQ.
  destruct (Hm st) as (e1 & Hl1 & Hf1 & Hq1).
  destruct (m st) as [r st1]; cbn in *.
  destruct (ev r) as [e|] eqn:Eev; cbn.
  - exists (e1 ++ [e]). rewrite Hl1, Hf1, replay_app, app_assoc. repeat split.
    exists e1. rewrite Eev. auto.
  - exists e1. repeat split; auto. exists e1. rewrite Eev, app_nil_r. auto.
Qed.

Lemma hoare_if {A} (b : bool) (m1 m2 : M A) (Q1 Q2 : Post A) :
  hoare m1 Q1 -> hoare m2 Q2 -> hoare (if b then m1 else m2) (ifQ b Q1 Q2).
Proof. destruct b; auto. Qed.

Lemma hoare_sum {A B C} (x : A + B) (m1 : A -> M C) (m2 : B -> M C)
    (Q1 : A -> Post C) (Q2 : B -> Post C) :
  (forall a, hoare (m1 a) (Q1 a)) -> (forall b, hoare (m2 b) (Q2 b)) ->
  hoare (match x with inl a => m1 a | inr b => m2 b end) (sumQ x Q1 Q2).
Proof. destruct x; auto. Qed.

End Logic.

Arguments apply_event : simpl never.

Ltac inner_case :=
  match goal with
  | |- context [match ?x with _ => _ end] =>
      lazymatch x with
      | context [match _ with _ => _ end] => fail
      | _ => destruct x eqn:?
      end
  end.

Section PrimitiveSpecs.
Context (E : Env).

Ltac prim :=
  let st := fresh "st" in
  intros st;
  cbv [os_Getenv os_Getwd os_ReadFile os_Stat os_CreateTemp os_Open os_Create
       file_Close fileReader appendTo io_Copy io_ReadAll os_Remove os_MkdirAll
       os_Chmod stderr_Fprintf cmd_Run bind getFS emit fail ret]; cbn;
  repeat (inner_case; cbn);
  eexists; (split; [first [reflexivity | symmetry; apply app_nil_r] |]);
  (split; [reflexivity |]).

Lemma os_Getenv_spec (key : string) :
  hoare (os_Getenv E key) (returns (environ E key) [EvGetenv key]).
Proof. prim. split; reflexivity. Qed.

Lemma os_Getwd_spec :
  hoare (os_Getwd E)
    (fun _ r evs =>
       evs = [EvGetwd] /\
       r = match fault E OpGetwd with Some e => Err e | None => Ok (cwd E) end).
Proof. prim; split; reflexivity. Qed.

Lemma os_ReadFile_spec (path : string) :
  hoare (os_ReadFile E path)
    (fun f r evs =>
       match query E (OpReadFile path) f path with
       | inl e => r = Err e /\ evs = [EvReadFile path (Some e)]
       | inr x => r = Ok (contents x) /\ evs = [EvReadFile path None]
       end).
Proof. prim; split; reflexivity. Qed.

Lemma os_Stat_spec (path : string) :
  hoare (os_Stat E path)
    (fun f r evs =>
       (r = Ok tt /\ evs = [EvStat path None]) \/
       (exists e, r = Err e /\ evs = [EvStat path (Some e)])).
Proof. prim; eauto. Qed.

Lemma os_CreateTemp_spec :
  hoare (os_CreateTemp E)
    (fun f r evs =>
       (r = Ok (tempName E) /\ evs = [EvCreateTemp (tempName E)] /\
        f !! tempName E = None) \/
       (exists e, r = Err e /\ evs = [])).
Proof. prim; eauto. Qed.

Lemma os_Open_spec (path : string) :
  hoare (os_Open E path)
    (fun f r evs =>
       (r = Ok path /\ evs = [EvOpen path] /\ is_Some (f !! path)) \/
       (exists e, r = Err e /\ evs = [])).
Proof.
  prim; eauto. left. repeat split.
  unfold query in *. repeat case_match; simplify_eq. eauto.
Qed.

Lemma os_Create_spec (path : string) :
  hoare (os_Create E path) (attempted path [EvCreate path]).
Proof. prim; unfold attempted; eauto. Qed.

Lemma file_Close_spec (path : string) :
  hoare (file_Close E path)
    (fun _ r evs => evs = [EvClose path] /\ (r = Ok tt \/ exists e, r = Err e)).
Proof. prim; eauto. Qed.

Lemma takeS_prefix (n : nat) (s : string) : isPrefixOf (takeS n s) s.
Proof.
  unfold takeS. revert n. induction s as [|c s IH]; intros [|n]; cbn.
  - exists "". reflexivity.
  - exists "". reflexivity.
  - exists (String c s). reflexivity.
  - destruct (IH n) as [rest Hr]. exists rest. rewrite append_cons. congruence.
Qed.

Lemma isPrefixOf_refl (s : string) : isPrefixOf s s.
Proof. exists "". symmetry. apply append_nil_r. Qed.

Lemma fileReader_spec (path : string) :
  hoare (fileReader E path)
    (fun f r evs =>
       evs = [] /\
       exists rd, r = Ok rd /\
         let data := match f !! path with Some x => contents x | None => "" end in
         isPrefixOf (avail rd) data /\ (rerr rd = None -> avail rd = data)).
Proof.
  prim; (split; [reflexivity|]); eexists; (split; [reflexivity|]); cbn;
    split; auto using takeS_prefix, isPrefixOf_refl; discriminate.
Qed.

Lemma io_Copy_spec (dst : string) (rd : Reader) :
  hoare (io_Copy E dst rd)
    (fun f r evs =>
       (exists d, evs = [EvWrite dst d] /\ is_Some (f !! dst) /\
          ((r = Ok tt /\ d = avail rd /\ rerr rd = None) \/
           (exists e, r = Err e /\ isPrefixOf d (avail rd)))) \/
       (f !! dst = None /\ evs = [] /\ exists e, r = Err e)).
Proof.
  prim; eauto 10 using takeS_prefix, isPrefixOf_refl.
Qed.

Lemma io_ReadAll_spec (rd : Reader) :
  hoare (io_ReadAll rd)
    (fun _ r evs =>
       evs = [] /\
       r = match rerr rd with Some e => Err e | None => Ok (avail rd) end).
Proof. prim; split; reflexivity. Qed.

Lemma os_Remove_spec (path : string) :
  hoare (os_Remove E path) (removeQ E path).
Proof. prim; unfold removeQ; eauto. Qed.

Lemma os_MkdirAll_spec (path : string) (mode : Z) :
  hoare (os_MkdirAll E path mode) (attempted tt [EvMkdirAll path]).
Proof. prim; unfold attempted; eauto. Qed.

Lemma os_Chmod_spec (path : string) (mode : Z) :
  hoare (os_Chmod E path mode)
    (fun f r evs =>
       (r = Ok tt /\ evs = [EvChmod path mode] /\ is_Some (f !! path)) \/
       (exists e, r = Err e /\ evs = [])).
Proof.
  prim; eauto. left. repeat split.
  unfold query in *. repeat case_match; simplify_eq. eauto.
Qed.

Lemma stderr_Fprintf_spec (msg : string) :
  hoare (stderr_Fprintf E msg) (attempted tt [EvStderr msg]).
Proof. prim; unfold attempted; eauto. Qed.

Lemma cmd_Run_spec (path : string) (args : list string) :
  hoare (cmd_Run E path args)
    (fun _ r evs =>
       evs = [EvExec path args] /\
       r = match childRun E path args with Some e => Err e | None => Ok tt end).
Proof. prim; split; reflexivity. Qed.

End PrimitiveSpecs.

Section ReplayFacts.

Lemma replay_nil (f : gmap string File) : replay [] f = f.
Proof. reflexivity. Qed.

Lemma replay_cons (ev : event) (evs : list event) (f : gmap string File) :
  replay (ev :: evs) f = replay evs (apply_event ev f).
Proof. reflexivity. Qed.

End ReplayFacts.

(** Unfolds the file system after a concrete list of events. *)
Ltac replay_simpl :=
  repeat first [rewrite replay_app | rewrite replay_cons | rewrite replay_nil];
  cbv beta iota zeta delta [apply_event].

Ltac replay_simpl_all :=
  repeat first [rewrite replay_app in * | rewrite replay_cons in * | rewrite replay_nil in *];
  cbv beta iota zeta delta [apply_event] in *.

(** Derives a post for a program from the posts of its parts. *)
Ltac hrule :=
  first
    [ apply hoare_ret | apply hoare_fail | apply hoare_emit | apply hoare_getFS
    | apply hoare_liftSum
    | apply os_Getenv_spec | apply os_Getwd_spec | apply os_ReadFile_spec
    | apply os_Stat_spec | apply os_CreateTemp_spec | apply os_Open_spec
    | apply os_Create_spec | apply file_Close_spec | apply fileReader_spec
    | apply io_Copy_spec | apply io_ReadAll_spec | apply os_Remove_spec
    | apply os_MkdirAll_spec | apply os_Chmod_spec | apply stderr_Fprintf_spec
    | apply cmd_Run_spec
    | eapply hoare_bind; [ | intros ? ]
    | eapply hoare_defer
    | eapply hoare_traced
    | eapply hoare_wrapErr
    | eapply hoare_attempt
    | eapply hoare_if
    | eapply hoare_sum; intros ? ].

Ltac hderive := repeat hrule.

(** Opens a derived post into its cases. *)
Ltac hopen :=
  cbv beta delta [seqQ attemptQ wrapQ deferQ tracedQ ifQ sumQ returns fails attempted] in *;
  repeat match goal with
         | H : _ /\ _ |- _ => destruct H
         | H : exists _, _ |- _ => destruct H
         | H : _ \/ _ |- _ => destruct H
         | H : ?x <> ?x |- _ => contradiction H; reflexivity
         | H : _ = match ?x with _ => _ end |- _ => destruct x eqn:?
         | H : is_Some _ |- _ => destruct H
         | _ => progress simplify_eq
         end.

Lemma isPrefixOf_trans (a b c : string) :
  isPrefixOf a b -> isPrefixOf b c -> isPrefixOf a c.
Proof.
  intros [r1 ->] [r2 ->]. exists (r1 +:+ r2). apply append_assoc.
Qed.

Section FunctionSpecs.
Context (P : Platform) (E : Env).

Lemma download_spec {A} (url : string) (k : Reader -> M A) (Qk : Reader -> Post A) :
  (forall body, hoare (k body) (Qk body)) ->
  hoare (download E url k) (downloadQ E url Qk).
Proof.
  intros Hk. unfold download, downloadQ.
  destruct (http E url) as [e|e|status body closeErr].
  - eapply hoare_conseq; [hderive|]. intros f r evs H. hopen. auto.
  - eapply hoare_conseq; [hderive|]. intros f r evs H. hopen. auto.
  - destruct closeErr; destruct (status =? 200) eqn:Hs; cbn [negb];
      (eapply hoare_conseq; [hderive; try apply Hk|]); intros f r evs H.
    all: hopen; replay_simpl_all.
    all: eexists _, _; rewrite ?app_nil_r; cbn [app]; repeat split; eauto.
Qed.

Lemma downloadData_spec (url : string) :
  hoare (downloadData E url) (downloadDataQ E url).
Proof.
  eapply hoare_conseq; [apply download_spec; intros; apply io_ReadAll_spec|].
  intros f r evs H. unfold downloadQ, downloadDataQ in *.
  destruct (http E url) as [e|e|status [data [re|]] [ce|]]; hopen; eauto 10.
  all: destruct (status =? 200) eqn:Hs; hopen; cbn in *; eauto 10.
  apply Z.eqb_eq in Hs. subst. eauto 10.
Qed.

Lemma downloadTempFile_spec (url : string) :
  hoare (downloadTempFile E url) (downloadTempFileQ E url).
Proof.
  unfold downloadTempFile.
  eapply hoare_conseq; [apply download_spec; intros; hderive|].
  intros f r evs H. unfold downloadQ, downloadTempFileQ in *.
  destruct (http E url) as [e|e|status [data [re|]] [ce|]]; hopen; eauto 10.
  all: destruct (status =? 200) eqn:Hs; hopen; replay_simpl_all; cbn in *; eauto 10.
  all: try (apply Z.eqb_eq in Hs; subst status).
  all: simplify_map_eq; eauto 10.
Qed.

Lemma hashFile_spec (filePath : string) :
  hoare (hashFile P E filePath) (hashFileQ P filePath).
Proof.
  unfold hashFile. eapply hoare_conseq; [hderive|].
  intros f r evs H. unfold hashFileQ. hopen; replay_simpl_all; cbn in *.
  all: simplify_eq; eauto 10.
  all: repeat match goal with
         | H : ?a = Some _, H' : context [?a] |- _ => rewrite H in H'
         end.
  all: hopen.
  all: repeat match goal with
         | H : ?A -> _, H' : ?A |- _ => specialize (H H')
         | H : avail _ = _ |- _ => rewrite H in *; clear H
         end.
  all: eauto 10.
Qed.

Lemma verifySha256TxtData_spec (sha256TxtData sha256TxtMinisigData : string) :
  hoare (verifySha256TxtData P sha256TxtData sha256TxtMinisigData) verifyQ.
Proof.
  unfold verifySha256TxtData. eapply hoare_conseq; [hderive|].
  intros f r evs H. unfold verifyQ. hopen; cbn in *; eauto 10.
  all: repeat match goal with
         | H : context [if negb ?b then _ else _] |- _ =>
             destruct b eqn:?; cbn [negb] in H; hopen
         end; cbn in *; eauto 10.
Qed.

Lemma copyFile_spec (fromFilePath toFilePath : string) :
  hoare (copyFile P E fromFilePath toFilePath) (copyFileQ P fromFilePath toFilePath).
Proof.
  unfold copyFile. eapply hoare_conseq; [hderive|].
  intros f r evs H. unfold copyFileQ. hopen; replay_simpl_all; cbn in *; eauto 10.
  all: try solve [simplify_map_eq].
  all: hopen.
  all: first
    [ solve [left; eexists; split; [eassumption|]; split; [reflexivity|];
             eexists; split; [reflexivity|]; intros Hne;
             repeat match goal with
               | H : context [<[_:=_]> _ !! _] |- _ =>
                   rewrite lookup_insert_ne in H by congruence
               | H : ?a = Some _, H' : context [?a] |- _ => rewrite H in H'
               end; auto]
    | solve [right; eexists; split; [reflexivity|]; do 3 right;
             eexists _, _; split; [eassumption|]; split; [reflexivity|];
             intros Hne;
             repeat match goal with
               | H : context [<[_:=_]> _ !! _] |- _ =>
                   rewrite lookup_insert_ne in H by congruence
               | H : ?a = Some _, H' : context [?a] |- _ => rewrite H in H'
               end; eauto using isPrefixOf_trans] ].
Qed.

End FunctionSpecs.

Ltac hrule2 P E :=
  first
    [ apply (downloadTempFile_spec E) | apply (downloadData_spec E)
    | apply (hashFile_spec P E) | apply (verifySha256TxtData_spec P)
    | apply (copyFile_spec P E) | hrule ].

(** One step of opening a derived post; contradictions are found before
    any disjunction is split. *)
Ltac hopen1 :=
  match goal with
  | H : ?x <> ?x |- _ => contradiction H; reflexivity
  | H : @eq (Res _) _ _ |- _ => first [discriminate H | injection H as H]
  | H : @eq (Res _) ?x _ |- _ => is_var x; subst x
  | H : @eq (option _) _ _ |- _ => first [discriminate H | injection H as H]
  | H : @eq (sum _ _) _ _ |- _ => first [discriminate H | injection H as H]
  | H : @eq (list event) ?x _ |- _ => is_var x; subst x
  | H : @eq string ?x _ |- _ => is_var x; subst x
  | H : @eq string _ ?x |- _ => is_var x; subst x
  | H : @eq error ?x _ |- _ => is_var x; subst x
  | H : @eq error _ ?x |- _ => is_var x; subst x
  | H : @eq unit _ _ |- _ => clear H
  | x : unit |- _ => destruct x
  | H : _ /\ _ |- _ => destruct H
  | H : exists _, _ |- _ => destruct H
  | H : is_Some _ |- _ => destruct H
  | H : _ = match ?x with _ => _ end |- _ => destruct x eqn:?
  | H : if negb ?b then _ else _ |- _ => destruct b eqn:?; cbn [negb] in H
  | H : if ?b then _ else _ |- _ => destruct b eqn:?
  | H : match ?x with inl _ => _ | inr _ => _ end |- _ => destruct x eqn:?
  | H : _ \/ _ |- _ => destruct H
  end.

Ltac hcases :=
  cbv beta zeta delta [seqQ attemptQ wrapQ deferQ tracedQ ifQ sumQ returns fails attempted removeQ
                  downloadTempFileQ downloadDataQ hashFileQ verifyQ copyFileQ] in *;
  repeat hopen1.

Section ResolveSpecs.
Context (P : Platform) (E : Env).

Lemma getBufVersionLoop_spec (fuel : nat) (cur : string) :
  hoare (getBufVersionLoop P E fuel cur) resolveOnly.
Proof.
  revert cur. induction fuel as [|fuel IH]; intros cur.
  - intros st. exists []. cbn. rewrite app_nil_r. repeat split. constructor.
  - cbn [getBufVersionLoop].
    eapply hoare_conseq; [repeat first [apply IH | hrule2 P E]|].
    intros f r evs H. unfold resolveOnly in *. hcases.
    all: repeat first [apply Forall_app; split | apply Forall_cons; split
                      | apply Forall_nil | reflexivity | assumption].
Qed.

Lemma getBufVersion_spec (fuel : nat) :
  hoare (getBufVersion P E fuel) resolveOnly.
Proof.
  unfold getBufVersion.
  eapply hoare_conseq; [repeat first [apply getBufVersionLoop_spec | hrule2 P E]|].
  intros f r evs H. unfold resolveOnly in *. hcases.
  all: repeat first [apply Forall_app; split | apply Forall_cons; split
                    | apply Forall_nil | reflexivity | assumption].
Qed.

Lemma replay_resolve (evs : list event) (f : gmap string File) :
  Forall (fun ev => isResolve ev = true) evs -> replay evs f = f.
Proof.
  induction 1 as [|ev evs Hev _ IH]; [reflexivity|].
  rewrite replay_cons.
  replace (apply_event ev f) with f; [assumption|].
  destruct ev; try discriminate; reflexivity.
Qed.

Lemma downloadBufToFilePath_spec (v p : string) :
  hoare (downloadBufToFilePath P E v p) (pipelineQ P E v p).
Proof.
  unfold downloadBufToFilePath, pipelineQ, fileNameOf.
  repeat hrule2 P E.
Qed.

End ResolveSpecs.

Ltac resolve_only :=
  repeat first [apply Forall_app; split | apply Forall_cons; split
               | apply Forall_nil | reflexivity | assumption].

Section RunSpec.
Context (P : Platform) (E : Env).

Ltac fs_unchanged :=
  repeat match goal with
    | H : context [replay (_ :: _) _] |- _ => rewrite replay_cons in H
    | H : context [replay [] _] |- _ => rewrite replay_nil in H
    | H : context [replay (_ ++ _) _] |- _ => rewrite replay_app in H
    | H : context [apply_event (EvGetenv _) _] |- _ =>
        cbv beta iota delta [apply_event] in H
    | H : context [apply_event (EvStat _ _) _] |- _ =>
        cbv beta iota delta [apply_event] in H
    | Hr : Forall _ ?l, H : context [replay ?l _] |- _ =>
        rewrite (replay_resolve l _ Hr) in H
    end.

Ltac with_prefix x0 tac :=
  first [ exists x0; tac
        | eexists (x0 ++ [_]); tac
        | eexists (x0 ++ [_; _]); tac
        | eexists (x0 ++ [_; _; _]); tac ].

Ltac same_log x0 :=
  first [ reflexivity | rewrite <- (app_assoc x0); cbn [app]; reflexivity ].

Ltac run_leaf :=
  fs_unchanged;
  rewrite <- ?app_assoc, ?app_nil_r; cbn [app];
  try match goal with
      | H : pipelineQ _ _ _ _ _ _ ?d |- _ =>
          lazymatch goal with
          | |- context [d ++ _] => idtac
          | _ => rewrite <- (app_nil_r d)
          end
      end;
  match goal with
  | Hr : Forall _ ?x0 |- _ =>
      first
        [ solve [left; eexists; split; [reflexivity|]; split; [resolve_only|]; auto; right; eexists; reflexivity]
        | solve [right; left;
                 with_prefix x0
                   ltac:(eexists _; split; [same_log x0|];
                         split; [resolve_only|reflexivity])]
        | solve [right; right;
                 with_prefix x0
                   ltac:(eexists _, _, _, _, _, _; split; [same_log x0|];
                         split; [resolve_only|]; split; [eassumption|];
                         first [ left; split; [reflexivity|]; left; split; reflexivity
                               | left; split; [reflexivity|]; right; split; eauto
                               | right; split; [reflexivity|]; split; [reflexivity|];
                                 discriminate ])] ]
  end.

Lemma run_spec (fuel : nat) : hoare (run P E fuel) (runQ P E).
Proof.
  unfold run, getDefaultCacheDirPath.
  destruct (goos P);
    (eapply hoare_conseq;
      [repeat first [apply getBufVersion_spec | apply downloadBufToFilePath_spec
                    | hrule2 P E]|]);
    intros f r evs H; unfold resolveOnly in *; hcases.
  all: run_leaf.
Qed.
End RunSpec.

(** * The claims *)

Section TraceFacts.

Lemma stages_app (l1 l2 : list event) : stages (l1 ++ l2) = stages l1 ++ stages l2.
Proof. apply List.filter_app. Qed.

Lemma stages_resolve (l : list event) :
  Forall (fun ev => isResolve ev = true) l -> stages l = [].
Proof.
  induction 1 as [|ev l Hev _ IH]; [reflexivity|].
  unfold stages in *. cbn [List.filter]. rewrite IH.
  destruct ev; try discriminate; reflexivity.
Qed.

Lemma resolve_not_In (l : list event) (ev : event) :
  Forall (fun ev => isResolve ev = true) l -> isResolve ev = false -> ~ In ev l.
Proof.
  intros Hall Hev Hin. rewrite Forall_forall in Hall.
  apply list_elem_of_In in Hin. specialize (Hall ev Hin). congruence.
Qed.

Lemma run_log (P : Platform) (E : Env) (fuel : nat) (files : gmap string File) :
  exists evs,
    log (run P E fuel (init files)).2 = evs /\
    fs (run P E fuel (init files)).2 = replay evs files /\
    runQ P E files (run P E fuel (init files)).1 evs.
Proof.
  destruct (run_spec P E fuel (init files)) as (evs & Hlog & Hfs & HQ).
  exists evs. split; [exact Hlog|]. split; [exact Hfs|exact HQ].
Qed.

End TraceFacts.

(** Splits the membership of an event in a log into its cases. *)
Ltac in_cases H :=
  repeat match type of H with
         | In _ (_ ++ _) => apply in_app_or in H; destruct H as [H|H]
         | In _ (_ :: _) => destruct H as [H|H]
         | In _ [] => destruct H
         end.

Ltac in_outcomes := cbn [In]; repeat first [left; reflexivity | right].

Section PipelineFacts.
Context (P : Platform) (E : Env).

Lemma outcomes_pipeline (v p : string) :
  outcomes (pipeline P E v p) =
    ltac:(let t := eval cbv [outcomes outcomesAt flat_map seq length take lookup
                             list_lookup failure_of app pipeline]
                   in (outcomes (pipeline P E v p)) in exact t).
Proof. reflexivity. Qed.

(** The steps of downloadBufToFilePath follow the pipeline, and all of
    them but the launch have succeeded when it returns nil. *)
Lemma pipeline_stages (v p : string) (f : gmap string File) (r : Res unit)
    (devs : list event) :
  pipelineQ P E v p f r devs ->
  followsPipeline (pipeline P E v p) (stages devs) /\
  (r = Ok tt -> stages devs = take 10 (pipeline P E v p)).
Proof.
  intros H. unfold followsPipeline. rewrite outcomes_pipeline.
  unfold pipelineQ, fileNameOf in H. hcases.
  all: (split; [cbn [stages List.filter isStage app]; in_outcomes|]).
  all: cbn [ifRetErrNil]; intros Hr; first [discriminate Hr | reflexivity].
Qed.

Lemma pipeline_events (v p : string) (f : gmap string File) (r : Res unit)
    (devs : list event) :
  pipelineQ P E v p f r devs ->
  Forall (fun ev => isPipelineEvent ev = true) devs.
Proof.
  intros H. unfold pipelineQ, fileNameOf in H. hcases.
  all: resolve_only.
Qed.

(** When downloadBufToFilePath returns nil, the cache path holds the bytes
    served for the artifact, with mode 0700, their digest is the one the
    manifest declares, and the temporary file is gone. *)
Lemma pipeline_installs (v p : string) (f : gmap string File) (devs : list event) :
  pipelineQ P E v p f (Ok tt) devs ->
  tempName E <> p ->
  exists data sha256Txt,
    http E (getFileURL v (fileNameOf P)) =
      Response 200 {| avail := data; rerr := None |} None /\
    http E (getFileURL v "sha256.txt") =
      Response 200 {| avail := sha256Txt; rerr := None |} None /\
    getSha256HexForTxtData sha256Txt (fileNameOf P) = inr (sha256Hex P data) /\
    replay devs f !! p = Some {| contents := data; perm := 448 |} /\
    replay devs f !! tempName E = None.
Proof.
  intros H Hne. unfold pipelineQ, fileNameOf in H. hcases.
  all: cbn [ifRetErrNil] in *; try discriminate.
  assert (Hne' : p <> tempName E) by congruence.
  replay_simpl_all. simplify_map_eq.
  match goal with H : tempName E <> p -> _ |- _ => rewrite (H Hne) in * end.
  rewrite append_nil_l in *.
  match goal with H : String.eqb _ _ = true |- _ => apply String.eqb_eq in H end.
  unfold fileNameOf. eexists _, _. repeat split; try eassumption.
  rewrite ?append_nil_l. congruence.
Qed.

End PipelineFacts.

Ltac in_log := vm_compute; repeat first [left; reflexivity | right].

Section RunFacts.
Context (P : Platform) (E : Env).

Lemma pipeline_not_In (v p : string) (f : gmap string File) (r : Res unit)
    (devs : list event) (ev : event) :
  pipelineQ P E v p f r devs -> isPipelineEvent ev = false -> ~ In ev devs.
Proof.
  intros Hdl Hev Hin.
  pose proof (pipeline_events P E v p f r devs Hdl) as Hall.
  rewrite Forall_forall in Hall. apply list_elem_of_In in Hin.
  specialize (Hall ev Hin). congruence.
Qed.

(** A run whose existence check failed: the log is version resolution and
    cache location, the failed check, the events of the pipeline, and then
    the notice and the launch when the pipeline returned nil. *)
Lemma run_miss (fuel : nat) (files : gmap string File) (p : string) (e : error) :
  In (EvStat p (Some e)) (log (run P E fuel (init files)).2) ->
  exists pre v rdl devs tail,
    log (run P E fuel (init files)).2 = pre ++ EvStat p (Some e) :: devs ++ tail /\
    fs (run P E fuel (init files)).2 = replay devs files /\
    Forall (fun ev => isResolve ev = true) pre /\
    pipelineQ P E v p files rdl devs /\
    ((rdl = Ok tt /\
      exists msg, tail = [EvStderr msg; EvExec p (osArgs E)]) \/
     (tail = [] /\ (run P E fuel (init files)).1 <> Ok tt)).
Proof.
  destruct (run_log P E fuel files) as (evs & -> & -> & HQ).
  intros Hin. destruct HQ as [HQ|[HQ|HQ]].
  - destruct HQ as (pre & -> & Hpre & _).
    exfalso. eapply resolve_not_In; [exact Hpre| |exact Hin]. reflexivity.
  - destruct HQ as (pre & p' & -> & Hpre & _).
    exfalso. in_cases Hin; try discriminate.
    eapply resolve_not_In; [exact Hpre| |exact Hin]. reflexivity.
  - destruct HQ as (pre & v & p' & e' & rdl & devs & tail & -> & Hpre & Hdl & Htail).
    assert (p' = p /\ e' = e) as [-> ->].
    { in_cases Hin.
      - exfalso. eapply resolve_not_In; [exact Hpre| |exact Hin]. reflexivity.
      - split; congruence.
      - exfalso. eapply pipeline_not_In; [exact Hdl| |exact Hin]. reflexivity.
      - destruct Htail as [[_ [[-> _]|[-> _]]]|[-> _]]; in_cases Hin; discriminate. }
    exists pre, v, rdl, devs, tail. split; [reflexivity|].
    split.
    { rewrite replay_app, (replay_resolve pre files Hpre), replay_cons, replay_app.
      change (apply_event (EvStat p (Some e)) files) with files.
      destruct Htail as [[_ [[-> _]|[-> _]]]|[-> _]]; reflexivity. }
    split; [exact Hpre|]. split; [exact Hdl|].
    destruct Htail as [[-> [[-> Hr]|[-> [e'' Hr]]]]|[-> [<- Hr]]].
    + left. eauto.
    + right. split; [reflexivity|]. rewrite Hr. discriminate.
    + right. split; [reflexivity|]. exact Hr.
Qed.

End RunFacts.

(** C1 (as amended).  On a cache miss the steps run in this order: the
    download of the artifact, then the fetch of the manifest and of its
    signature and the verification of the signature, then the installation
    into the cache, then the launch; each step is reached only after all
    steps before it have succeeded.  So the stage events of the log are the
    first n steps of [pipeline], all successful, possibly followed by the
    failure of the next one. *)
Theorem C1_cache_miss_follows_pipeline
    (P : Platform) (E : Env) (fuel : nat) (files : gmap string File)
    (p : string) (e : error) :
  In (EvStat p (Some e)) (log (run P E fuel (init files)).2) ->
  exists v,
    followsPipeline (pipeline P E v p) (stages (log (run P E fuel (init files)).2)).
Proof.
  intros Hin.
  destruct (run_miss P E fuel files p e Hin)
    as (pre & v & rdl & devs & tail & -> & _ & Hpre & Hdl & Htail).
  exists v.
  destruct (pipeline_stages P E v p files rdl devs Hdl) as [Hfol Hok].
  rewrite stages_app, (stages_resolve pre Hpre).
  change (stages (EvStat p (Some e) :: devs ++ tail)) with (stages (devs ++ tail)).
  rewrite stages_app. cbn [app].
  destruct Htail as [[-> [msg ->]]|[-> _]].
  - rewrite (Hok eq_refl). unfold followsPipeline. rewrite outcomes_pipeline.
    cbn [stages List.filter isStage app take pipeline]. in_outcomes.
  - cbn [stages List.filter]. rewrite app_nil_r. exact Hfol.
Qed.

Lemma C1_cache_miss_follows_pipeline_witness :
  In (EvStat Demo.cachePath (Some (ErrNotExist Demo.cachePath)))
     (log (run Demo.linux Demo.release 5 (init Demo.versionFile)).2) /\
  exists v,
    followsPipeline (pipeline Demo.linux Demo.release v Demo.cachePath)
      (stages (log (run Demo.linux Demo.release 5 (init Demo.versionFile)).2)).
Proof.
  split; [in_log|].
  apply (C1_cache_miss_follows_pipeline Demo.linux Demo.release 5 Demo.versionFile
           Demo.cachePath (ErrNotExist Demo.cachePath)).
  in_log.
Defined.

(** C1, the claim as stated fails: the artifact is downloaded before the
    manifest is fetched and before the signature is verified.  On a cache
    miss of the release world, counting the events of the log from 0, the
    failed existence check is event 7, the request for the artifact event 8,
    the request for the manifest event 13 and the verification event 17. *)
Lemma C1_artifact_downloaded_before_verification :
  let l := log (run Demo.linux Demo.release 5 (init Demo.versionFile)).2 in
  firstIndex isStatMiss l = Some 7%nat /\
  firstIndex (isGetOf Demo.artifactURL) l = Some 8%nat /\
  firstIndex (isGetOf Demo.sha256TxtURL) l = Some 13%nat /\
  firstIndex isVerify l = Some 17%nat /\
  precedes isVerify (isGetOf Demo.artifactURL) l = false /\
  precedes (isGetOf Demo.sha256TxtURL) (isGetOf Demo.artifactURL) l = false.
Proof. vm_compute. repeat split. Qed.

(** C7.  On a cache hit no network request is issued: the log holds no
    request at all, the only stage event is the launch, and the launch of
    the cached binary directly follows the existence check. *)
Theorem C7_cache_hit_no_network
    (P : Platform) (E : Env) (fuel : nat) (files : gmap string File) (p : string) :
  In (EvStat p None) (log (run P E fuel (init files)).2) ->
  (forall ev, In ev (log (run P E fuel (init files)).2) -> isHTTPGet ev = false) /\
  stages (log (run P E fuel (init files)).2) = [EvExec p (osArgs E)] /\
  (exists pre,
      log (run P E fuel (init files)).2 = pre ++ [EvStat p None; EvExec p (osArgs E)]) /\
  (run P E fuel (init files)).1 = childResult E p.
Proof.
  destruct (run_log P E fuel files) as (evs & -> & _ & HQ).
  intros Hin. destruct HQ as [HQ|[HQ|HQ]].
  - destruct HQ as (pre & -> & Hpre & _).
    exfalso. eapply resolve_not_In; [exact Hpre| |exact Hin]. reflexivity.
  - destruct HQ as (pre & p' & -> & Hpre & Hr).
    assert (p' = p) as ->.
    { in_cases Hin; try congruence.
      exfalso. eapply resolve_not_In; [exact Hpre| |exact Hin]. reflexivity. }
    repeat split.
    + intros ev Hev. in_cases Hev; subst; try reflexivity.
      rewrite Forall_forall in Hpre. apply list_elem_of_In in Hev.
      specialize (Hpre _ Hev). destruct ev; try discriminate; reflexivity.
    + rewrite stages_app, (stages_resolve pre Hpre). reflexivity.
    + exists pre. reflexivity.
    + exact Hr.
  - destruct HQ as (pre & v & p' & e' & rdl & devs & tail & -> & Hpre & Hdl & Htail).
    exfalso. in_cases Hin.
    + eapply resolve_not_In; [exact Hpre| |exact Hin]. reflexivity.
    + discriminate.
    + eapply pipeline_not_In; [exact Hdl| |exact Hin]. reflexivity.
    + destruct Htail as [[_ [[-> _]|[-> _]]]|[-> _]]; in_cases Hin; discriminate.
Qed.

Lemma C7_cache_hit_no_network_witness :
  In (EvStat Demo.cachePath None)
     (log (run Demo.linux Demo.release 5 (init Demo.cached)).2) /\
  stages (log (run Demo.linux Demo.release 5 (init Demo.cached)).2) =
    [EvExec Demo.cachePath ["lint"]].
Proof.
  split; [in_log|].
  apply (C7_cache_hit_no_network Demo.linux Demo.release 5 Demo.cached Demo.cachePath).
  in_log.
Defined.

Section C9Facts.
Context (P : Platform) (E : Env).


End C9Facts.

(** The binary is there, the existence check is refused, and the run
    replaces the binary by the downloaded one. *)
Example stat_denied_reinstalls :
  Demo.cached !! Demo.cachePath = Some {| contents := "OLD"; perm := 448 |} /\
  fs (run Demo.linux Demo.denied 5 (init Demo.cached)).2 !! Demo.cachePath =
    Some {| contents := "ELF"; perm := 448 |} /\
  (run Demo.linux Demo.denied 5 (init Demo.cached)).1 = Ok tt.
Proof. vm_compute. repeat split. Qed.

Ltac in_find H :=
  repeat match type of H with
         | In _ (_ ++ _) => apply in_app_or in H; destruct H as [H|H]
         | In _ (_ :: _) => destruct H as [H|H]; [try discriminate H|]
         | In _ [] => destruct H
         end.

Section C2Facts.
Context (P : Platform) (E : Env).

Lemma pipeline_mismatch (v p : string) (f : gmap string File) (r : Res unit)
    (devs : list event) (t h x : string) :
  pipelineQ P E v p f r devs ->
  In (EvHashFile t h) devs ->
  In (EvExtractHash (fileNameOf P) (Some x)) devs ->
  h <> x ->
  r = Err (ErrSha256Mismatch (fileNameOf P) h x) /\
  Forall (fun ev => isInstall ev = false) devs /\
  (tempName E <> p -> replay devs f !! p = f !! p).
Proof.
  intros H Hh Hx Hne. unfold pipelineQ, fileNameOf in *. hcases.
  all: in_find Hh.
  all: in_find Hx.
  all: injection Hh as <- <-; injection Hx as <-.
  all: try match goal with
           | Hb : String.eqb _ _ = true |- _ =>
               apply String.eqb_eq in Hb; congruence
           end.
  all: cbn [ifRetErrNil]; (split; [reflexivity|]); (split; [resolve_only|]).
  all: intros Ht; assert (Ht' : p <> tempName E) by congruence.
  all: replay_simpl; simplify_map_eq; reflexivity.
Qed.

End C2Facts.

(** C2.  When the digest computed from the downloaded artifact differs from
    the digest extracted from the verified manifest, downloadBufToFilePath
    fails with the mismatch error, which carries both digests (the computed
    one first, the declared one second), and nothing is installed: no
    MkdirAll, Create or Chmod happens, and the cache path is left as it was,
    absent if it was absent. *)
Theorem C2_hash_mismatch_fails_closed
    (P : Platform) (E : Env) (v p : string) (st : State) (evs : list event)
    (t h x : string) :
  log (downloadBufToFilePath P E v p st).2 = log st ++ evs ->
  In (EvHashFile t h) evs ->
  In (EvExtractHash (fileNameOf P) (Some x)) evs ->
  h <> x ->
  (downloadBufToFilePath P E v p st).1 = Err (ErrSha256Mismatch (fileNameOf P) h x) /\
  Forall (fun ev => isInstall ev = false) evs /\
  (tempName E <> p ->
   fs (downloadBufToFilePath P E v p st).2 !! p = fs st !! p /\
   (fs st !! p = None -> fs (downloadBufToFilePath P E v p st).2 !! p = None)).
Proof.
  intros Hlog Hh Hx Hne.
  destruct (downloadBufToFilePath_spec P E v p st) as (evs' & Hlog' & Hfs & HQ).
  rewrite Hlog in Hlog'. apply app_inv_head in Hlog'. subst evs'.
  destruct (pipeline_mismatch P E v p (fs st) _ evs t h x HQ Hh Hx Hne)
    as (Hr & Hinst & Hframe).
  split; [exact Hr|]. split; [exact Hinst|].
  intros Ht. rewrite Hfs, (Hframe Ht). split; [reflexivity|auto].
Qed.

Lemma C2_hash_mismatch_fails_closed_witness :
  (downloadBufToFilePath Demo.linux Demo.tampered "1.28.1" Demo.cachePath
     (init Demo.versionFile)).1 =
    Err (ErrSha256Mismatch "buf-Linux-x86_64" "#BAD" "#ELF") /\
  fs (downloadBufToFilePath Demo.linux Demo.tampered "1.28.1" Demo.cachePath
        (init Demo.versionFile)).2 !! Demo.cachePath = None.
Proof.
  destruct (C2_hash_mismatch_fails_closed Demo.linux Demo.tampered "1.28.1"
              Demo.cachePath (init Demo.versionFile)
              (log (downloadBufToFilePath Demo.linux Demo.tampered "1.28.1"
                      Demo.cachePath (init Demo.versionFile)).2)
              "/tmp/bufisk1" "#BAD" "#ELF")
    as (Hr & _ & Hframe).
  - reflexivity.
  - in_log.
  - in_log.
  - vm_compute. discriminate.
  - split; [exact Hr|]. apply Hframe; [vm_compute; discriminate|].
    vm_compute. reflexivity.
Defined.

Section C6Facts.
Context (P : Platform) (E : Env).

Lemma pipeline_extract_after_verify (v p : string) (f : gmap string File)
    (r : Res unit) (devs : list event) (i : nat) :
  pipelineQ P E v p f r devs ->
  firstIndex isExtract devs = Some i ->
  exists j, firstIndex isVerifyOk devs = Some j /\ (j < i)%nat.
Proof.
  intros H. unfold pipelineQ, fileNameOf in *. hcases.
  all: cbn; intros Hi; try discriminate Hi.
  all: injection Hi as <-; eexists; split; [reflexivity|lia].
Qed.

End C6Facts.

(** C6.  A signature whose key identifier differs from the identifier of
    the embedded public key makes verifySha256TxtData fail with the key
    mismatch error without touching the log: minisign.Verify is not called.
    And in every run of downloadBufToFilePath the hash is extracted from the
    manifest only after a verification that succeeded. *)
Theorem C6_key_mismatch_never_verifies
    (P : Platform) (sha256TxtData sha256TxtMinisigData : string) (st : State)
    (publicKey : PublicKey P) (signature : Signature P) :
  PublicKey_UnmarshalText P minisignPublicKey = inr publicKey ->
  Signature_UnmarshalText P sha256TxtMinisigData = inr signature ->
  Signature_KeyID P signature <> PublicKey_ID P publicKey ->
  verifySha256TxtData P sha256TxtData sha256TxtMinisigData st =
    (Err (ErrKeyIDMismatch (PublicKey_ID P publicKey) (Signature_KeyID P signature)), st) /\
  (forall (E : Env) (v p : string) (st0 : State) (evs : list event) (i : nat),
      log (downloadBufToFilePath P E v p st0).2 = log st0 ++ evs ->
      firstIndex isExtract evs = Some i ->
      exists j, firstIndex isVerifyOk evs = Some j /\ (j < i)%nat).
Proof.
  intros Hpk Hsig Hid. split.
  - unfold verifySha256TxtData, bind, liftSum. rewrite Hpk. cbn.
    rewrite Hsig. cbn.
    destruct (Signature_KeyID P signature =? PublicKey_ID P publicKey) eqn:Heq.
    + apply Z.eqb_eq in Heq. contradiction.
    + reflexivity.
  - intros E v p st0 evs i Hlog Hi.
    destruct (downloadBufToFilePath_spec P E v p st0) as (evs' & Hlog' & _ & HQ).
    rewrite Hlog in Hlog'. apply app_inv_head in Hlog'. subst evs'.
    eapply pipeline_extract_after_verify; eassumption.
Qed.

Lemma C6_key_mismatch_never_verifies_witness :
  verifySha256TxtData Demo.linux Demo.sha256Txt Demo.foreignSig (init Demo.versionFile) =
    (Err (ErrKeyIDMismatch 75 90), init Demo.versionFile) /\
  (run Demo.linux (Demo.world "" (Demo.whole "ELF") Demo.foreignSig Demo.noFault) 5
     (init Demo.versionFile)).1 = Err (ErrKeyIDMismatch 75 90).
Proof.
  split; [|vm_compute; reflexivity].
  apply (C6_key_mismatch_never_verifies Demo.linux Demo.sha256Txt Demo.foreignSig
           (init Demo.versionFile) "K"%char Demo.foreignSig).
  - reflexivity.
  - reflexivity.
  - vm_compute. discriminate.
Defined.

Section C5Facts.
Context (P : Platform) (E : Env).

(** Once downloadTempFile has returned the path, the deferred os.Remove
    runs on every return of downloadBufToFilePath: unless the world makes
    the removal fail, the temporary file is gone afterwards. *)
Lemma pipeline_removes_temp (v p : string) (f : gmap string File) (r : Res unit)
    (devs : list event) :
  pipelineQ P E v p f r devs ->
  In (EvHTTPDone (getFileURL v (fileNameOf P)) true) devs ->
  fault E (OpRemove (tempName E)) = None ->
  replay devs f !! tempName E = None.
Proof.
  intros H Hdone Hfault. unfold pipelineQ, fileNameOf in *. hcases.
  all: try (in_find Hdone; fail).
  all: clear Hdone; repeat rewrite replay_app in *; repeat rewrite replay_nil in *.
  all: try match goal with
           | Hq : query _ _ _ _ = inl _ |- _ =>
               unfold query in Hq; rewrite Hfault in Hq; revert Hq;
               case_match; [discriminate|reflexivity]
           end.
  all: match goal with
       | |- replay [EvRemove _] _ !! _ = None =>
           rewrite replay_cons, replay_nil;
           cbv beta iota delta [apply_event]; apply lookup_delete_eq
       end.
Qed.

End C5Facts.

(** C5, evaluated where the code leaves the temporary file behind.  The
    body of the artifact breaks off while io.Copy writes it to the temporary
    file: downloadTempFile returns the error, downloadBufToFilePath returns
    before its deferred os.Remove is registered, and the file created by
    os.CreateTemp stays, holding the bytes written so far. *)
Theorem C5_temp_file_left_behind :
  let st := downloadBufToFilePath Demo.linux Demo.truncated "1.28.1" Demo.cachePath
              (init Demo.versionFile) in
  st.1 = Err (ErrCouldNotDownloadBuf "1.28.1" (ErrLib "unexpected EOF")) /\
  firstIndex (isCreateTempOf "/tmp/bufisk1") (log st.2) = Some 1%nat /\
  firstIndex isRemove (log st.2) = None /\
  fs st.2 !! "/tmp/bufisk1" = Some {| contents := "EL"; perm := 384 |}.
Proof. vm_compute. repeat split. Qed.

Section C3Facts.
Context (P : Platform) (E : Env).

Lemma isPrefixOf_empty (s : string) : isPrefixOf "" s.
Proof. exists s. reflexivity. Qed.

Lemma copyFile_states (fromFilePath toFilePath : string) (f : gmap string File)
    (x : File) (r : Res unit) (evs : list event) :
  fromFilePath <> toFilePath ->
  f !! fromFilePath = Some x ->
  copyFileQ P fromFilePath toFilePath f r evs ->
  (forall n,
      replay (take n evs) f !! toFilePath = f !! toFilePath \/
      exists d m,
        replay (take n evs) f !! toFilePath = Some {| contents := d; perm := m |} /\
        isPrefixOf d (contents x)) /\
  (r = Ok tt ->
   exists m, replay evs f !! toFilePath = Some {| contents := contents x; perm := m |}) /\
  Forall (fun ev => written ev = None \/ written ev = Some toFilePath) evs.
Proof.
  intros Hne Hx H. unfold copyFileQ in H. hcases.
  all: repeat match goal with
         | Hi : _ <> _ -> _ |- _ => specialize (Hi Hne)
         | Hf : _ !! _ = Some ?y, Hg : _ !! _ = Some ?z |- _ =>
             is_var y; tryif constr_eq y z then fail
             else (assert (y = z) by congruence; subst y; clear Hf)
         end.
  all: split; [|split].
  all: try (intros Hr; discriminate Hr).
  all: try (repeat (apply List.Forall_cons;
                      [first [left; reflexivity | right; reflexivity]|]);
            apply List.Forall_nil).
  all: try (intros n; destruct n as [|[|[|[|[|[|[|n]]]]]]]; cbn [take];
            replay_simpl; simplify_map_eq;
            first [ left; reflexivity
                  | right; eexists _, _; split; [reflexivity|];
                    rewrite ?append_nil_l; subst;
                    eauto using isPrefixOf_empty, isPrefixOf_refl ]; fail).
  all: intros _; replay_simpl; simplify_map_eq.
  all: eexists; rewrite ?append_nil_l; reflexivity.
Qed.

End C3Facts.

(** C3 (as amended).  copyFile writes into the final path itself: no event
    changes any other file, so there is no temporary sibling and no rename.
    At every moment of the copy the final path holds what it held before, or
    a prefix of the bytes of the source: first the empty file made by
    os.Create, then the bytes written so far.  It holds all the bytes once
    copyFile has returned nil. *)
Theorem C3_copyFile_writes_in_place
    (P : Platform) (E : Env) (fromFilePath toFilePath : string) (st : State)
    (x : File) (evs : list event) :
  fromFilePath <> toFilePath ->
  fs st !! fromFilePath = Some x ->
  log (copyFile P E fromFilePath toFilePath st).2 = log st ++ evs ->
  Forall (fun ev => written ev = None \/ written ev = Some toFilePath) evs /\
  (forall n,
      replay (take n evs) (fs st) !! toFilePath = fs st !! toFilePath \/
      exists d m,
        replay (take n evs) (fs st) !! toFilePath = Some {| contents := d; perm := m |} /\
        isPrefixOf d (contents x)) /\
  ((copyFile P E fromFilePath toFilePath st).1 = Ok tt ->
   exists m,
     fs (copyFile P E fromFilePath toFilePath st).2 !! toFilePath =
       Some {| contents := contents x; perm := m |}).
Proof.
  intros Hne Hx Hlog.
  destruct (copyFile_spec P E fromFilePath toFilePath st) as (evs' & Hlog' & Hfs & HQ).
  rewrite Hlog in Hlog'. apply app_inv_head in Hlog'. subst evs'.
  destruct (copyFile_states P fromFilePath toFilePath (fs st) x _ evs Hne Hx HQ)
    as (Hstates & Hdone & Hwritten).
  split; [exact Hwritten|]. split; [exact Hstates|].
  rewrite Hfs. exact Hdone.
Qed.

Lemma C3_copyFile_writes_in_place_witness :
  Forall (fun ev => written ev = None \/ written ev = Some Demo.cachePath)
    (log (copyFile Demo.linux Demo.release "/tmp/bufisk1" Demo.cachePath
            (init Demo.downloaded)).2) /\
  exists m,
    fs (copyFile Demo.linux Demo.release "/tmp/bufisk1" Demo.cachePath
          (init Demo.downloaded)).2 !! Demo.cachePath =
      Some {| contents := "ELF"; perm := m |}.
Proof.
  destruct (C3_copyFile_writes_in_place Demo.linux Demo.release "/tmp/bufisk1"
              Demo.cachePath (init Demo.downloaded)
              {| contents := "ELF"; perm := 384 |}
              (log (copyFile Demo.linux Demo.release "/tmp/bufisk1" Demo.cachePath
                      (init Demo.downloaded)).2))
    as (Hw & _ & Hdone).
  - vm_compute. discriminate.
  - vm_compute. reflexivity.
  - reflexivity.
  - split; [exact Hw|]. apply Hdone. vm_compute. reflexivity.
Defined.

(** C3, the claim as stated fails: the copy creates the final cache path
    first and fills it afterwards.  After the third event of copyFile the
    cache path is visible with no bytes in it, while the artifact has three;
    and a copy that fails half way returns its error and leaves the partial
    file at the cache path. *)
Lemma C3_partial_file_visible_at_cache_path :
  let evs := log (copyFile Demo.linux Demo.release "/tmp/bufisk1" Demo.cachePath
                    (init Demo.downloaded)).2 in
  evs = [ EvMkdirAll "/home/u/.cache/bufisk/Linux/x86_64/releases/buf/1.28.1/bin";
          EvOpen "/tmp/bufisk1"; EvCreate Demo.cachePath;
          EvWrite Demo.cachePath "ELF"; EvClose Demo.cachePath;
          EvClose "/tmp/bufisk1" ] /\
  Demo.downloaded !! Demo.cachePath = None /\
  replay (take 3 evs) Demo.downloaded !! Demo.cachePath =
    Some {| contents := ""; perm := 438 |} /\
  replay evs Demo.downloaded !! Demo.cachePath =
    Some {| contents := "ELF"; perm := 438 |} /\
  copyFile Demo.linux Demo.diskFull "/tmp/bufisk1" Demo.cachePath (init Demo.downloaded)
    = (Err (ErrLib "no space left on device"),
       (copyFile Demo.linux Demo.diskFull "/tmp/bufisk1" Demo.cachePath
          (init Demo.downloaded)).2) /\
  fs (copyFile Demo.linux Demo.diskFull "/tmp/bufisk1" Demo.cachePath
        (init Demo.downloaded)).2 !! Demo.cachePath =
    Some {| contents := "EL"; perm := 438 |}.
Proof. vm_compute. repeat split. Qed.

(** ** Version resolution *)

Section LoopFacts.
Context (P : Platform) (E : Env).

Lemma ancestor_Dir (dir : string) (j : nat) :
  ancestor P (filepath_Dir P dir) j = ancestor P dir (S j).
Proof. unfold ancestor. symmetry. apply Nat.iter_succ_r. Qed.

Lemma versionFileAt_Dir (dir : string) (j : nat) :
  versionFileAt P (filepath_Dir P dir) j = versionFileAt P dir (S j).
Proof. unfold versionFileAt. rewrite ancestor_Dir. reflexivity. Qed.

Lemma readsOf_app (a b : list event) : readsOf (a ++ b) = readsOf a ++ readsOf b.
Proof. apply omap_app. Qed.

(** The loop passes over every level whose read fails and returns what
    validation says of the first file it reads. *)
Lemma loop_first_read (k : nat) :
  forall (fuel : nat) (cur : string) (st : State) (x : File),
    (k < fuel)%nat ->
    (forall j, (j < k)%nat ->
       isErr (query E (OpReadFile (versionFileAt P cur j)) (fs st)
                (versionFileAt P cur j)) = true /\
       ancestor P cur j <> PathSeparator P) ->
    query E (OpReadFile (versionFileAt P cur k)) (fs st) (versionFileAt P cur k) = inr x ->
    exists evs,
      getBufVersionLoop P E fuel cur st =
        (match validateBufVersion (GoStrings.TrimSpace (contents x))
                 (versionFileAt P cur k) with
         | inr v => Ok v
         | inl e => Err e
         end,
         {| fs := fs st; log := log st ++ evs |}) /\
      readsOf evs = map (versionFileAt P cur) (seq 0 (S k)).
Proof.
  induction k as [|k IH]; intros fuel cur st x Hfuel Hbelow Hread;
    (destruct fuel as [|fuel]; [lia|]).
  - exists [EvReadFile (versionFileAt P cur 0) None]. split; [|reflexivity].
    cbn [getBufVersionLoop]. unfold attempt, os_ReadFile, getFS, bind.
    change (filepath_Join P [cur; bufVersionFileName]) with (versionFileAt P cur 0).
    rewrite Hread. unfold emit, ret, liftSum. cbn.
    destruct (validateBufVersion _ _); reflexivity.
  - destruct (Hbelow 0%nat ltac:(lia)) as [Herr Hsep].
    destruct (query E (OpReadFile (versionFileAt P cur 0)) (fs st)
                (versionFileAt P cur 0)) as [e|] eqn:Hq; [|discriminate].
    destruct (IH fuel (filepath_Dir P cur)
                {| fs := fs st; log := log st ++ [EvReadFile (versionFileAt P cur 0) (Some e)] |}
                x ltac:(lia)) as (evs & Hrun & Hreads).
    + intros j Hj. rewrite versionFileAt_Dir, ancestor_Dir. apply Hbelow. lia.
    + rewrite versionFileAt_Dir. exact Hread.
    + exists (EvReadFile (versionFileAt P cur 0) (Some e) :: evs). split.
      * cbn [getBufVersionLoop]. unfold attempt, os_ReadFile, getFS, bind.
        change (filepath_Join P [cur; bufVersionFileName]) with (versionFileAt P cur 0).
        rewrite Hq. unfold emit, fail. cbn [fst snd].
        change (ancestor P cur 0) with cur in Hsep.
        apply String.eqb_neq in Hsep. rewrite Hsep.
        change (apply_event (EvReadFile (versionFileAt P cur 0) (Some e)) (fs st))
          with (fs st).
        cbn [fs log] in Hrun. rewrite Hrun, versionFileAt_Dir.
        rewrite <- app_assoc. reflexivity.
      * change (readsOf (EvReadFile (versionFileAt P cur 0) (Some e) :: evs))
          with (versionFileAt P cur 0 :: readsOf evs).
        rewrite Hreads.
        change (seq 0 (S (S k))) with (0%nat :: seq 1 (S k)).
        rewrite <- (seq_shift (S k) 0), map_cons, map_map. f_equal.
        apply map_ext. intros j. apply versionFileAt_Dir.
Qed.

Lemma getBufVersion_first_read (fuel k : nat) (st : State) (x : File) :
  environ E useBufVersionEnvKey = "" ->
  fault E OpGetwd = None ->
  (k < fuel)%nat ->
  firstReadAt P E (fs st) k x ->
  exists evs,
    getBufVersion P E fuel st =
      (match validateBufVersion (GoStrings.TrimSpace (contents x))
               (versionFileAt P (cwd E) k) with
       | inr v => Ok v
       | inl e => Err e
       end,
       {| fs := fs st; log := log st ++ evs |}) /\
  readsOf evs = map (versionFileAt P (cwd E)) (seq 0 (S k)).
Proof.
  intros Henv Hwd Hfuel [Hbelow Hread].
  destruct (loop_first_read k fuel (cwd E)
              {| fs := fs st;
                 log := (log st ++ [EvGetenv useBufVersionEnvKey]) ++ [EvGetwd] |}
              x Hfuel Hbelow Hread) as (evs & Hrun & Hreads).
  exists (EvGetenv useBufVersionEnvKey :: EvGetwd :: evs). split; [|exact Hreads].
  unfold getBufVersion, os_Getenv, os_Getwd, bind, emit, ret.
  rewrite Henv, Hwd. cbn [String.eqb negb fst snd].
  cbn [fs log] in *.
  change (apply_event EvGetwd (apply_event (EvGetenv useBufVersionEnvKey) (fs st)))
    with (fs st).
  rewrite Hrun.
  rewrite <- !app_assoc. reflexivity.
Qed.

Lemma getBufVersion_override (fuel : nat) (st : State) :
  environ E useBufVersionEnvKey <> "" ->
  getBufVersion P E fuel st =
    (match validateBufVersion (environ E useBufVersionEnvKey) useBufVersionEnvKey with
     | inr v => Ok v
     | inl e => Err e
     end,
     {| fs := fs st; log := log st ++ [EvGetenv useBufVersionEnvKey] |}).
Proof.
  intros Henv. apply String.eqb_neq in Henv.
  unfold getBufVersion, os_Getenv, bind, emit, ret.
  rewrite Henv. cbn [negb].
  change (apply_event (EvGetenv useBufVersionEnvKey) (fs st)) with (fs st).
  unfold liftSum. destruct (validateBufVersion _ _); reflexivity.
Qed.

End LoopFacts.

(** C8.  With no override, when the reads of the version file fail at the
    levels below level k, whatever the error (absent, permission denied),
    and succeed at level k, getBufVersion reads exactly the levels 0 to k
    and returns what validation says of the trimmed contents of the file at
    level k: the contents when they are accepted, and otherwise the
    invalid-version error naming that file, without reading any ancestor
    above it. *)
Theorem C8_read_errors_skipped_first_file_decides
    (P : Platform) (E : Env) (fuel k : nat) (st : State) (x : File) :
  environ E useBufVersionEnvKey = "" ->
  fault E OpGetwd = None ->
  (k < fuel)%nat ->
  firstReadAt P E (fs st) k x ->
  let trimmed := GoStrings.TrimSpace (contents x) in
  let source := versionFileAt P (cwd E) k in
  ((VersionFormat.accepted trimmed /\ (getBufVersion P E fuel st).1 = Ok trimmed) \/
   (~ VersionFormat.accepted trimmed /\
    (getBufVersion P E fuel st).1 = Err (ErrInvalidBufVersion source trimmed))) /\
  exists evs,
    log (getBufVersion P E fuel st).2 = log st ++ evs /\
    readsOf evs = map (versionFileAt P (cwd E)) (seq 0 (S k)).
Proof.
  intros Henv Hwd Hfuel Hfirst trimmed source.
  destruct (getBufVersion_first_read P E fuel k st x Henv Hwd Hfuel Hfirst)
    as (evs & Hrun & Hreads).
  rewrite Hrun. cbn [fst snd log]. split; [|exists evs; split; [reflexivity|exact Hreads]].
  fold trimmed source.
  destruct (validateBufVersion trimmed source) as [e|v] eqn:Hv.
  - right. split.
    + intros Hacc. rewrite (validate_accepted _ source Hacc) in Hv. discriminate.
    + f_equal. eapply validate_inl; eassumption.
  - left. destruct (validate_inr _ _ _ Hv) as [-> Hacc]. auto.
Qed.

Lemma C8_read_errors_skipped_first_file_decides_witness :
  (getBufVersion Demo.linux Demo.guarded 8 (init Demo.nested)).1 =
    Err (ErrInvalidBufVersion "/w/.bufversion" "v1.28") /\
  readsOf (log (getBufVersion Demo.linux Demo.guarded 8 (init Demo.nested)).2) =
    ["/w/repo/.bufversion"; "/w/.bufversion"].
Proof.
  destruct (C8_read_errors_skipped_first_file_decides Demo.linux Demo.guarded 8 1
              (init Demo.nested) {| contents := "v1.28
"; perm := 420 |})
    as [[[_ Hok]|[_ Herr]] (evs & Hlog & Hreads)].
  - reflexivity.
  - reflexivity.
  - lia.
  - split.
    + intros j Hj. assert (j = 0%nat) as -> by lia. vm_compute.
      split; [reflexivity|discriminate].
    + vm_compute. reflexivity.
  - vm_compute in Hok. discriminate.
  - split; [exact Herr|]. rewrite Hlog. exact Hreads.
Defined.

(** ** Trimming *)

Module TrimFacts.
Import GoStrings VersionFormat.

Lemma rev_app_append (a t : string) :
  String.rev_app a t = String.rev_app a "" +:+ t.
Proof.
  revert t. induction a as [|c a IH]; intros t; cbn [String.rev_app].
  - rewrite append_nil_l. reflexivity.
  - rewrite (IH (String c t)), (IH (String c "")), append_assoc.
    rewrite append_cons, append_nil_l. reflexivity.
Qed.

Lemma rev_cons (c : ascii) (s : string) :
  String.rev (String c s) = String.rev s +:+ String c "".
Proof. unfold String.rev. cbn [String.rev_app]. apply rev_app_append. Qed.

Lemma rev_append (a b : string) :
  String.rev (a +:+ b) = String.rev b +:+ String.rev a.
Proof.
  induction a as [|c a IH].
  - rewrite append_nil_l. change (String.rev "") with "". rewrite append_nil_r.
    reflexivity.
  - rewrite append_cons, !rev_cons, IH, append_assoc. reflexivity.
Qed.

Lemma rev_involutive (s : string) : String.rev (String.rev s) = s.
Proof.
  induction s as [|c s IH]; [reflexivity|].
  rewrite rev_cons, rev_append, IH. reflexivity.
Qed.

Ltac each_rune H :=
  vm_compute in H;
  repeat (destruct H as [<-|H]; [rewrite ?append_cons, ?append_nil_l; reflexivity|]);
  destruct H.

Lemma trimLeft_rune (r s : string) :
  In r spaceRunes -> trimLeft (r +:+ s) = trimLeft s.
Proof. intros H. each_rune H. Qed.

Lemma trimLeftRev_rune (r t : string) :
  In r spaceRunes -> trimLeftRev (String.rev r +:+ t) = trimLeftRev t.
Proof. intros H. each_rune H. Qed.

Lemma trimLeft_whitespace (l s : string) :
  whitespace l -> trimLeft (l +:+ s) = trimLeft s.
Proof.
  induction 1 as [|r l Hr _ IH]; [rewrite append_nil_l; reflexivity|].
  rewrite append_assoc, trimLeft_rune; assumption.
Qed.

Lemma trimLeftRev_whitespace (r t : string) :
  whitespace r -> trimLeftRev (String.rev r +:+ t) = trimLeftRev t.
Proof.
  intros H. revert t. induction H as [|x r Hx _ IH]; intros t.
  - change (String.rev "") with "". rewrite append_nil_l. reflexivity.
  - rewrite rev_append, append_assoc, IH. apply trimLeftRev_rune. assumption.
Qed.

Ltac no_rune H :=
  unfold unicodeSpaces in H;
  repeat (apply elem_of_cons in H as [H|H]; [inversion H; lia|]);
  apply elem_of_nil in H; destruct H.

(** A byte below 128 neither starts nor ends the encoding of a space
    outside ASCII. *)
Lemma isSpace2_low (a b : ascii) :
  (nat_of_ascii a < 128)%nat -> isSpace2 a b = false /\ isSpace2 b a = false.
Proof.
  intros Ha. unfold isSpace2.
  split; apply bool_decide_eq_false_2; intros H; no_rune H.
Qed.

Lemma isSpace3_low (a b c : ascii) :
  (nat_of_ascii a < 128)%nat -> isSpace3 a b c = false /\ isSpace3 c b a = false.
Proof.
  intros Ha. unfold isSpace3.
  split; apply bool_decide_eq_false_2; intros H; no_rune H.
Qed.

Lemma trimLeft_plain (c : ascii) (s : string) :
  asciiSpace c = false -> (nat_of_ascii c < 128)%nat ->
  trimLeft (String c s) = String c s.
Proof.
  intros Hc Hlow. cbn [trimLeft]. rewrite Hc.
  destruct s as [|b [|d s]]; [reflexivity| |].
  - rewrite (proj1 (isSpace2_low c b Hlow)). reflexivity.
  - rewrite (proj1 (isSpace2_low c b Hlow)), (proj1 (isSpace3_low c b d Hlow)).
    reflexivity.
Qed.

Lemma trimLeftRev_plain (c : ascii) (s : string) :
  asciiSpace c = false -> (nat_of_ascii c < 128)%nat ->
  trimLeftRev (String c s) = String c s.
Proof.
  intros Hc Hlow. cbn [trimLeftRev]. rewrite Hc.
  destruct s as [|b [|d s]]; [reflexivity| |].
  - rewrite (proj2 (isSpace2_low c b Hlow)). reflexivity.
  - rewrite (proj2 (isSpace2_low c b Hlow)), (proj2 (isSpace3_low c b d Hlow)).
    reflexivity.
Qed.

Lemma digit_plain (c : ascii) :
  isDigit c || isSign c = true ->
  asciiSpace c = false /\ (nat_of_ascii c < 128)%nat.
Proof.
  destruct c as [[] [] [] [] [] [] [] []]; intros H; vm_compute in H;
    try discriminate H; (split; [reflexivity|apply Nat.ltb_lt; reflexivity]).
Qed.

Lemma allDigits_last (s : string) :
  allDigits s = true -> s <> "" ->
  exists pre d, s = pre +:+ String d "" /\ isDigit d = true.
Proof.
  induction s as [|c s IH]; [congruence|]. cbn [allDigits].
  intros [Hc Hs]%andb_true_iff _. destruct s as [|c' s'].
  - exists "", c. rewrite append_nil_l. auto.
  - destruct (IH Hs ltac:(discriminate)) as (pre & d & -> & Hd).
    exists (String c pre), d. rewrite append_cons. auto.
Qed.

Lemma isGoInt_ends (a : string) :
  isGoInt a = true ->
  (exists c rest, a = String c rest /\ isDigit c || isSign c = true) /\
  (exists pre d, a = pre +:+ String d "" /\ isDigit d = true).
Proof.
  destruct a as [|c rest]; [discriminate|]. cbn [isGoInt].
  intros [[Hne Hall]%andb_true_iff _]%andb_true_iff.
  apply negb_true_iff, String.eqb_neq in Hne.
  destruct (isSign c) eqn:Hsign.
  - split; [exists c, rest; rewrite Hsign, orb_true_r; auto|].
    destruct (allDigits_last rest Hall Hne) as (pre & d & -> & Hd).
    exists (String c pre), d. rewrite append_cons. auto.
  - split; [|apply allDigits_last; assumption].
    exists c, rest. cbn [allDigits] in Hall.
    apply andb_true_iff in Hall as [-> _]. auto.
Qed.

Lemma accepted_ends (v : string) :
  accepted v ->
  (exists c rest, v = String c rest /\ isDigit c || isSign c = true) /\
  (exists pre d, v = pre +:+ String d "" /\ isDigit d = true).
Proof.
  intros (a & b & c & -> & _ & _ & _ & Ha & _ & Hc).
  destruct (isGoInt_ends a Ha) as [(c0 & rest & -> & Hc0) _].
  destruct (isGoInt_ends c Hc) as [_ (pre & d & -> & Hd)].
  cbn [joinDots]. split.
  - exists c0, (rest +:+ "." +:+ b +:+ "." +:+ pre +:+ String d "").
    rewrite append_cons. auto.
  - exists (String c0 rest +:+ "." +:+ b +:+ "." +:+ pre), d.
    rewrite !append_assoc. auto.
Qed.

(** Trimming removes the spaces around an accepted version and nothing
    else. *)
Lemma TrimSpace_padded (l v r : string) :
  accepted v -> whitespace l -> whitespace r ->
  TrimSpace (l +:+ v +:+ r) = v.
Proof.
  intros Hv Hl Hr.
  destruct (accepted_ends v Hv) as [(c & rest & Hhead & Hc) (pre & d & Hlast & Hd)].
  assert (HL : trimLeft (v +:+ r) = v +:+ r).
  { rewrite Hhead, append_cons.
    destruct (digit_plain c Hc). apply trimLeft_plain; assumption. }
  assert (HR : trimLeftRev (String.rev v) = String.rev v).
  { rewrite Hlast, rev_append. change (String.rev (String d "")) with (String d "").
    rewrite append_cons, append_nil_l.
    destruct (digit_plain d) as [? ?]; [rewrite Hd; reflexivity|].
    apply trimLeftRev_plain; assumption. }
  unfold TrimSpace, trimRight.
  rewrite trimLeft_whitespace, HL, rev_append by assumption.
  rewrite trimLeftRev_whitespace, HR by assumption.
  apply rev_involutive.
Qed.

Lemma padded_not_accepted (l v r : string) :
  accepted v -> whitespace l -> whitespace r ->
  l +:+ v +:+ r <> v -> ~ accepted (l +:+ v +:+ r).
Proof.
  intros Hv Hl Hr Hne Hacc. apply Hne.
  rewrite <- (TrimSpace_padded l v r Hv Hl Hr) at 2.
  pose proof (TrimSpace_padded "" _ "" Hacc whitespace_nil whitespace_nil) as H.
  rewrite append_nil_l, append_nil_r in H. symmetry. exact H.
Qed.

Lemma accepted_not_empty (l v r : string) :
  accepted v -> l +:+ v +:+ r <> "".
Proof.
  intros Hv H. destruct (accepted_ends v Hv) as [(c & rest & -> & _) _].
  apply (f_equal String.length) in H.
  rewrite !length_append in H. cbn [String.length] in H. lia.
Qed.

End TrimFacts.

(** C10.  The value of the override variable is validated as it is: a
    well-formed version with spaces around it is rejected with the
    invalid-version error naming the variable.  The contents of a version
    file are trimmed first: the same bytes in the first version file read
    give the version. *)
Theorem C10_override_verbatim_file_trimmed
    (P : Platform) (E1 E2 : Env) (fuel k : nat) (st : State) (x : File)
    (l v r : string) :
  VersionFormat.accepted v -> whitespace l -> whitespace r ->
  l +:+ v +:+ r <> v ->
  environ E1 useBufVersionEnvKey = l +:+ v +:+ r ->
  environ E2 useBufVersionEnvKey = "" ->
  fault E2 OpGetwd = None ->
  (k < fuel)%nat ->
  firstReadAt P E2 (fs st) k x ->
  contents x = l +:+ v +:+ r ->
  (getBufVersion P E1 fuel st).1 =
    Err (ErrInvalidBufVersion useBufVersionEnvKey (l +:+ v +:+ r)) /\
  (getBufVersion P E2 fuel st).1 = Ok v.
Proof.
  intros Hv Hl Hr Hne Henv1 Henv2 Hwd Hfuel Hfirst Hx. split.
  - rewrite getBufVersion_override
      by (rewrite Henv1; apply TrimFacts.accepted_not_empty; assumption).
    rewrite Henv1. cbn [fst].
    destruct (validateBufVersion (l +:+ v +:+ r) useBufVersionEnvKey) as [e|w] eqn:Hval.
    + f_equal. eapply validate_inl; eassumption.
    + destruct (validate_inr _ _ _ Hval) as [_ Hacc].
      destruct (TrimFacts.padded_not_accepted l v r Hv Hl Hr Hne Hacc).
  - destruct (getBufVersion_first_read P E2 fuel k st x Henv2 Hwd Hfuel Hfirst)
      as (evs & Hrun & _).
    rewrite Hrun, Hx, (TrimFacts.TrimSpace_padded l v r Hv Hl Hr). cbn [fst].
    rewrite (validate_accepted v _ Hv). reflexivity.
Qed.

Lemma C10_override_verbatim_file_trimmed_witness :
  (getBufVersion Demo.linux Demo.padded 8 (init Demo.versionFile)).1 =
    Err (ErrInvalidBufVersion "BUF_VERSION" " 1.28.1
") /\
  (getBufVersion Demo.linux Demo.release 8 (init Demo.versionFile)).1 = Ok "1.28.1".
Proof.
  apply (C10_override_verbatim_file_trimmed Demo.linux Demo.padded Demo.release 8 1
           (init Demo.versionFile) {| contents := " 1.28.1
"; perm := 420 |} " " "1.28.1" "
").
  - exists "1", "28", "1". repeat split; reflexivity.
  - apply (whitespace_cons " " ""); [|constructor].
    vm_compute. repeat first [left; reflexivity | right].
  - apply (whitespace_cons "
" ""); [|constructor].
    vm_compute. repeat first [left; reflexivity | right].
  - discriminate.
  - reflexivity.
  - reflexivity.
  - reflexivity.
  - lia.
  - split.
    + intros j Hj. assert (j = 0%nat) as -> by lia. vm_compute.
      split; [reflexivity|discriminate].
    + vm_compute. reflexivity.
  - reflexivity.
Defined.

(** ** More on version resolution *)

Section ResolutionFacts.
Context (P : Platform) (E : Env).

Lemma state_eta (st : State) : {| fs := fs st; log := log st ++ [] |} = st.
Proof. destruct st. cbn. rewrite app_nil_r. reflexivity. Qed.

(** One turn of the loop at a level whose read fails, away from the root. *)
Lemma loop_step_up (fuel : nat) (cur : string) (st : State) (e : error) :
  query E (OpReadFile (versionFileAt P cur 0)) (fs st) (versionFileAt P cur 0) = inl e ->
  cur <> PathSeparator P ->
  getBufVersionLoop P E (S fuel) cur st =
    getBufVersionLoop P E fuel (filepath_Dir P cur)
      {| fs := fs st; log := log st ++ [EvReadFile (versionFileAt P cur 0) (Some e)] |}.
Proof.
  intros Hq Hsep. apply String.eqb_neq in Hsep.
  cbn [getBufVersionLoop]. unfold attempt, os_ReadFile, getFS, bind.
  change (filepath_Join P [cur; bufVersionFileName]) with (versionFileAt P cur 0).
  rewrite Hq. unfold emit, fail. cbn [fst snd]. rewrite Hsep. reflexivity.
Qed.

(** The turn at the root when its read fails. *)
Lemma loop_step_root (fuel : nat) (st : State) (e : error) :
  let cur := PathSeparator P in
  query E (OpReadFile (versionFileAt P cur 0)) (fs st) (versionFileAt P cur 0) = inl e ->
  getBufVersionLoop P E (S fuel) cur st =
    (Err (ErrVersionNotSet useBufVersionEnvKey bufVersionFileName),
     {| fs := fs st; log := log st ++ [EvReadFile (versionFileAt P cur 0) (Some e)] |}).
Proof.
  intros cur Hq.
  cbn [getBufVersionLoop]. unfold attempt, os_ReadFile, getFS, bind.
  change (filepath_Join P [cur; bufVersionFileName]) with (versionFileAt P cur 0).
  rewrite Hq. unfold emit, fail. cbn [fst snd]. rewrite String.eqb_refl. reflexivity.
Qed.

Lemma reads_shift (cur : string) (n : nat) :
  versionFileAt P cur 0 :: map (versionFileAt P (filepath_Dir P cur)) (seq 0 n) =
  map (versionFileAt P cur) (seq 0 (S n)).
Proof.
  change (seq 0 (S n)) with (0%nat :: seq 1 n).
  rewrite <- (seq_shift n 0), map_cons, map_map. f_equal.
  apply map_ext. intros j. apply versionFileAt_Dir.
Qed.

Lemma loop_all_fail (k : nat) :
  forall (fuel : nat) (cur : string) (st : State),
    (k < fuel)%nat ->
    (forall j, (j <= k)%nat ->
       isErr (query E (OpReadFile (versionFileAt P cur j)) (fs st)
                (versionFileAt P cur j)) = true) ->
    (forall j, (j < k)%nat -> ancestor P cur j <> PathSeparator P) ->
    ancestor P cur k = PathSeparator P ->
    exists evs,
      getBufVersionLoop P E fuel cur st =
        (Err (ErrVersionNotSet useBufVersionEnvKey bufVersionFileName),
         {| fs := fs st; log := log st ++ evs |}) /\
      readsOf evs = map (versionFileAt P cur) (seq 0 (S k)).
Proof.
  induction k as [|k IH]; intros fuel cur st Hfuel Hfail Hbelow Hroot;
    (destruct fuel as [|fuel]; [lia|]);
    pose proof (Hfail 0%nat ltac:(lia)) as H0;
    destruct (query E (OpReadFile (versionFileAt P cur 0)) (fs st)
                (versionFileAt P cur 0)) as [e|] eqn:Hq; try discriminate.
  - change (ancestor P cur 0) with cur in Hroot. subst cur.
    exists [EvReadFile (versionFileAt P (PathSeparator P) 0) (Some e)].
    split; [|reflexivity]. apply loop_step_root. exact Hq.
  - rewrite (loop_step_up fuel cur st e Hq (Hbelow 0%nat ltac:(lia))).
    destruct (IH fuel (filepath_Dir P cur)
                {| fs := fs st;
                   log := log st ++ [EvReadFile (versionFileAt P cur 0) (Some e)] |}
                ltac:(lia)) as (evs & Hrun & Hreads).
    + intros j Hj. rewrite versionFileAt_Dir. apply Hfail. lia.
    + intros j Hj. rewrite ancestor_Dir. apply Hbelow. lia.
    + rewrite ancestor_Dir. exact Hroot.
    + exists (EvReadFile (versionFileAt P cur 0) (Some e) :: evs). split.
      * rewrite Hrun. cbn [fs log]. rewrite <- app_assoc. reflexivity.
      * change (readsOf (EvReadFile (versionFileAt P cur 0) (Some e) :: evs))
          with (versionFileAt P cur 0 :: readsOf evs).
        rewrite Hreads. apply reads_shift.
Qed.

Lemma loop_never_returns (fuel : nat) :
  forall (cur : string) (st : State),
    (forall j,
       isErr (query E (OpReadFile (versionFileAt P cur j)) (fs st)
                (versionFileAt P cur j)) = true /\
       ancestor P cur j <> PathSeparator P) ->
    exists evs,
      getBufVersionLoop P E fuel cur st =
        (OutOfFuel, {| fs := fs st; log := log st ++ evs |}) /\
      readsOf evs = map (versionFileAt P cur) (seq 0 fuel).
Proof.
  induction fuel as [|fuel IH]; intros cur st Hall.
  - exists []. rewrite state_eta. split; reflexivity.
  - destruct (Hall 0%nat) as [H0 Hsep].
    destruct (query E (OpReadFile (versionFileAt P cur 0)) (fs st)
                (versionFileAt P cur 0)) as [e|] eqn:Hq; [|discriminate].
    rewrite (loop_step_up fuel cur st e Hq Hsep).
    destruct (IH (filepath_Dir P cur)
                {| fs := fs st;
                   log := log st ++ [EvReadFile (versionFileAt P cur 0) (Some e)] |})
      as (evs & Hrun & Hreads).
    + intros j. rewrite versionFileAt_Dir, ancestor_Dir. apply Hall.
    + exists (EvReadFile (versionFileAt P cur 0) (Some e) :: evs). split.
      * rewrite Hrun. cbn [fs log]. rewrite <- app_assoc. reflexivity.
      * change (readsOf (EvReadFile (versionFileAt P cur 0) (Some e) :: evs))
          with (versionFileAt P cur 0 :: readsOf evs).
        rewrite Hreads. apply reads_shift.
Qed.

Lemma ancestor_fixed (dir : string) (k : nat) :
  filepath_Dir P (ancestor P dir k) = ancestor P dir k ->
  forall j, (k <= j)%nat -> ancestor P dir j = ancestor P dir k.
Proof.
  intros Hfix j Hj. induction Hj as [|j _ IH]; [reflexivity|].
  change (ancestor P dir (S j)) with (filepath_Dir P (ancestor P dir j)).
  rewrite IH. exact Hfix.
Qed.

(** getBufVersion with no override, up to the loop. *)
Lemma getBufVersion_loop (fuel : nat) (st : State) :
  environ E useBufVersionEnvKey = "" ->
  fault E OpGetwd = None ->
  getBufVersion P E fuel st =
    getBufVersionLoop P E fuel (cwd E)
      {| fs := fs st; log := log st ++ [EvGetenv useBufVersionEnvKey; EvGetwd] |}.
Proof.
  intros Henv Hwd.
  unfold getBufVersion, os_Getenv, os_Getwd, bind, emit, ret.
  rewrite Henv, Hwd. cbn [String.eqb negb fst snd fs log].
  change (apply_event EvGetwd (apply_event (EvGetenv useBufVersionEnvKey) (fs st)))
    with (fs st).
  rewrite <- app_assoc. reflexivity.
Qed.

End ResolutionFacts.

(** With the override variable set, getBufVersion looks at nothing else:
    it neither asks for the working directory nor reads a version file, and
    returns what validation says of the value, an invalid value included. *)
Theorem override_takes_precedence
    (P : Platform) (E : Env) (fuel : nat) (st : State) :
  environ E useBufVersionEnvKey <> "" ->
  getBufVersion P E fuel st =
    (match validateBufVersion (environ E useBufVersionEnvKey) useBufVersionEnvKey with
     | inr v => Ok v
     | inl e => Err e
     end,
     {| fs := fs st; log := log st ++ [EvGetenv useBufVersionEnvKey] |}) /\
  readsOf (log (getBufVersion P E fuel st).2) = readsOf (log st).
Proof.
  intros Henv. rewrite (getBufVersion_override P E fuel st Henv).
  split; [reflexivity|]. cbn [snd log].
  rewrite readsOf_app. apply app_nil_r.
Qed.

Lemma override_takes_precedence_witness :
  (getBufVersion Demo.linux Demo.padded 0 (init Demo.nested)).1 =
    Err (ErrInvalidBufVersion "BUF_VERSION" " 1.28.1
") /\
  readsOf (log (getBufVersion Demo.linux Demo.padded 0 (init Demo.nested)).2) = [].
Proof.
  destruct (override_takes_precedence Demo.linux Demo.padded 0 (init Demo.nested))
    as [Hrun Hreads].
  - discriminate.
  - split; [rewrite Hrun; reflexivity|exact Hreads].
Defined.

(** With no override, when the version file can be read at no level from
    the working directory up to the root, getBufVersion reads each of these
    levels once, the root last, and fails with the error that names the
    variable and the file. *)
Theorem no_version_file_up_to_root
    (P : Platform) (E : Env) (fuel k : nat) (st : State) :
  environ E useBufVersionEnvKey = "" ->
  fault E OpGetwd = None ->
  (k < fuel)%nat ->
  (forall j, (j <= k)%nat ->
     isErr (query E (OpReadFile (versionFileAt P (cwd E) j)) (fs st)
              (versionFileAt P (cwd E) j)) = true) ->
  (forall j, (j < k)%nat -> ancestor P (cwd E) j <> PathSeparator P) ->
  ancestor P (cwd E) k = PathSeparator P ->
  (getBufVersion P E fuel st).1 = Err (ErrVersionNotSet "BUF_VERSION" ".bufversion") /\
  exists evs,
    (getBufVersion P E fuel st).2 = {| fs := fs st; log := log st ++ evs |} /\
    readsOf evs = map (versionFileAt P (cwd E)) (seq 0 (S k)).
Proof.
  intros Henv Hwd Hfuel Hfail Hbelow Hroot.
  rewrite (getBufVersion_loop P E fuel st Henv Hwd).
  destruct (loop_all_fail P E k fuel (cwd E)
              {| fs := fs st; log := log st ++ [EvGetenv useBufVersionEnvKey; EvGetwd] |}
              Hfuel Hfail Hbelow Hroot) as (evs & Hrun & Hreads).
  rewrite Hrun. split; [reflexivity|].
  exists (EvGetenv useBufVersionEnvKey :: EvGetwd :: evs). cbn [snd fs log].
  split; [|exact Hreads].
  rewrite <- app_assoc. reflexivity.
Qed.

Lemma no_version_file_up_to_root_witness :
  (getBufVersion Demo.linux Demo.release 8 (init ∅)).1 =
    Err (ErrVersionNotSet "BUF_VERSION" ".bufversion") /\
  readsOf (log (getBufVersion Demo.linux Demo.release 8 (init ∅)).2) =
    ["/w/repo/.bufversion"; "/w/.bufversion"; "/.bufversion"].
Proof.
  destruct (no_version_file_up_to_root Demo.linux Demo.release 8 2 (init ∅))
    as (Hres & evs & Hst & Hreads).
  - reflexivity.
  - reflexivity.
  - lia.
  - intros j Hj.
    assert (j = 0 \/ j = 1 \/ j = 2)%nat as [->|[->| ->]] by lia; vm_compute; reflexivity.
  - intros j Hj.
    assert (j = 0 \/ j = 1)%nat as [->| ->] by lia; vm_compute; discriminate.
  - vm_compute. reflexivity.
  - split; [exact Hres|]. rewrite Hst. exact Hreads.
Defined.

(** The loop of getBufVersion stops only at a readable version file or at a
    directory equal to the path separator.  Where filepath.Dir reaches a
    directory that is its own parent and is not the separator (the root of a
    drive on windows), and no version file can be read from the working
    directory up to it, the loop never ends: whatever the fuel, it is used
    up, with one read for each turn. *)
Theorem resolution_never_ends_above_drive_root
    (P : Platform) (E : Env) (k : nat) (st : State) :
  environ E useBufVersionEnvKey = "" ->
  fault E OpGetwd = None ->
  filepath_Dir P (ancestor P (cwd E) k) = ancestor P (cwd E) k ->
  (forall j, (j <= k)%nat ->
     isErr (query E (OpReadFile (versionFileAt P (cwd E) j)) (fs st)
              (versionFileAt P (cwd E) j)) = true /\
     ancestor P (cwd E) j <> PathSeparator P) ->
  forall fuel,
    (getBufVersion P E fuel st).1 = OutOfFuel /\
    length (readsOf (log (getBufVersion P E fuel st).2)) =
      (length (readsOf (log st)) + fuel)%nat.
Proof.
  intros Henv Hwd Hfix Hlow fuel.
  rewrite (getBufVersion_loop P E fuel st Henv Hwd).
  destruct (loop_never_returns P E fuel (cwd E)
              {| fs := fs st; log := log st ++ [EvGetenv useBufVersionEnvKey; EvGetwd] |})
    as (evs & Hrun & Hreads).
  - intros j. destruct (Nat.le_gt_cases j k) as [Hj|Hj]; [apply Hlow; exact Hj|].
    unfold versionFileAt.
    rewrite (ancestor_fixed P (cwd E) k Hfix j ltac:(lia)).
    apply (Hlow k). lia.
  - rewrite Hrun. split; [reflexivity|]. cbn [snd fs log].
    rewrite !readsOf_app, Hreads, !length_app, length_map, length_seq.
    cbn. lia.
Qed.

Lemma resolution_never_ends_above_drive_root_witness :
  (getBufVersion DemoWindows.windows DemoWindows.desktop 64 (init ∅)).1 = OutOfFuel /\
  nth 63 (readsOf (log (getBufVersion DemoWindows.windows DemoWindows.desktop 64
                          (init ∅)).2)) "" = "C:\.bufversion".
Proof.
  destruct (resolution_never_ends_above_drive_root DemoWindows.windows
              DemoWindows.desktop 2 (init ∅)) with (fuel := 64%nat) as [Hres _].
  - reflexivity.
  - reflexivity.
  - vm_compute. reflexivity.
  - intros j Hj.
    assert (j = 0 \/ j = 1 \/ j = 2)%nat as [->|[->| ->]] by lia;
      vm_compute; (split; [reflexivity|discriminate]).
  - split; [exact Hres|]. vm_compute. reflexivity.
Defined.

(** ** Installation *)

Section InstallFacts.
Context (P : Platform) (E : Env).

Lemma bind_Ok {A B} (m : M A) (k : A -> M B) (st : State) (b : B) :
  (bind m k st).1 = Ok b ->
  exists a, (m st).1 = Ok a /\ (k a (m st).2).1 = Ok b.
Proof.
  unfold bind. destruct (m st) as [[a|e|] st1]; cbn [fst snd]; try discriminate.
  intros H. exists a. auto.
Qed.

Lemma defer_Ok {A} (cleanup : M unit) (wrap : error -> error) (body : M A)
    (st : State) (a : A) :
  (defer cleanup (ifRetErrNil wrap) body st).1 = Ok a -> (body st).1 = Ok a.
Proof.
  unfold defer. destruct (body st) as [[b|e|] st1]; cbn [fst snd]; try discriminate.
  - destruct (cleanup st1) as [[u|e|] st2]; cbn; congruence.
  - destruct (cleanup st1) as [[u|e'|] st2]; cbn; congruence.
Qed.

Lemma wrapErr_Ok {A} (wrap : error -> error) (m : M A) (st : State) (a : A) :
  (wrapErr wrap m st).1 = Ok a -> (m st).1 = Ok a.
Proof.
  unfold wrapErr. destruct (m st) as [[b|e|] st1]; cbn; congruence.
Qed.

Lemma verifySha256TxtData_Ok (data sig : string) (st : State) :
  (verifySha256TxtData P data sig st).1 = Ok tt -> verifies P data sig.
Proof.
  unfold verifySha256TxtData, verifies, bind, liftSum, fail, ret, emit.
  destruct (PublicKey_UnmarshalText P minisignPublicKey) as [e|pk] eqn:Hpk;
    cbn [fst snd]; [discriminate|].
  destruct (Signature_UnmarshalText P sig) as [e|s] eqn:Hs;
    cbn [fst snd]; [discriminate|].
  destruct (Signature_KeyID P s =? PublicKey_ID P pk) eqn:Hid;
    cbn [negb fst snd]; [|discriminate].
  destruct (Signature_MarshalText P s) as [e|raw] eqn:Hraw;
    cbn [fst snd]; [discriminate|].
  destruct (minisign_Verify P pk data raw) eqn:Hv;
    cbn [negb fst snd]; [|discriminate].
  intros _. exists pk, s, raw. apply Z.eqb_eq in Hid. auto.
Qed.

Lemma downloadData_Ok (url data : string) (st : State) :
  (downloadData E url st).1 = Ok data ->
  http E url = Response 200 {| avail := data; rerr := None |} None.
Proof.
  intros Hr. destruct (downloadData_spec E url st) as (evs & _ & _ & HQ).
  rewrite Hr in HQ. unfold downloadDataQ in HQ. hcases. assumption.
Qed.

Lemma install_verified (v p : string) (st : State) :
  (downloadBufToFilePath P E v p st).1 = Ok tt ->
  exists sha256TxtData sig,
    http E (getFileURL v "sha256.txt") =
      Response 200 {| avail := sha256TxtData; rerr := None |} None /\
    http E (getFileURL v "sha256.txt.minisig") =
      Response 200 {| avail := sig; rerr := None |} None /\
    verifies P sha256TxtData sig.
Proof.
  unfold downloadBufToFilePath. intros H.
  apply bind_Ok in H as (t & _ & H).
  apply defer_Ok in H.
  apply bind_Ok in H as (data & Hdata & H).
  apply bind_Ok in H as (sig & Hsig & H).
  apply bind_Ok in H as ([] & Hv & _).
  exists data, sig.
  split; [eapply downloadData_Ok; eassumption|].
  split; [eapply downloadData_Ok; eassumption|].
  eapply verifySha256TxtData_Ok; eassumption.
Qed.

Lemma pipeline_installs_artifact (v p : string) (f : gmap string File)
    (devs : list event) :
  pipelineQ P E v p f (Ok tt) devs ->
  exists bytes sha256TxtData h,
    http E (getFileURL v (fileNameOf P)) =
      Response 200 {| avail := bytes; rerr := None |} None /\
    http E (getFileURL v "sha256.txt") =
      Response 200 {| avail := sha256TxtData; rerr := None |} None /\
    getSha256HexForTxtData sha256TxtData (fileNameOf P) = inr h /\
    sha256Hex P bytes = h /\
    (tempName E <> p ->
     replay devs f !! p = Some {| contents := bytes; perm := 448 |} /\
     replay devs f !! tempName E = None).
Proof.
  intros H. unfold pipelineQ, fileNameOf in *. hcases.
  all: cbn [ifRetErrNil] in *.
  match goal with
  | H : context [EvWrite (tempName E) ?x], Hs : getSha256HexForTxtData ?d _ = inr ?s |- _ =>
      exists x, d, s
  end.
  replay_simpl_all. simplify_map_eq.
  rewrite append_nil_l in *.
  match goal with
  | H : String.eqb _ _ = true |- _ => apply String.eqb_eq in H
  end.
  split; [assumption|]. split; [assumption|]. split; [assumption|].
  split; [assumption|].
  intros Hne.
  match goal with
  | H : tempName E <> p -> _ |- _ => specialize (H Hne); subst
  end.
  assert (Hne' : p <> tempName E) by congruence.
  split; simplify_map_eq; reflexivity.
Qed.

End InstallFacts.

(** verifySha256TxtData returns nil exactly when the embedded public key
    and the signature parse, the key identifier of the signature is the one
    of the key, the signature marshals back to text, and minisign.Verify
    accepts that text over the manifest; the state it runs in plays no
    part. *)
Theorem verification_passes_exactly_when_minisign_accepts
    (P : Platform) (sha256TxtData sha256TxtMinisigData : string) (st : State) :
  (verifySha256TxtData P sha256TxtData sha256TxtMinisigData st).1 = Ok tt <->
  verifies P sha256TxtData sha256TxtMinisigData.
Proof.
  split; [apply verifySha256TxtData_Ok|].
  intros (pk & s & raw & Hpk & Hs & Hid & Hraw & Hv).
  unfold verifySha256TxtData, bind, liftSum, fail, ret, emit.
  rewrite Hpk, Hs. cbn [fst snd]. rewrite Hid, Z.eqb_refl. cbn [negb].
  rewrite Hraw. cbn [fst snd]. rewrite Hv. reflexivity.
Qed.

(** When downloadBufToFilePath returns nil, the three downloads were
    answered 200 and read to the end, the manifest served passed
    verifySha256TxtData against the signature served, the manifest lists a
    digest for the file name of the platform, and that digest is the digest
    of the artifact served.  Unless the temporary name is the cache path
    itself, the cache path then holds exactly the artifact, with mode 0700,
    and the temporary file is gone. *)
Theorem installed_binary_is_the_verified_one
    (P : Platform) (E : Env) (v p : string) (st : State) :
  (downloadBufToFilePath P E v p st).1 = Ok tt ->
  exists bytes sha256TxtData sig h,
    http E (getFileURL v (fileNameOf P)) =
      Response 200 {| avail := bytes; rerr := None |} None /\
    http E (getFileURL v "sha256.txt") =
      Response 200 {| avail := sha256TxtData; rerr := None |} None /\
    http E (getFileURL v "sha256.txt.minisig") =
      Response 200 {| avail := sig; rerr := None |} None /\
    verifies P sha256TxtData sig /\
    getSha256HexForTxtData sha256TxtData (fileNameOf P) = inr h /\
    sha256Hex P bytes = h /\
    (tempName E <> p ->
     fs (downloadBufToFilePath P E v p st).2 !! p =
       Some {| contents := bytes; perm := 448 |} /\
     fs (downloadBufToFilePath P E v p st).2 !! tempName E = None).
Proof.
  intros Hok.
  destruct (install_verified P E v p st Hok) as (data & sig & Hdata & Hsig & Hver).
  destruct (downloadBufToFilePath_spec P E v p st) as (evs & _ & Hfs & HQ).
  rewrite Hok in HQ.
  destruct (pipeline_installs_artifact P E v p (fs st) evs HQ)
    as (bytes & data' & h & Hbytes & Hdata' & Hh & Hsum & Hinst).
  assert (data' = data) as -> by congruence.
  exists bytes, data, sig, h. rewrite Hfs. auto 10.
Qed.

Lemma installed_binary_is_the_verified_one_witness :
  exists bytes,
    sha256Hex Demo.linux bytes = "#ELF" /\
    fs (downloadBufToFilePath Demo.linux Demo.release "1.28.1" Demo.cachePath
          (init Demo.cached)).2 !! Demo.cachePath =
      Some {| contents := bytes; perm := 448 |}.
Proof.
  destruct (installed_binary_is_the_verified_one Demo.linux Demo.release "1.28.1"
              Demo.cachePath (init Demo.cached))
    as (bytes & data & sig & h & Hbytes & Hdata & _ & _ & Hh & Hsum & Hinst).
  - vm_compute. reflexivity.
  - exists bytes. split.
    + rewrite Hsum. vm_compute in Hdata. injection Hdata as <-.
      vm_compute in Hh. injection Hh as <-. reflexivity.
    + apply Hinst. vm_compute. discriminate.
Defined.

(** ** Downloads, digests and copies *)

(** downloadData returns data exactly when the request is answered with
    status 200, the body is read to its end without error and closes
    without error, and data is then the whole body: a partial body is never
    returned. *)
Theorem downloadData_returns_whole_body_or_fails
    (E : Env) (url data : string) (st : State) :
  (downloadData E url st).1 = Ok data <->
  http E url = Response 200 {| avail := data; rerr := None |} None.
Proof.
  split; [apply downloadData_Ok|].
  intros H. unfold downloadData, download. rewrite H. reflexivity.
Qed.

(** download with an answer whose status is not 200: the callback that
    processes the body is not run (so downloadTempFile creates no file), the
    error names the address and the status, and an error of closing the body
    does not replace it. *)
Theorem other_status_runs_no_callback
    {A} (E : Env) (url : string) (processResponseBody : Reader -> M A) (st : State)
    (status : Z) (body : Reader) (closeErr : option error) :
  http E url = Response status body closeErr ->
  status <> 200 ->
  download E url processResponseBody st =
    (Err (ErrHTTPStatus url status),
     {| fs := fs st; log := log st ++ [EvHTTPGet url; EvHTTPDone url false] |}).
Proof.
  intros H Hs. apply Z.eqb_neq in Hs.
  unfold download. rewrite H.
  unfold bind, emit, traced, defer, fail, ret. rewrite Hs. cbn [negb].
  destruct closeErr; cbn; rewrite <- app_assoc; reflexivity.
Qed.

Lemma other_status_runs_no_callback_witness :
  downloadTempFile Demo.release "https://example.com/buf" (init Demo.versionFile) =
    (Err (ErrHTTPStatus "https://example.com/buf" 404),
     {| fs := Demo.versionFile;
        log := [EvHTTPGet "https://example.com/buf";
                EvHTTPDone "https://example.com/buf" false] |}).
Proof.
  unfold downloadTempFile.
  rewrite (other_status_runs_no_callback Demo.release "https://example.com/buf" _
             (init Demo.versionFile) 404 {| avail := ""; rerr := None |} None).
  - reflexivity.
  - reflexivity.
  - lia.
Defined.

(** hashFile on a file that opens: an error of Close is returned in
    preference to everything else, an error of reading the file included
    (the deferred function assigns it unconditionally); failing that a read
    error is returned; failing that the digest of the whole contents.  The
    file system is left as it was. *)
Theorem hashFile_close_error_wins
    (P : Platform) (E : Env) (filePath : string) (st : State) (x : File) :
  query E (OpOpen filePath) (fs st) filePath = inr x ->
  (hashFile P E filePath st).1 =
    match fault E (OpClose filePath), readFault E filePath with
    | Some e, _ => Err e
    | None, Some (_, e) => Err e
    | None, None => Ok (sha256Hex P (contents x))
    end /\
  fs (hashFile P E filePath st).2 = fs st.
Proof.
  intros Hq. unfold query in Hq. destruct st as [files l]. cbn [fs] in Hq.
  destruct (fault E (OpOpen filePath)) eqn:Hopen; [discriminate|].
  destruct (files !! filePath) as [y|] eqn:Hy; [|discriminate].
  injection Hq as ->.
  cbv beta iota zeta delta [hashFile traced bind os_Open getFS query defer file_Close
    fileReader io_ReadAll emit fail ret apply_event].
  cbn [fs log]. rewrite Hopen, Hy. cbn [fs log fst snd]. rewrite Hy.
  destruct (readFault E filePath) as [[n e]|], (fault E (OpClose filePath)) as [e'|];
    cbn; auto.
Qed.

(** copyFile when the source cannot be opened: the destination is neither
    created nor truncated, since os.Open comes before os.Create; the file
    system is unchanged and the error is the one of MkdirAll if it failed,
    else the one of Open. *)
Theorem copyFile_unreadable_source_leaves_destination
    (P : Platform) (E : Env) (fromFilePath toFilePath : string) (st : State) (e : error) :
  query E (OpOpen fromFilePath) (fs st) fromFilePath = inl e ->
  (copyFile P E fromFilePath toFilePath st).1 =
    Err (match fault E (OpMkdirAll (filepath_Dir P toFilePath)) with
         | Some e0 => e0
         | None => e
         end) /\
  fs (copyFile P E fromFilePath toFilePath st).2 = fs st /\
  Forall (fun ev => written ev = None)
    (drop (length (log st)) (log (copyFile P E fromFilePath toFilePath st).2)).
Proof.
  intros Hq.
  cbv beta iota zeta delta [copyFile bind os_MkdirAll os_Open getFS emit fail ret defer].
  destruct (fault E (OpMkdirAll (filepath_Dir P toFilePath))) as [e0|]; cbn [fst snd fs log].
  - split; [reflexivity|]. split; [reflexivity|].
    rewrite drop_ge by lia. constructor.
  - change (apply_event (EvMkdirAll (filepath_Dir P toFilePath)) (fs st)) with (fs st).
    rewrite Hq. cbn [fst snd fs log].
    split; [reflexivity|]. split; [reflexivity|].
    rewrite drop_app_length. repeat constructor.
Qed.

Lemma hashFile_close_error_wins_witness :
  (hashFile Demo.linux DemoFaults.flaky "/tmp/bufisk1" (init Demo.downloaded)).1 =
    Err (ErrLib "close failed") /\
  (hashFile Demo.linux Demo.release "/tmp/bufisk1" (init Demo.downloaded)).1 =
    Ok "#ELF".
Proof.
  split.
  - apply (hashFile_close_error_wins Demo.linux DemoFaults.flaky "/tmp/bufisk1"
             (init Demo.downloaded) {| contents := "ELF"; perm := 384 |}).
    reflexivity.
  - apply (hashFile_close_error_wins Demo.linux Demo.release "/tmp/bufisk1"
             (init Demo.downloaded) {| contents := "ELF"; perm := 384 |}).
    reflexivity.
Defined.

Lemma copyFile_unreadable_source_leaves_destination_witness :
  (copyFile Demo.linux Demo.release "/tmp/bufisk1" Demo.cachePath (init Demo.cached)).1 =
    Err (ErrNotExist "/tmp/bufisk1") /\
  fs (copyFile Demo.linux Demo.release "/tmp/bufisk1" Demo.cachePath
        (init Demo.cached)).2 !! Demo.cachePath =
    Some {| contents := "OLD"; perm := 448 |}.
Proof.
  destruct (copyFile_unreadable_source_leaves_destination Demo.linux Demo.release
              "/tmp/bufisk1" Demo.cachePath (init Demo.cached)
              (ErrNotExist "/tmp/bufisk1")) as (Hres & Hfs & _).
  - reflexivity.
  - split; [exact Hres|]. rewrite Hfs. reflexivity.
Defined.

(** ** Launch and exit status *)

Section LaunchFacts.
Context (P : Platform) (E : Env).

(** A launch is the last event of run, of the path checked, with the
    arguments of the invocation, and run returns what it returned. *)
Lemma runQ_launch (f : gmap string File) (r : Res unit) (evs : list event)
    (q : string) (a : list string) :
  runQ P E f r evs -> In (EvExec q a) evs ->
  a = osArgs E /\ r = childResult E q /\
  exists front e, evs = front ++ [EvExec q a] /\ In (EvStat q e) front /\
    ~ In (EvExec q a) front.
Proof.
  intros HQ Hin. destruct HQ as [HQ|[HQ|HQ]].
  - destruct HQ as (pre & -> & Hpre & _).
    exfalso. eapply resolve_not_In; [exact Hpre| |exact Hin]. reflexivity.
  - destruct HQ as (pre & p & -> & Hpre & ->).
    assert (Hno : forall ev, isResolve ev = false -> ~ In ev pre)
      by (intros ev Hev; eapply resolve_not_In; eassumption).
    apply in_app_or in Hin as [Hin|Hin]; [(exfalso; eapply Hno; [|exact Hin]; reflexivity)|].
    destruct Hin as [Hin|[Hin|[]]]; [discriminate|]. injection Hin as <- <-.
    split; [reflexivity|]. split; [reflexivity|].
    exists (pre ++ [EvStat p None]), None. rewrite <- app_assoc. split; [reflexivity|].
    split; [apply in_or_app; right; left; reflexivity|].
    intros Hin. apply in_app_or in Hin as [Hin|[Hin|[]]];
      [(exfalso; eapply Hno; [|exact Hin]; reflexivity)|discriminate].
  - destruct HQ as (pre & v & p & e & rdl & devs & tail & -> & Hpre & Hdl & Htail).
    assert (Hno : forall ev, isResolve ev = false -> ~ In ev pre)
      by (intros ev Hev; eapply resolve_not_In; eassumption).
    assert (Hnd : forall ev, isPipelineEvent ev = false -> ~ In ev devs)
      by (intros ev Hev; eapply pipeline_not_In; eassumption).
    apply in_app_or in Hin as [Hin|Hin]; [(exfalso; eapply Hno; [|exact Hin]; reflexivity)|].
    destruct Hin as [Hin|Hin]; [discriminate|].
    apply in_app_or in Hin as [Hin|Hin]; [(exfalso; eapply Hnd; [|exact Hin]; reflexivity)|].
    destruct Htail as [[-> [[-> ->]|[-> _]]]|[-> _]]; [|destruct Hin|destruct Hin].
    destruct Hin as [Hin|[Hin|[]]]; [discriminate|]. injection Hin as <- <-.
    split; [reflexivity|]. split; [reflexivity|].
    eexists (pre ++ EvStat p (Some e) :: devs ++ [EvStderr _]), (Some e).
    split; [rewrite <- !app_assoc; cbn; rewrite <- app_assoc; reflexivity|].
    split; [apply in_or_app; right; left; reflexivity|].
    intros Hin. apply in_app_or in Hin as [Hin|Hin]; [(exfalso; eapply Hno; [|exact Hin]; reflexivity)|].
    destruct Hin as [Hin|Hin]; [discriminate|].
    apply in_app_or in Hin as [Hin|[Hin|[]]]; [(exfalso; eapply Hnd; [|exact Hin]; reflexivity)|discriminate].
Qed.

End LaunchFacts.

(** When run launches a program, the launch is the last event and the only
    launch, the program is the path whose existence was checked, the
    arguments are those of the invocation, and run returns what cmd.Run
    returned: nil when buf succeeded, its error otherwise. *)
Theorem launch_is_last_and_decides
    (P : Platform) (E : Env) (fuel : nat) (st : State) (evs : list event)
    (q : string) (a : list string) :
  log (run P E fuel st).2 = log st ++ evs ->
  In (EvExec q a) evs ->
  a = osArgs E /\
  (run P E fuel st).1 =
    match childRun E q (osArgs E) with Some e => Err e | None => Ok tt end /\
  exists front e,
    evs = front ++ [EvExec q a] /\ In (EvStat q e) front /\ ~ In (EvExec q a) front.
Proof.
  intros Hlog Hin.
  destruct (run_spec P E fuel st) as (evs' & Hlog' & _ & HQ).
  rewrite Hlog in Hlog'. apply app_inv_head in Hlog'. subst evs'.
  destruct (runQ_launch P E _ _ _ q a HQ Hin) as (Ha & Hr & Hlast).
  split; [exact Ha|]. split; [exact Hr|exact Hlast].
Qed.

(** The exit status of main once buf has been launched: 0 when buf
    succeeded; when cmd.Run returned an exit error, the status the system
    reports for os.Exit of the exit code of buf, and main writes nothing
    after the launch; 1 for every other error of cmd.Run.  For a buf that
    exited with a status from 0 to 255 the status of main is that status;
    for a buf ended by a signal the exit code is -1, and the status of main
    is 255 on unix. *)
Theorem exit_status_is_that_of_buf
    (P : Platform) (E : Env) (Error : error -> string) (fuel : nat) (st : State)
    (evs : list event) (q : string) (a : list string) :
  log (run P E fuel st).2 = log st ++ evs ->
  In (EvExec q a) evs ->
  match childRun E q (osArgs E) with
  | None => main P E Error fuel st = (Ok 0, (run P E fuel st).2)
  | Some e =>
      match asExitError e with
      | Some code =>
          main P E Error fuel st = (Ok (exitStatus P code), (run P E fuel st).2) /\
          (0 <= code < 256 -> exitStatus P code = code) /\
          (goos P = Unix -> code = -1 -> exitStatus P code = 255)
      | None => (main P E Error fuel st).1 = Ok 1
      end
  end.
Proof.
  intros Hlog Hin.
  destruct (run_spec P E fuel st) as (evs' & Hlog' & _ & HQ).
  rewrite Hlog in Hlog'. apply app_inv_head in Hlog'. subst evs'.
  destruct (runQ_launch P E _ _ _ q a HQ Hin) as (_ & Hr & _).
  unfold childResult in Hr.
  unfold main, bind, attempt.
  destruct (run P E fuel st) as [r st1]. cbn [fst snd] in *. subst r.
  destruct (childRun E q (osArgs E)) as [e|]; [|reflexivity].
  destruct (asExitError e) as [code|].
  - split; [reflexivity|]. unfold exitStatus. split.
    + intros Hcode. destruct (goos P); apply Z.mod_small; [lia|].
      change (2 ^ 32) with 4294967296. lia.
    + intros -> ->. reflexivity.
  - unfold ret, stderr_Fprintf, emit, fail, exitStatus.
    assert (H1 : match goos P with Unix => 1 mod 256 | Windows => 1 mod 2 ^ 32 end = 1)
      by (destruct (goos P); reflexivity).
    rewrite H1.
    destruct (negb _); [|reflexivity].
    destruct (fault E OpStderr); reflexivity.
Qed.

Lemma launch_is_last_and_decides_witness :
  (run Demo.linux Demo.release 8 (init Demo.cached)).1 = Ok tt /\
  last (log (run Demo.linux Demo.release 8 (init Demo.cached)).2) =
    Some (EvExec Demo.cachePath ["lint"]).
Proof.
  destruct (launch_is_last_and_decides Demo.linux Demo.release 8 (init Demo.cached)
              (log (run Demo.linux Demo.release 8 (init Demo.cached)).2)
              Demo.cachePath ["lint"]) as (_ & Hr & front & e & Hlog & _).
  - reflexivity.
  - in_log.
  - split; [exact Hr|]. rewrite Hlog. apply last_snoc.
Defined.

Lemma exit_status_is_that_of_buf_witness :
  main Demo.linux DemoFaults.failing DemoFaults.describe 8 (init Demo.cached) =
    (Ok 3, (run Demo.linux DemoFaults.failing 8 (init Demo.cached)).2) /\
  main Demo.linux DemoFaults.killed DemoFaults.describe 8 (init Demo.cached) =
    (Ok 255, (run Demo.linux DemoFaults.killed 8 (init Demo.cached)).2).
Proof.
  split.
  - pose proof (exit_status_is_that_of_buf Demo.linux DemoFaults.failing
                  DemoFaults.describe 8 (init Demo.cached)
                  (log (run Demo.linux DemoFaults.failing 8 (init Demo.cached)).2)
                  Demo.cachePath ["lint"] ltac:(reflexivity) ltac:(in_log)) as H.
    hnf in H. destruct H as [H _]. exact H.
  - pose proof (exit_status_is_that_of_buf Demo.linux DemoFaults.killed
                  DemoFaults.describe 8 (init Demo.cached)
                  (log (run Demo.linux DemoFaults.killed 8 (init Demo.cached)).2)
                  Demo.cachePath ["lint"] ltac:(reflexivity) ltac:(in_log)) as H.
    hnf in H. destruct H as [H _]. exact H.
Defined.

(** ** The bytes of a version *)

Section ByteFacts.
Import VersionFormat.

Lemma allBytes_append (p : ascii -> bool) (a b : string) :
  allBytes p (a +:+ b) = allBytes p a && allBytes p b.
Proof.
  induction a as [|c a IH]; [rewrite append_nil_l; reflexivity|].
  rewrite append_cons. cbn [allBytes]. rewrite IH, andb_assoc. reflexivity.
Qed.

Lemma allDigits_bytes (s : string) :
  allDigits s = true -> allBytes versionByte s = true.
Proof.
  induction s as [|c s IH]; [reflexivity|]. cbn [allDigits allBytes].
  intros [Hc Hs]%andb_true_iff. unfold versionByte at 1. rewrite Hc, (IH Hs). reflexivity.
Qed.

Lemma isGoInt_bytes (a : string) :
  isGoInt a = true -> allBytes versionByte a = true.
Proof.
  destruct a as [|c rest]; [discriminate|]. cbn [isGoInt].
  intros [[_ Hall]%andb_true_iff _]%andb_true_iff.
  destruct (isSign c) eqn:Hsign; [|apply allDigits_bytes; exact Hall].
  cbn [allBytes]. unfold versionByte at 1.
  rewrite Hsign, orb_true_r, (allDigits_bytes rest Hall). reflexivity.
Qed.

Lemma accepted_bytes (v : string) : accepted v -> allBytes versionByte v = true.
Proof.
  intros (a & b & c & -> & _ & _ & _ & Ha & Hb & Hc). cbn [joinDots].
  rewrite !allBytes_append.
  rewrite (isGoInt_bytes a Ha), (isGoInt_bytes b Hb), (isGoInt_bytes c Hc).
  reflexivity.
Qed.

End ByteFacts.

(** Every version that validateBufVersion lets through is returned as it
    is and is made of decimal digits, dots, plus and minus signs only: it
    starts with a digit or a sign and ends with a digit.  It therefore holds
    no path separator, no space and no letter, a leading v included. *)
Theorem validated_version_is_digits_dots_signs (v src r : string) :
  validateBufVersion v src = inr r ->
  r = v /\
  allBytes versionByte v = true /\
  (exists c rest,
      v = String c rest /\ VersionFormat.isDigit c || VersionFormat.isSign c = true) /\
  (exists front d, v = front +:+ String d "" /\ VersionFormat.isDigit d = true).
Proof.
  intros H. destruct (validate_inr v src r H) as [-> Hacc].
  split; [reflexivity|]. split; [apply accepted_bytes; exact Hacc|].
  apply TrimFacts.accepted_ends. exact Hacc.
Qed.

Lemma validated_version_is_digits_dots_signs_witness :
  allBytes versionByte "1.28.1" = true /\
  validateBufVersion "v1.28.1" ".bufversion" =
    inl (ErrInvalidBufVersion ".bufversion" "v1.28.1").
Proof.
  split.
  - apply (validated_version_is_digits_dots_signs "1.28.1" "BUF_VERSION" "1.28.1").
    reflexivity.
  - reflexivity.
Defined.

(** ** Lookup in the manifest *)

Module ManifestFacts.
Import GoStrings.

Lemma prefix_spec (a b : string) :
  String.prefix a b = true <-> exists q, b = a +:+ q.
Proof.
  revert b. induction a as [|c a IH]; intros b.
  - split; [intros _; exists b; rewrite append_nil_l; reflexivity|].
    intros _. destruct b; reflexivity.
  - destruct b as [|d b]; cbn [String.prefix].
    + split; [discriminate|]. intros [q Hq]. rewrite append_cons in Hq. discriminate.
    + destruct (ascii_dec c d) as [<-|Hne].
      * rewrite IH. split; intros [q Hq]; exists q.
        -- rewrite append_cons. congruence.
        -- rewrite append_cons in Hq. congruence.
      * split; [discriminate|]. intros [q Hq]. rewrite append_cons in Hq. congruence.
Qed.

(** strings.HasSuffix holds exactly of the strings that end with the
    suffix. *)
Lemma HasSuffix_spec (s suffix : string) :
  HasSuffix s suffix = true <-> endsWith s suffix.
Proof.
  unfold HasSuffix, endsWith. rewrite prefix_spec. split; intros [q Hq].
  - exists (String.rev q).
    rewrite <- (TrimFacts.rev_involutive s), Hq, TrimFacts.rev_append,
      TrimFacts.rev_involutive. reflexivity.
  - exists (String.rev q). rewrite Hq, TrimFacts.rev_append. reflexivity.
Qed.

Lemma HasSuffix_false (s suffix : string) :
  ~ endsWith s suffix -> HasSuffix s suffix = false.
Proof.
  intros H. destruct (HasSuffix s suffix) eqn:Hs; [|reflexivity].
  apply HasSuffix_spec in Hs. contradiction.
Qed.

Lemma plainByte_spec (c : ascii) :
  plainByte c = true -> c <> " "%char /\ c <> "010"%char.
Proof.
  unfold plainByte. intros [H1 H2]%andb_true_iff.
  apply negb_true_iff in H1, H2.
  apply bool_decide_eq_false in H1, H2. auto.
Qed.

(** Splitting at line feeds. *)
Lemma genSplit_lf (c : ascii) (s : string) :
  genSplit "
" 0 (String c s) =
    if bool_decide (c = "010"%char) then "" :: genSplit "
" 0 s
    else cons_head c (genSplit "
" 0 s).
Proof.
  cbn [genSplit String.prefix String.length Nat.pred].
  destruct (ascii_dec "010" c) as [<-|Hne].
  - rewrite bool_decide_eq_true_2 by reflexivity. destruct s; reflexivity.
  - rewrite bool_decide_eq_false_2 by congruence. reflexivity.
Qed.

Lemma genSplit_line (l rest : string) :
  allBytes (fun c => negb (bool_decide (c = "010"%char))) l = true ->
  genSplit "
" 0 (l +:+ "
" +:+ rest) = l :: genSplit "
" 0 rest.
Proof.
  induction l as [|c l IH]; intros Hl.
  - rewrite append_nil_l. change ("
" +:+ rest) with (String "010" rest).
    rewrite genSplit_lf. reflexivity.
  - cbn [allBytes] in Hl. apply andb_true_iff in Hl as [Hc Hl].
    rewrite append_cons, genSplit_lf.
    apply negb_true_iff in Hc. rewrite Hc, (IH Hl). reflexivity.
Qed.

(** Splitting at double spaces. *)
Lemma genSplit_no_space (s : string) :
  allBytes plainByte s = true -> genSplit "  " 0 s = [s].
Proof.
  induction s as [|c s IH]; [reflexivity|]. cbn [allBytes].
  intros [Hc Hs]%andb_true_iff. apply plainByte_spec in Hc as [Hc _].
  cbn [genSplit String.prefix].
  destruct (ascii_dec " " c) as [<-|_]; [congruence|].
  rewrite (IH Hs). reflexivity.
Qed.

Lemma genSplit_fields (h n : string) :
  allBytes plainByte h = true -> allBytes plainByte n = true ->
  genSplit "  " 0 (h +:+ "  " +:+ n) = [h; n].
Proof.
  intros Hh Hn. induction h as [|c h IH].
  - rewrite append_nil_l. change ("  " +:+ n) with (String " " (String " " n)).
    cbn [genSplit String.prefix String.length Nat.pred].
    destruct (ascii_dec " " " ") as [_|Hne]; [|congruence].
    destruct n as [|d n]; [reflexivity|].
    cbn [genSplit]. rewrite <- (genSplit_no_space (String d n) Hn). reflexivity.
  - cbn [allBytes] in Hh. apply andb_true_iff in Hh as [Hc Hh].
    apply plainByte_spec in Hc as [Hc _].
    rewrite append_cons. cbn [genSplit String.prefix].
    destruct (ascii_dec " " c) as [<-|_]; [congruence|].
    rewrite (IH Hh). reflexivity.
Qed.

Lemma plain_no_lf (s : string) :
  allBytes plainByte s = true ->
  allBytes (fun c => negb (bool_decide (c = "010"%char))) s = true.
Proof.
  induction s as [|c s IH]; [reflexivity|]. cbn [allBytes].
  intros [Hc Hs]%andb_true_iff. rewrite (IH Hs), andb_true_r.
  unfold plainByte in Hc. apply andb_true_iff in Hc as [_ Hc]. exact Hc.
Qed.

Lemma line_no_lf (entry : string * string) :
  plainEntry entry ->
  allBytes (fun c => negb (bool_decide (c = "010"%char))) (manifestLine entry) = true.
Proof.
  intros [Hh Hn]. unfold manifestLine. rewrite !allBytes_append.
  rewrite (plain_no_lf _ Hh), (plain_no_lf _ Hn). reflexivity.
Qed.

Lemma split_manifest (entries : list (string * string)) :
  Forall plainEntry entries ->
  Split (renderManifest entries) "
" = map manifestLine entries ++ [""].
Proof.
  unfold Split. induction 1 as [|entry rest Hentry _ IH]; [reflexivity|].
  cbn [renderManifest map app].
  rewrite (genSplit_line _ _ (line_no_lf entry Hentry)), IH. reflexivity.
Qed.

(** A plain suffix of a line lies within the name. *)
Lemma plain_prefix (a x b y : string) :
  allBytes plainByte a = true ->
  a +:+ x = b +:+ String " " y -> exists q, b = a +:+ q.
Proof.
  revert a. induction b as [|c b IH]; intros a Ha Heq.
  - destruct a as [|d a]; [exists ""; reflexivity|].
    rewrite append_cons, append_nil_l in Heq. injection Heq as -> _.
    cbn [allBytes] in Ha. apply andb_true_iff in Ha as [Hd _].
    apply plainByte_spec in Hd as [Hd _]. congruence.
  - destruct a as [|d a]; [exists (String c b); rewrite append_nil_l; reflexivity|].
    rewrite !append_cons in Heq. injection Heq as -> Heq.
    cbn [allBytes] in Ha. apply andb_true_iff in Ha as [_ Ha].
    destruct (IH a Ha Heq) as [q ->]. exists q. rewrite append_cons. reflexivity.
Qed.

Lemma allBytes_rev (p : ascii -> bool) (s : string) :
  allBytes p (String.rev s) = allBytes p s.
Proof.
  induction s as [|c s IH]; [reflexivity|].
  rewrite TrimFacts.rev_cons, allBytes_append, IH. cbn [allBytes].
  rewrite andb_true_r, andb_comm. reflexivity.
Qed.

Lemma endsWith_line (entry : string * string) (fileName : string) :
  allBytes plainByte fileName = true ->
  endsWith (manifestLine entry) fileName <-> endsWith entry.2 fileName.
Proof.
  intros Hf. unfold endsWith, manifestLine. split; intros [front Hfront].
  - apply (f_equal String.rev) in Hfront.
    rewrite !TrimFacts.rev_append in Hfront.
    change (String.rev "  ") with "  " in Hfront.
    rewrite append_assoc in Hfront.
    change ("  " +:+ String.rev entry.1) with (String " " (String " " (String.rev entry.1)))
      in Hfront.
    symmetry in Hfront.
    destruct (plain_prefix (String.rev fileName) _ _ _
                ltac:(rewrite allBytes_rev; exact Hf) Hfront) as [q Hq].
    exists (String.rev q).
    rewrite <- (TrimFacts.rev_involutive entry.2), Hq, TrimFacts.rev_append,
      TrimFacts.rev_involutive. reflexivity.
  - exists (entry.1 +:+ "  " +:+ front). rewrite Hfront, !append_assoc. reflexivity.
Qed.

Lemma lookup_skips (pre : list string) (rest : list string) (fileName data : string) :
  Forall (fun line => ~ endsWith line fileName) pre ->
  sha256Lines (pre ++ rest) fileName data = sha256Lines rest fileName data.
Proof.
  induction 1 as [|line pre Hline _ IH]; [reflexivity|].
  cbn [app sha256Lines]. rewrite (HasSuffix_false _ _ Hline). exact IH.
Qed.

End ManifestFacts.

(** getSha256HexForTxtData on a manifest as sha256sum writes it, every
    digest and name free of spaces and line feeds: the digest returned is the
    one of the first entry whose name ends with the file name asked for.
    The match is on the end of the name, not on the whole name. *)
Theorem manifest_lookup_finds_first_entry
    (entries pre post : list (string * string)) (h n fileName : string) :
  Forall plainEntry entries ->
  allBytes plainByte fileName = true ->
  entries = pre ++ (h, n) :: post ->
  Forall (fun entry => ~ endsWith entry.2 fileName) pre ->
  endsWith n fileName ->
  getSha256HexForTxtData (renderManifest entries) fileName = inr h.
Proof.
  intros Hplain Hf -> Hpre Hn. unfold getSha256HexForTxtData.
  rewrite (ManifestFacts.split_manifest _ Hplain), map_app, <- app_assoc.
  rewrite ManifestFacts.lookup_skips.
  2:{ apply Forall_map. eapply Forall_impl; [exact Hpre|].
      intros entry Hentry. cbn. rewrite (ManifestFacts.endsWith_line entry fileName Hf).
      exact Hentry. }
  cbn [map app sha256Lines].
  assert (Hline : GoStrings.HasSuffix (manifestLine (h, n)) fileName = true).
  { apply ManifestFacts.HasSuffix_spec, (ManifestFacts.endsWith_line (h, n) fileName Hf).
    exact Hn. }
  rewrite Hline.
  apply Forall_app in Hplain as [_ Hplain].
  apply Forall_cons in Hplain as [[Hh Hn'] _]. cbn [fst snd] in Hh, Hn'.
  unfold GoStrings.Split, manifestLine. cbn [fst snd].
  rewrite (ManifestFacts.genSplit_fields h n Hh Hn'). reflexivity.
Qed.

(** getSha256HexForTxtData on such a manifest none of whose names ends
    with the file name asked for: the error says the name is not in
    sha256.txt and carries the whole manifest. *)
Theorem manifest_lookup_misses
    (entries : list (string * string)) (fileName : string) :
  Forall plainEntry entries ->
  allBytes plainByte fileName = true ->
  fileName <> "" ->
  Forall (fun entry => ~ endsWith entry.2 fileName) entries ->
  getSha256HexForTxtData (renderManifest entries) fileName =
    inl (ErrNotInSha256Txt fileName (renderManifest entries)).
Proof.
  intros Hplain Hf Hne Hall. unfold getSha256HexForTxtData.
  rewrite (ManifestFacts.split_manifest _ Hplain).
  rewrite ManifestFacts.lookup_skips.
  2:{ apply Forall_map. eapply Forall_impl; [exact Hall|].
      intros entry Hentry. cbn. rewrite (ManifestFacts.endsWith_line entry fileName Hf).
      exact Hentry. }
  cbn [sha256Lines].
  rewrite ManifestFacts.HasSuffix_false; [reflexivity|].
  intros [front Hfront]. destruct front; [|rewrite append_cons in Hfront; discriminate].
  rewrite append_nil_l in Hfront. congruence.
Qed.

Lemma manifest_lookup_finds_first_entry_witness :
  getSha256HexForTxtData
    (renderManifest [("#other", "buf-Darwin-arm64");
                     ("#gen", "protoc-gen-buf-Linux-x86_64");
                     ("#ELF", "buf-Linux-x86_64")])
    "buf-Linux-x86_64" = inr "#gen".
Proof.
  apply (manifest_lookup_finds_first_entry _ [("#other", "buf-Darwin-arm64")]
           [("#ELF", "buf-Linux-x86_64")] "#gen" "protoc-gen-buf-Linux-x86_64").
  - repeat constructor.
  - reflexivity.
  - reflexivity.
  - constructor; [|constructor].
    intros H. apply ManifestFacts.HasSuffix_spec in H. vm_compute in H. discriminate.
  - exists "protoc-gen-". reflexivity.
Defined.

Lemma manifest_lookup_misses_witness :
  getSha256HexForTxtData Demo.sha256Txt "buf-Windows-x86_64.exe" =
    inl (ErrNotInSha256Txt "buf-Windows-x86_64.exe" Demo.sha256Txt).
Proof.
  apply (manifest_lookup_misses
           [("#other", "buf-Darwin-arm64"); ("#ELF", "buf-Linux-x86_64")]).
  - repeat constructor.
  - reflexivity.
  - discriminate.
  - repeat constructor;
      intros H; apply ManifestFacts.HasSuffix_spec in H; vm_compute in H; discriminate.
Defined.

(** ** Location of the cache *)

Section LocationFacts.
Context (P : Platform) (E : Env).

Lemma hoare_log {A} (m : M A) (Q : Post A) (st : State) :
  hoare m Q -> exists evs, log (m st).2 = log st ++ evs.
Proof. intros H. destruct (H st) as (evs & Hlog & _). exists evs. exact Hlog. Qed.

Lemma runQ_one_check (f : gmap string File) (r : Res unit) (evs : list event)
    (q1 q2 : string) (e1 e2 : option error) :
  runQ P E f r evs -> In (EvStat q1 e1) evs -> In (EvStat q2 e2) evs -> q1 = q2.
Proof.
  intros HQ H1 H2. destruct HQ as [HQ|[HQ|HQ]].
  - destruct HQ as (pre & -> & Hpre & _).
    exfalso. eapply resolve_not_In; [exact Hpre| |exact H1]. reflexivity.
  - destruct HQ as (pre & p & -> & Hpre & _).
    assert (Hno : forall ev, isResolve ev = false -> ~ In ev pre)
      by (intros ev Hev; eapply resolve_not_In; eassumption).
    apply in_app_or in H1 as [H1|H1]; [exfalso; eapply Hno; [|exact H1]; reflexivity|].
    apply in_app_or in H2 as [H2|H2]; [exfalso; eapply Hno; [|exact H2]; reflexivity|].
    destruct H1 as [H1|[H1|[]]]; [|discriminate].
    destruct H2 as [H2|[H2|[]]]; [|discriminate]. congruence.
  - destruct HQ as (pre & v & p & e & rdl & devs & tail & -> & Hpre & Hdl & Htail).
    assert (Hno : forall ev, isResolve ev = false -> ~ In ev pre)
      by (intros ev Hev; eapply resolve_not_In; eassumption).
    assert (Hnd : forall ev, isPipelineEvent ev = false -> ~ In ev devs)
      by (intros ev Hev; eapply pipeline_not_In; eassumption).
    assert (Hnt : forall q e', ~ In (EvStat q e') tail).
    { intros q e' Hin.
      destruct Htail as [[_ [[-> _]|[-> _]]]|[-> _]]; [|destruct Hin|destruct Hin].
      destruct Hin as [Hin|[Hin|[]]]; discriminate. }
    assert (Hone : forall q e', In (EvStat q e') (pre ++ EvStat p (Some e) :: devs ++ tail) ->
                                q = p).
    { intros q e' Hin.
      apply in_app_or in Hin as [Hin|Hin]; [exfalso; eapply Hno; [|exact Hin]; reflexivity|].
      destruct Hin as [Hin|Hin]; [congruence|].
      apply in_app_or in Hin as [Hin|Hin]; [exfalso; eapply Hnd; [|exact Hin]; reflexivity|].
      destruct (Hnt _ _ Hin). }
    rewrite (Hone _ _ H1), (Hone _ _ H2). reflexivity.
Qed.

Lemma bind_eq {A B} (m : M A) (k : A -> M B) (st st' : State) (a : A) :
  m st = (Ok a, st') -> bind m k st = k a st'.
Proof. intros H. unfold bind. rewrite H. reflexivity. Qed.

Lemma bind_err {A B} (m : M A) (k : A -> M B) (st st' : State) (e : error) :
  m st = (Err e, st') -> bind m k st = (Err e, st').
Proof. intros H. unfold bind. rewrite H. reflexivity. Qed.

Lemma os_Getenv_eq (key : string) (st : State) :
  os_Getenv E key st =
    (Ok (environ E key), {| fs := fs st; log := log st ++ [EvGetenv key] |}).
Proof. reflexivity. Qed.

(** The cache directory as run computes it. *)
Lemma locate_eq (st : State) :
  exists pre,
    Forall (fun ev => isResolve ev = true) pre /\
    (let! cacheDirPath := os_Getenv E cacheDirPathEnvKey in
     if String.eqb cacheDirPath "" then
       let! cacheDirPath := getDefaultCacheDirPath P E in
       ret (filepath_Join P [cacheDirPath; "bufisk"])
     else ret cacheDirPath) st =
      (match cacheDirPathOf P E with inr d => Ok d | inl err => Err err end,
       {| fs := fs st; log := log st ++ pre |}).
Proof.
  unfold cacheDirPathOf, getDefaultCacheDirPath.
  cbv beta iota zeta delta [bind os_Getenv emit ret fail apply_event].
  cbn [fs log].
  destruct (String.eqb (environ E cacheDirPathEnvKey) "") eqn:Hdir; cbn [negb].
  2:{ exists [EvGetenv cacheDirPathEnvKey]. split; [repeat constructor|reflexivity]. }
  destruct (goos P).
  - destruct (String.eqb (environ E "XDG_CACHE_HOME") "") eqn:Hxdg; cbn [negb].
    + destruct (String.eqb (environ E "HOME") "") eqn:Hhome; cbn [negb].
      * exists [EvGetenv cacheDirPathEnvKey; EvGetenv "XDG_CACHE_HOME"; EvGetenv "HOME"].
        split; [repeat constructor|]. cbn [fs log]. rewrite <- !app_assoc. reflexivity.
      * exists [EvGetenv cacheDirPathEnvKey; EvGetenv "XDG_CACHE_HOME"; EvGetenv "HOME"].
        split; [repeat constructor|]. cbn [fs log]. rewrite <- !app_assoc. reflexivity.
    + exists [EvGetenv cacheDirPathEnvKey; EvGetenv "XDG_CACHE_HOME"].
      split; [repeat constructor|]. cbn [fs log]. rewrite <- !app_assoc. reflexivity.
  - destruct (String.eqb (environ E "LOCALAPPDATA") "") eqn:Hlad; cbn [negb].
    + exists [EvGetenv cacheDirPathEnvKey; EvGetenv "LOCALAPPDATA"].
      split; [repeat constructor|]. cbn [fs log]. rewrite <- !app_assoc. reflexivity.
    + exists [EvGetenv cacheDirPathEnvKey; EvGetenv "LOCALAPPDATA"].
      split; [repeat constructor|]. cbn [fs log]. rewrite <- !app_assoc. reflexivity.
Qed.

Lemma stat_eq (path : string) (st : State) :
  exists s e,
    attempt (os_Stat E path) st =
      (Ok s, {| fs := fs st; log := log st ++ [EvStat path e] |}).
Proof.
  cbv beta iota zeta delta [attempt os_Stat bind getFS emit fail apply_event].
  destruct (query E (OpStat path) (fs st) path) as [e|x].
  - exists (inl e), (Some e). reflexivity.
  - exists (inr tt), None. reflexivity.
Qed.

Lemma bind_assoc {A B C} (m : M A) (k : A -> M B) (h : B -> M C) (st : State) :
  bind (bind m k) h st = bind m (fun a => bind (k a) h) st.
Proof. unfold bind. destruct (m st) as [[a|e|] st1]; reflexivity. Qed.

Lemma run_prefix (fuel : nat) (st st1 : State) (v : string) :
  getBufVersion P E fuel st = (Ok v, st1) ->
  match cacheDirPathOf P E with
  | inl err =>
      exists pre,
        run P E fuel st = (Err err, {| fs := fs st1; log := log st1 ++ pre |}) /\
        Forall (fun ev => isResolve ev = true) pre
  | inr d =>
      exists pre e rest,
        log (run P E fuel st).2 = log st1 ++ pre ++ EvStat (bufFilePathOf P d v) e :: rest
  end.
Proof.
  intros Hgv. unfold run. rewrite (bind_eq _ _ _ _ _ Hgv).
  rewrite <- bind_assoc.
  destruct (locate_eq st1) as (pre & Hpre & Hloc).
  destruct (cacheDirPathOf P E) as [err|d].
  - exists pre. split; [|exact Hpre]. apply bind_err. exact Hloc.
  - exists pre. rewrite (bind_eq _ _ _ _ _ Hloc).
    destruct (stat_eq (bufFilePathOf P d v) {| fs := fs st1; log := log st1 ++ pre |})
      as (s & e & Hstat).
    unfold bufFilePathOf in *. rewrite (bind_eq _ _ _ _ _ Hstat).
    exists e.
    match goal with
    | |- exists rest, log (?m ?st3).2 = _ =>
        assert (Hk : exists Q, hoare m Q);
          [ destruct s; eexists;
            repeat first [apply downloadBufToFilePath_spec | hrule2 P E]
          | destruct Hk as (Q & Hk); destruct (Hk st3) as (rest & Hlog & _) ]
    end.
    exists rest. rewrite Hlog. cbn [log]. rewrite <- !app_assoc. reflexivity.
Qed.

End LocationFacts.

(** The cache path of run is a function of the environment and of the
    version resolved: with BUFISK_CACHE_DIR set it is that directory as it
    is, otherwise the directory bufisk under XDG_CACHE_HOME, or under .cache
    in HOME, on unix and under LOCALAPPDATA on windows; then the
    system name, the machine name, releases, buf, the version, bin and buf.
    When a version is resolved, run checks that path and no other; when no
    directory can be found it fails with the error of the platform before
    any check, download or launch. *)
Theorem run_checks_one_cache_path
    (P : Platform) (E : Env) (fuel : nat) (st : State) (v : string) (evs : list event) :
  (getBufVersion P E fuel st).1 = Ok v ->
  log (run P E fuel st).2 = log st ++ evs ->
  match cacheDirPathOf P E with
  | inl err =>
      (run P E fuel st).1 = Err err /\ Forall (fun ev => isResolve ev = true) evs
  | inr d =>
      (exists e, In (EvStat (bufFilePathOf P d v) e) evs) /\
      forall q e, In (EvStat q e) evs -> q = bufFilePathOf P d v
  end.
Proof.
  intros Hv Hlog.
  destruct (getBufVersion P E fuel st) as [r st1] eqn:Hgv. cbn [fst] in Hv. subst r.
  destruct (getBufVersion_spec P E fuel st) as (pre1 & Hlog1 & _ & Hpre1).
  rewrite Hgv in Hlog1. cbn [snd] in Hlog1. unfold resolveOnly in Hpre1.
  pose proof (run_prefix P E fuel st st1 v Hgv) as Hrun.
  destruct (cacheDirPathOf P E) as [err|d].
  - destruct Hrun as (pre & Hrun & Hpre). rewrite Hrun in Hlog |- *. cbn [fst snd log] in *.
    split; [reflexivity|].
    rewrite Hlog1, <- app_assoc in Hlog. apply app_inv_head in Hlog. subst evs.
    apply Forall_app. split; assumption.
  - destruct Hrun as (pre & e & rest & Hrun).
    rewrite Hlog, Hlog1, <- app_assoc in Hrun. apply app_inv_head in Hrun.
    assert (Hin : In (EvStat (bufFilePathOf P d v) e) evs).
    { rewrite Hrun. apply in_or_app. right. apply in_or_app. right. left. reflexivity. }
    split; [exists e; exact Hin|].
    intros q e' Hq.
    destruct (run_spec P E fuel st) as (evs' & Hlog' & _ & HQ).
    rewrite Hlog in Hlog'. apply app_inv_head in Hlog'. subst evs'.
    eapply runQ_one_check; eassumption.
Qed.

Lemma run_checks_one_cache_path_witness :
  exists e,
    In (EvStat "/home/u/.cache/bufisk/Linux/x86_64/releases/buf/1.28.1/bin/buf" e)
      (log (run Demo.linux Demo.release 8 (init Demo.cached)).2).
Proof.
  pose proof (run_checks_one_cache_path Demo.linux Demo.release 8 (init Demo.cached)
                "1.28.1" (log (run Demo.linux Demo.release 8 (init Demo.cached)).2)
                ltac:(vm_compute; reflexivity) ltac:(reflexivity)) as H.
  change (cacheDirPathOf Demo.linux Demo.release)
    with (inr "/home/u/.cache/bufisk" : error + string) in H.
  cbv iota in H. destruct H as [[e H] _].
  exists e. exact H.
Defined.

(** ** What is written, and where *)

Section FrameFacts.
Context (P : Platform) (E : Env).

Lemma apply_event_frame (ev : event) (f : gmap string File) (q : string) :
  written ev <> Some q -> apply_event ev f !! q = f !! q.
Proof.
  intros Hw. destruct ev; cbn [written] in Hw; cbv beta iota delta [apply_event];
    try reflexivity.
  - apply lookup_insert_ne. congruence.
  - apply lookup_insert_ne. congruence.
  - destruct (f !! path); [apply lookup_insert_ne; congruence|reflexivity].
  - apply lookup_delete_ne. congruence.
  - destruct (f !! path); [apply lookup_insert_ne; congruence|reflexivity].
Qed.

Lemma replay_frame (evs : list event) (f : gmap string File) (q : string) :
  Forall (fun ev => written ev <> Some q) evs -> replay evs f !! q = f !! q.
Proof.
  intros H. revert f. induction H as [|ev evs Hev _ IH]; intros f; [reflexivity|].
  rewrite replay_cons, IH. apply apply_event_frame. exact Hev.
Qed.

Lemma pipeline_writes (v p : string) (f : gmap string File) (r : Res unit)
    (devs : list event) :
  pipelineQ P E v p f r devs ->
  Forall (fun ev => written ev = None \/ written ev = Some (tempName E) \/
                    written ev = Some p) devs.
Proof.
  intros H. unfold pipelineQ, fileNameOf in H. hcases.
  all: repeat first [apply Forall_app; split | apply List.Forall_cons
                    | apply List.Forall_nil].
  all: cbn [written]; auto.
Qed.

Lemma runQ_frame (f : gmap string File) (r : Res unit) (evs : list event) (q : string) :
  runQ P E f r evs ->
  q <> tempName E -> (forall e, ~ In (EvStat q e) evs) ->
  Forall (fun ev => written ev <> Some q) evs.
Proof.
  intros HQ Hq Hstat.
  assert (Hres : forall l, Forall (fun ev => isResolve ev = true) l ->
                           Forall (fun ev => written ev <> Some q) l).
  { intros l Hl. eapply Forall_impl; [exact Hl|].
    intros ev Hev. destruct ev; try discriminate Hev; discriminate. }
  destruct HQ as [HQ|[HQ|HQ]].
  - destruct HQ as (pre & -> & Hpre & _). apply Hres. exact Hpre.
  - destruct HQ as (pre & p & -> & Hpre & _).
    apply Forall_app. split; [apply Hres; exact Hpre|].
    repeat constructor; discriminate.
  - destruct HQ as (pre & v & p & e & rdl & devs & tail & -> & Hpre & Hdl & Htail).
    assert (Hne : q <> p).
    { intros ->. apply (Hstat (Some e)). apply in_or_app. right. left. reflexivity. }
    apply Forall_app. split; [apply Hres; exact Hpre|].
    apply List.Forall_cons; [discriminate|].
    apply Forall_app. split.
    + eapply Forall_impl; [exact (pipeline_writes _ _ _ _ _ Hdl)|].
      intros ev [Hev|[Hev|Hev]]; rewrite Hev; congruence.
    + destruct Htail as [[_ [[-> _]|[-> _]]]|[-> _]]; repeat constructor; discriminate.
Qed.

End FrameFacts.

(** run changes no file but the temporary file of the download and the
    cache path it checked: every other path holds afterwards what it held
    before, whatever the outcome.  (Directories are not files here: those
    that MkdirAll makes on the way to the cache path are not counted.) *)
Theorem run_writes_only_temp_and_cache
    (P : Platform) (E : Env) (fuel : nat) (st : State) (evs : list event) (q : string) :
  log (run P E fuel st).2 = log st ++ evs ->
  q <> tempName E ->
  (forall e, ~ In (EvStat q e) evs) ->
  fs (run P E fuel st).2 !! q = fs st !! q.
Proof.
  intros Hlog Hq Hstat.
  destruct (run_spec P E fuel st) as (evs' & Hlog' & Hfs & HQ).
  rewrite Hlog in Hlog'. apply app_inv_head in Hlog'. subst evs'.
  rewrite Hfs. apply replay_frame. eapply runQ_frame; eassumption.
Qed.

Lemma run_writes_only_temp_and_cache_witness :
  fs (run Demo.linux Demo.release 8 (init Demo.versionFile)).2 !! "/w/.bufversion" =
    Some {| contents := " 1.28.1
"; perm := 420 |}.
Proof.
  apply (run_writes_only_temp_and_cache Demo.linux Demo.release 8 (init Demo.versionFile)
           (log (run Demo.linux Demo.release 8 (init Demo.versionFile)).2)
           "/w/.bufversion").
  - reflexivity.
  - discriminate.
  - intros e Hin. vm_compute in Hin.
    repeat (destruct Hin as [Hin|Hin]; [discriminate Hin|]). destruct Hin.
Defined.

(** Version resolution only reads: whatever it returns, the file system is
    the one it started from and the events are lookups of the environment,
    of the working directory and of version files. *)
Theorem resolution_is_read_only
    (P : Platform) (E : Env) (fuel : nat) (st : State) (evs : list event) :
  log (getBufVersion P E fuel st).2 = log st ++ evs ->
  fs (getBufVersion P E fuel st).2 = fs st /\
  Forall (fun ev => isResolve ev = true) evs.
Proof.
  intros Hlog.
  destruct (getBufVersion_spec P E fuel st) as (evs' & Hlog' & Hfs & HQ).
  rewrite Hlog in Hlog'. apply app_inv_head in Hlog'. subst evs'.
  split; [|exact HQ]. rewrite Hfs. apply replay_resolve. exact HQ.
Qed.

(** downloadTempFile returns a path only when the request was answered 200
    and the body read to its end; the path is the one os.CreateTemp chose,
    it named no file before, and the file now holds the whole body with
    mode 0600. *)
Theorem downloadTempFile_makes_a_fresh_private_file
    (E : Env) (url path : string) (st : State) :
  (downloadTempFile E url st).1 = Ok path ->
  path = tempName E /\
  fs st !! path = None /\
  exists body,
    http E url = Response 200 {| avail := body; rerr := None |} None /\
    fs (downloadTempFile E url st).2 !! path =
      Some {| contents := body; perm := 384 |}.
Proof.
  intros Hr. destruct (downloadTempFile_spec E url st) as (evs & _ & Hfs & HQ).
  rewrite Hr in HQ. unfold downloadTempFileQ in HQ. hcases.
  split; [reflexivity|]. split; [assumption|].
  eexists. split; [eassumption|].
  rewrite Hfs. replay_simpl. simplify_map_eq. rewrite append_nil_l. reflexivity.
Qed.

Lemma downloadTempFile_makes_a_fresh_private_file_witness :
  fs (downloadTempFile Demo.release Demo.artifactURL (init Demo.versionFile)).2
    !! "/tmp/bufisk1" = Some {| contents := "ELF"; perm := 384 |}.
Proof.
  destruct (downloadTempFile_makes_a_fresh_private_file Demo.release Demo.artifactURL
              "/tmp/bufisk1" (init Demo.versionFile))
    as (_ & _ & body & Hbody & Hfile).
  - reflexivity.
  - vm_compute in Hbody. injection Hbody as <-. exact Hfile.
Defined.

Lemma resolution_is_read_only_witness :
  fs (getBufVersion Demo.linux Demo.guarded 8 (init Demo.nested)).2 = Demo.nested.
Proof.
  apply (resolution_is_read_only Demo.linux Demo.guarded 8 (init Demo.nested)
           (log (getBufVersion Demo.linux Demo.guarded 8 (init Demo.nested)).2)).
  reflexivity.
Defined.

(** ** Addresses and malformed lines *)

Section URLFacts.

Lemma append_inv_head (a x y : string) : a +:+ x = a +:+ y -> x = y.
Proof.
  induction a as [|c a IH]; [rewrite !append_nil_l; auto|].
  rewrite !append_cons. intros [= H]. auto.
Qed.

Lemma version_then_slash (a b x y : string) :
  allBytes versionByte a = true -> allBytes versionByte b = true ->
  a +:+ String "/" x = b +:+ String "/" y -> a = b /\ x = y.
Proof.
  revert b. induction a as [|c a IH]; intros b Ha Hb Heq.
  - destruct b as [|d b].
    + rewrite !append_nil_l in Heq. injection Heq as ->. auto.
    + rewrite append_nil_l, append_cons in Heq. injection Heq as <- _.
      cbn [allBytes] in Hb. discriminate.
  - destruct b as [|d b].
    + rewrite append_nil_l, append_cons in Heq. injection Heq as -> _.
      cbn [allBytes] in Ha. discriminate.
    + rewrite !append_cons in Heq. injection Heq as -> Heq.
      cbn [allBytes] in Ha, Hb.
      apply andb_true_iff in Ha as [_ Ha], Hb as [_ Hb].
      destruct (IH b Ha Hb Heq) as [-> ->]. auto.
Qed.

End URLFacts.

(** Two downloads of validated versions have the same address only when
    they are of the same version and the same file: a validated version
    holds no slash, so the address tells the version from the file name. *)
Theorem download_addresses_do_not_collide
    (v1 v2 src1 src2 fileName1 fileName2 : string) :
  validateBufVersion v1 src1 = inr v1 ->
  validateBufVersion v2 src2 = inr v2 ->
  getFileURL v1 fileName1 = getFileURL v2 fileName2 ->
  v1 = v2 /\ fileName1 = fileName2.
Proof.
  intros H1 H2 Hurl.
  destruct (validate_inr _ _ _ H1) as [_ Hacc1].
  destruct (validate_inr _ _ _ H2) as [_ Hacc2].
  unfold getFileURL in Hurl. apply append_inv_head in Hurl.
  change ("/" +:+ fileName1) with (String "/" fileName1) in Hurl.
  change ("/" +:+ fileName2) with (String "/" fileName2) in Hurl.
  apply (version_then_slash v1 v2); auto using accepted_bytes.
Qed.

Lemma download_addresses_do_not_collide_witness :
  getFileURL "1.28.1/x" "y" = getFileURL "1.28.1" "x/y" /\
  ("1.28.1" = "1.28.1" /\ "sha256.txt" = "sha256.txt").
Proof.
  split; [reflexivity|].
  apply (download_addresses_do_not_collide "1.28.1" "1.28.1" "BUF_VERSION" ".bufversion");
    reflexivity.
Defined.

(** The lookup in the manifest stops at the first line that ends with the
    file name.  When that line is not made of exactly two fields separated
    by two spaces, the lookup fails with the invalid-line error that carries
    the line, even when a later line is well formed. *)
Theorem first_matching_line_decides
    (sha256TxtData fileName line : string) (pre post : list string) :
  GoStrings.Split sha256TxtData "
" = pre ++ line :: post ->
  Forall (fun l => ~ endsWith l fileName) pre ->
  endsWith line fileName ->
  getSha256HexForTxtData sha256TxtData fileName =
    match GoStrings.Split line "  " with
    | [h; _] => inr h
    | _ => inl (ErrInvalidSha256Line line)
    end.
Proof.
  intros Hsplit Hpre Hline. unfold getSha256HexForTxtData.
  rewrite Hsplit, (ManifestFacts.lookup_skips pre _ _ _ Hpre).
  cbn [sha256Lines].
  rewrite (proj2 (ManifestFacts.HasSuffix_spec line fileName) Hline). reflexivity.
Qed.

Lemma first_matching_line_decides_witness :
  getSha256HexForTxtData "#ELF *buf-Linux-x86_64
#ELF  buf-Linux-x86_64
" "buf-Linux-x86_64" = inl (ErrInvalidSha256Line "#ELF *buf-Linux-x86_64").
Proof.
  apply (first_matching_line_decides _ "buf-Linux-x86_64" "#ELF *buf-Linux-x86_64" []
           ["#ELF  buf-Linux-x86_64"; ""]).
  - reflexivity.
  - constructor.
  - exists "#ELF *". reflexivity.
Defined.

(** ** Failures around the installation *)

(** When the artifact is answered with a status other than 200 (a version
    that was never released), downloadBufToFilePath fails with the error
    that asks whether the version is a valid release, wrapping the status
    error; nothing else is requested and the file system is untouched. *)
Theorem unreleased_version_fails_at_the_artifact
    (P : Platform) (E : Env) (v p : string) (st : State)
    (status : Z) (body : Reader) (closeErr : option error) :
  http E (getFileURL v (fileNameOf P)) = Response status body closeErr ->
  status <> 200 ->
  downloadBufToFilePath P E v p st =
    (Err (ErrCouldNotDownloadBuf v (ErrHTTPStatus (getFileURL v (fileNameOf P)) status)),
     {| fs := fs st;
        log := log st ++ [EvHTTPGet (getFileURL v (fileNameOf P));
                          EvHTTPDone (getFileURL v (fileNameOf P)) false] |}).
Proof.
  intros H Hs. apply Z.eqb_neq in Hs. unfold fileNameOf in *.
  unfold downloadBufToFilePath, downloadTempFile, download.
  unfold bind at 1, wrapErr. rewrite H.
  unfold bind, emit, traced, defer, fail, ret. rewrite Hs. cbn [negb].
  destruct closeErr; cbn; rewrite <- app_assoc; reflexivity.
Qed.

Lemma unreleased_version_fails_at_the_artifact_witness :
  (downloadBufToFilePath Demo.linux Demo.release "9.9.9" Demo.cachePath
     (init Demo.versionFile)).1 =
    Err (ErrCouldNotDownloadBuf "9.9.9"
           (ErrHTTPStatus
              "https://github.com/bufbuild/buf/releases/download/v9.9.9/buf-Linux-x86_64"
              404)).
Proof.
  rewrite (unreleased_version_fails_at_the_artifact Demo.linux Demo.release "9.9.9"
             Demo.cachePath (init Demo.versionFile) 404 {| avail := ""; rerr := None |} None).
  - reflexivity.
  - reflexivity.
  - lia.
Defined.

Section RemoveFacts.
Context (P : Platform) (E : Env).

Lemma defer_Ok_cleanup {A} (cleanup : M unit) (wrap : error -> error) (body : M A)
    (st : State) (a : A) :
  (defer cleanup (ifRetErrNil wrap) body st).1 = Ok a ->
  forall e, (cleanup (body st).2).1 <> Err e.
Proof.
  unfold defer. destruct (body st) as [[b|e0|] st1]; cbn [fst snd]; try discriminate.
  - destruct (cleanup st1) as [[u|e1|] st2]; cbn; congruence.
  - destruct (cleanup st1) as [[u|e1|] st2]; cbn; congruence.
Qed.

Lemma downloadTempFile_Ok (url path : string) (st : State) :
  (downloadTempFile E url st).1 = Ok path -> path = tempName E.
Proof.
  intros Hr. destruct (downloadTempFile_spec E url st) as (evs & _ & _ & HQ).
  rewrite Hr in HQ. unfold downloadTempFileQ in HQ. hcases. reflexivity.
Qed.

End RemoveFacts.

(** When the temporary file cannot be removed, downloadBufToFilePath does
    not return nil, whatever else happened: the deferred removal turns a
    success into the error that names the temporary file. *)
Theorem failed_removal_fails_the_installation
    (P : Platform) (E : Env) (v p : string) (st : State) (e : error) :
  fault E (OpRemove (tempName E)) = Some e ->
  (downloadBufToFilePath P E v p st).1 <> Ok tt.
Proof.
  intros Hfault Hok. unfold downloadBufToFilePath in Hok.
  apply bind_Ok in Hok as (t & Ht & Hok).
  apply wrapErr_Ok, downloadTempFile_Ok in Ht. subst t.
  eapply defer_Ok_cleanup in Hok. apply Hok.
  unfold os_Remove, bind, getFS, query. rewrite Hfault. reflexivity.
Qed.

Lemma failed_removal_fails_the_installation_witness :
  (downloadBufToFilePath Demo.linux DemoFaults.stuck "1.28.1" Demo.cachePath
     (init Demo.versionFile)).1 <> Ok tt /\
  (downloadBufToFilePath Demo.linux DemoFaults.stuck "1.28.1" Demo.cachePath
     (init Demo.versionFile)).1 =
    Err (ErrRemoveSource "/tmp/bufisk1" (ErrLib "operation not permitted")) /\
  fs (downloadBufToFilePath Demo.linux DemoFaults.stuck "1.28.1" Demo.cachePath
        (init Demo.versionFile)).2 !! Demo.cachePath =
    Some {| contents := "ELF"; perm := 448 |}.
Proof.
  split; [|split; vm_compute; reflexivity].
  apply (failed_removal_fails_the_installation Demo.linux DemoFaults.stuck "1.28.1"
           Demo.cachePath (init Demo.versionFile) (ErrLib "operation not permitted")).
  reflexivity.
Defined.

Section BlankFacts.

Lemma TrimSpace_whitespace (ws : string) :
  whitespace ws -> GoStrings.TrimSpace ws = "".
Proof.
  intros H. unfold GoStrings.TrimSpace.
  rewrite <- (append_nil_r ws), (TrimFacts.trimLeft_whitespace ws "" H). reflexivity.
Qed.

End BlankFacts.

(** A version file that is empty or holds only spaces is not passed over:
    when it is the first version file read, getBufVersion fails with the
    invalid-version error naming that file and the empty version, and no
    ancestor above it is read. *)
Theorem blank_version_file_is_an_error
    (P : Platform) (E : Env) (fuel k : nat) (st : State) (x : File) :
  environ E useBufVersionEnvKey = "" ->
  fault E OpGetwd = None ->
  (k < fuel)%nat ->
  firstReadAt P E (fs st) k x ->
  whitespace (contents x) ->
  (getBufVersion P E fuel st).1 =
    Err (ErrInvalidBufVersion (versionFileAt P (cwd E) k) "") /\
  exists evs,
    log (getBufVersion P E fuel st).2 = log st ++ evs /\
    readsOf evs = map (versionFileAt P (cwd E)) (seq 0 (S k)).
Proof.
  intros Henv Hwd Hfuel Hfirst Hws.
  destruct (getBufVersion_first_read P E fuel k st x Henv Hwd Hfuel Hfirst)
    as (evs & Hrun & Hreads).
  rewrite Hrun, (TrimSpace_whitespace _ Hws). cbn [fst snd log].
  split; [reflexivity|]. exists evs. auto.
Qed.

Lemma blank_version_file_is_an_error_witness :
  (getBufVersion Demo.linux Demo.release 8 (init DemoFaults.blank)).1 =
    Err (ErrInvalidBufVersion "/w/repo/.bufversion" "") /\
  readsOf (log (getBufVersion Demo.linux Demo.release 8 (init DemoFaults.blank)).2) =
    ["/w/repo/.bufversion"].
Proof.
  destruct (blank_version_file_is_an_error Demo.linux Demo.release 8 0
              (init DemoFaults.blank) {| contents := "
  "; perm := 420 |}) as (Hres & evs & Hlog & Hreads).
  - reflexivity.
  - reflexivity.
  - lia.
  - split; [intros j Hj; lia|]. vm_compute. reflexivity.
  - apply (whitespace_cons "
" "  "); [vm_compute; repeat first [left; reflexivity | right]|].
    apply (whitespace_cons " " " "); [vm_compute; repeat first [left; reflexivity | right]|].
    apply (whitespace_cons " " ""); [vm_compute; repeat first [left; reflexivity | right]|].
    constructor.
  - split; [exact Hres|]. rewrite Hlog. exact Hreads.
Defined.

(** ** What a failed installation leaves *)

Section LeftoverFacts.
Context (P : Platform) (E : Env).

Lemma pipeline_created_stays (v p : string) (f : gmap string File) (r : Res unit)
    (devs : list event) :
  pipelineQ P E v p f r devs ->
  In (EvCreate p) devs ->
  tempName E <> p ->
  exists x, replay devs f !! p = Some x /\
    (r <> Ok tt -> In (EvChmod p 448) devs \/ perm x = match f !! p with
                                                      | Some old => perm old
                                                      | None => 438
                                                      end).
Proof.
  intros H Hin Hne. unfold pipelineQ, fileNameOf in H. hcases.
  all: in_find Hin.
  all: assert (Hne' : p <> tempName E) by congruence.
  all: replay_simpl; simplify_map_eq.
  all: eexists; split; [reflexivity|].
  all: intros Hr; first [ contradiction Hr; reflexivity
                        | right; reflexivity
                        | left; cbn [In]; auto 30 using in_or_app, in_eq, in_cons ].
Qed.

(** The mode os.Create asks for has no execute bit, and a umask can only
    clear bits of it. *)
Lemma created_not_executable (umask : Z) : Z.land (Z.ldiff 438 umask) 73 = 0.
Proof.
  apply Z.bits_inj'. intros n Hn.
  rewrite Z.land_spec, Z.ldiff_spec, Z.bits_0.
  pose proof (Z.land_spec 438 73 n) as H.
  change (Z.land 438 73) with 0 in H. rewrite Z.bits_0 in H.
  destruct (Z.testbit 438 n), (Z.testbit 73 n), (Z.testbit umask n);
    try reflexivity; discriminate H.
Qed.

End LeftoverFacts.

(** Once copyFile has created the cache path, downloadBufToFilePath leaves
    a file there whatever happens next: a copy that breaks off, a failing
    Close, Chmod or Remove return their error and the file stays, so later
    runs find it.  When the failure comes before Chmod the file has the mode
    os.Create left it: the mode of the file it replaced or, for a new file,
    a mode without any execute bit whatever the umask of the process, since
    os.Create asks for 0666 and the umask only clears bits. *)
Theorem failed_installation_is_not_rolled_back
    (P : Platform) (E : Env) (v p : string) (st : State) (evs : list event) :
  log (downloadBufToFilePath P E v p st).2 = log st ++ evs ->
  In (EvCreate p) evs ->
  tempName E <> p ->
  exists x,
    fs (downloadBufToFilePath P E v p st).2 !! p = Some x /\
    ((downloadBufToFilePath P E v p st).1 <> Ok tt ->
     In (EvChmod p 448) evs \/
     match fs st !! p with
     | Some old => perm x = perm old
     | None => forall umask, Z.land (Z.ldiff (perm x) umask) 73 = 0
     end).
Proof.
  intros Hlog Hin Hne.
  destruct (downloadBufToFilePath_spec P E v p st) as (evs' & Hlog' & Hfs & HQ).
  rewrite Hlog in Hlog'. apply app_inv_head in Hlog'. subst evs'.
  destruct (pipeline_created_stays P E v p _ _ _ HQ Hin Hne) as (x & Hx & Hmode).
  exists x. rewrite Hfs. split; [exact Hx|].
  intros Hr. destruct (Hmode Hr) as [Hch|Hperm]; [left; exact Hch|right].
  destruct (fs st !! p); [exact Hperm|].
  intros umask. rewrite Hperm. apply created_not_executable.
Qed.

Lemma failed_installation_is_not_rolled_back_witness :
  (downloadBufToFilePath Demo.linux Demo.diskFull "1.28.1" Demo.cachePath
     (init Demo.versionFile)).1 = Err (ErrLib "no space left on device") /\
  exists x,
    fs (downloadBufToFilePath Demo.linux Demo.diskFull "1.28.1" Demo.cachePath
          (init Demo.versionFile)).2 !! Demo.cachePath = Some x /\
    contents x = "EL" /\
    Z.land (Z.ldiff (perm x) 18) 73 = 0.
Proof.
  split; [vm_compute; reflexivity|].
  destruct (failed_installation_is_not_rolled_back Demo.linux Demo.diskFull "1.28.1"
              Demo.cachePath (init Demo.versionFile)
              (log (downloadBufToFilePath Demo.linux Demo.diskFull "1.28.1" Demo.cachePath
                      (init Demo.versionFile)).2)) as (x & Hx & Hmode).
  - reflexivity.
  - in_log.
  - vm_compute. discriminate.
  - exists x. split; [exact Hx|]. split.
    + vm_compute in Hx. injection Hx as <-. reflexivity.
    + destruct Hmode as [Hin|Hmode].
      * vm_compute. discriminate.
      * vm_compute in Hin. repeat (destruct Hin as [Hin|Hin]; [discriminate Hin|]).
        destruct Hin.
      * apply (Hmode 18).
Defined.

(** ** The notice on standard error *)

Section NoticeFacts.
Context (P : Platform) (E : Env).

(** run from the existence check on, once the version and the cache
    directory are known. *)
Lemma run_tail (fuel : nat) (st st1 : State) (v d : string) :
  getBufVersion P E fuel st = (Ok v, st1) ->
  cacheDirPathOf P E = inr d ->
  exists pre,
    Forall (fun ev => isResolve ev = true) pre /\
    run P E fuel st =
      (let! statted := attempt (os_Stat E (bufFilePathOf P d v)) in
       match statted with
       | inl _ =>
           downloadBufToFilePath P E v (bufFilePathOf P d v) ;;
           stderr_Fprintf E ("bufisk: downloaded buf to " +:+ bufFilePathOf P d v +:+ "

")
       | inr _ => ret tt
       end ;;
       cmd_Run E (bufFilePathOf P d v) (osArgs E))
        {| fs := fs st1; log := log st1 ++ pre |}.
Proof.
  intros Hgv Hd. unfold run. rewrite (bind_eq _ _ _ _ _ Hgv).
  rewrite <- bind_assoc.
  destruct (locate_eq P E st1) as (pre & Hpre & Hloc). rewrite Hd in Hloc.
  exists pre. split; [exact Hpre|].
  rewrite (bind_eq _ _ _ _ _ Hloc). reflexivity.
Qed.

End NoticeFacts.

(** On a miss with standard error failing, run never launches buf and
    never returns nil: after downloadBufToFilePath the notice cannot be
    written and run returns, even when the installation succeeded. *)
Theorem failing_notice_prevents_the_launch
    (P : Platform) (E : Env) (fuel : nat) (st : State) (v d : string)
    (e e0 : error) (evs : list event) :
  (getBufVersion P E fuel st).1 = Ok v ->
  cacheDirPathOf P E = inr d ->
  query E (OpStat (bufFilePathOf P d v)) (fs st) (bufFilePathOf P d v) = inl e0 ->
  fault E OpStderr = Some e ->
  log (run P E fuel st).2 = log st ++ evs ->
  (run P E fuel st).1 <> Ok tt /\
  (forall q a, ~ In (EvExec q a) evs).
Proof.
  intros Hv Hd Hstat Hfault Hlog.
  destruct (getBufVersion P E fuel st) as [r st1] eqn:Hgv. cbn [fst] in Hv. subst r.
  destruct (getBufVersion_spec P E fuel st) as (pre1 & Hlog1 & Hfs1 & Hpre1).
  rewrite Hgv in Hlog1, Hfs1. cbn [snd] in Hlog1, Hfs1. unfold resolveOnly in Hpre1.
  rewrite (replay_resolve _ _ Hpre1) in Hfs1.
  destruct (run_tail P E fuel st st1 v d Hgv Hd) as (pre & Hpre & Hrun).
  rewrite Hrun in Hlog |- *. clear Hrun.
  set (p := bufFilePathOf P d v) in *.
  set (st2 := {| fs := fs st1; log := log st1 ++ pre |}) in *.
  assert (Hs : attempt (os_Stat E p) st2 =
               (Ok (inl e0), {| fs := fs st; log := log st2 ++ [EvStat p (Some e0)] |})).
  { cbv beta iota zeta delta [attempt os_Stat bind getFS emit fail apply_event].
    subst st2. cbn [fs log]. rewrite Hfs1, Hstat. reflexivity. }
  rewrite (bind_eq _ _ _ _ _ Hs) in Hlog |- *.
  set (st3 := {| fs := fs st; log := log st2 ++ [EvStat p (Some e0)] |}) in *.
  destruct (downloadBufToFilePath_spec P E v p st3) as (devs & Hdlog & _ & HQ).
  pose proof (pipeline_events P E v p _ _ _ HQ) as Hdevs.
  unfold bind in Hlog |- *. unfold stderr_Fprintf in Hlog |- *. rewrite Hfault in Hlog |- *.
  unfold fail in Hlog |- *.
  assert (Hevs : evs = pre1 ++ pre ++ EvStat p (Some e0) :: devs).
  { destruct (downloadBufToFilePath P E v p st3) as [[[]|e'|] st4];
      cbn [fst snd] in Hlog, Hdlog; rewrite Hdlog in Hlog; subst st3 st2;
      cbn [log] in Hlog; rewrite Hlog1, <- !app_assoc in Hlog;
      apply app_inv_head in Hlog; exact (eq_sym Hlog). }
  split.
  - destruct (downloadBufToFilePath P E v p st3) as [[[]|e'|] st4]; cbn; discriminate.
  - intros q a Hin. rewrite Hevs in Hin.
    apply in_app_or in Hin as [Hin|Hin];
      [eapply resolve_not_In; [exact Hpre1| |exact Hin]; reflexivity|].
    apply in_app_or in Hin as [Hin|Hin];
      [eapply resolve_not_In; [exact Hpre| |exact Hin]; reflexivity|].
    destruct Hin as [Hin|Hin]; [discriminate|].
    rewrite Forall_forall in Hdevs. apply list_elem_of_In in Hin.
    specialize (Hdevs _ Hin). discriminate.
Qed.

Lemma failing_notice_prevents_the_launch_witness :
  (run Demo.linux DemoFaults.muted 8 (init Demo.versionFile)).1 =
    Err (ErrLib "write /dev/stderr: file already closed") /\
  fs (run Demo.linux DemoFaults.muted 8 (init Demo.versionFile)).2 !! Demo.cachePath =
    Some {| contents := "ELF"; perm := 448 |} /\
  ~ In (EvExec Demo.cachePath ["lint"])
      (log (run Demo.linux DemoFaults.muted 8 (init Demo.versionFile)).2).
Proof.
  split; [vm_compute; reflexivity|]. split; [vm_compute; reflexivity|].
  apply (failing_notice_prevents_the_launch Demo.linux DemoFaults.muted 8
           (init Demo.versionFile) "1.28.1" "/home/u/.cache/bufisk"
           (ErrLib "write /dev/stderr: file already closed") (ErrNotExist Demo.cachePath)
           (log (run Demo.linux DemoFaults.muted 8 (init Demo.versionFile)).2)).
  - vm_compute. reflexivity.
  - vm_compute. reflexivity.
  - vm_compute. reflexivity.
  - reflexivity.
  - reflexivity.
Defined.

(** ** Any error of the existence check *)

Section MissFacts.
Context (P : Platform) (E : Env).






End MissFacts.



(** The existence check and the creation of the file are both refused: the
    pipeline still runs, through the three downloads, the signature check
    and the comparison of digests, up to os.Create, whose error is returned;
    the old binary stays and nothing is launched. *)
Example stat_and_create_denied :
  let st := run Demo.linux DemoFaults.locked 5 (init Demo.cached) in
  st.1 = Err (ErrLib "permission denied") /\
  stages (log st.2) =
    [ EvHTTPGet Demo.artifactURL; EvHTTPDone Demo.artifactURL true;
      EvHTTPGet Demo.sha256TxtURL; EvHTTPDone Demo.sha256TxtURL true;
      EvHTTPGet Demo.minisigURL; EvHTTPDone Demo.minisigURL true;
      EvVerify true;
      EvMkdirAll "/home/u/.cache/bufisk/Linux/x86_64/releases/buf/1.28.1/bin" ] /\
  fs st.2 !! Demo.cachePath = Some {| contents := "OLD"; perm := 448 |}.
Proof. vm_compute. repeat split. Qed.
